(** * elementpath: a shallow embedding of the Pratt parser, the node model,
      the dynamic context and the token protocol

    The development follows the Python sources module by module:

    - [Tdop]     todp_parser.py: [create_tokenizer], [Token], [Parser];
    - [Nodes]    xpath_nodes.py: the node classes and the lazy
                 [namespace_nodes] / [attributes] properties;
    - [Context]  xpath_context.py: [_build_nodes] and the axis iterators;
    - [XToken]   xpath_token.py: the default [evaluate] / [select] pair.

    Python objects are records, class attributes are fields of a class
    record, exceptions are values of an error type, generators are
    functions that return the list of yielded items together with the
    state they leave behind. *)

From Stdlib Require Import String Ascii List ZArith Lia Bool DecimalString.
From Stdlib Require Import Permutation.
Import ListNotations.

Local Open Scope string_scope.

Set Warnings "-register-all".

(** A call that returns or raises. *)
Inductive Fallible (E A : Type) : Type :=
| Return (a : A)
| Raise (e : E).
Arguments Return {E A} a.
Arguments Raise {E A} e.

(* ================================================================== *)
(** * Characters and strings *)
(* ================================================================== *)

Module Str.

Definition code (c : ascii) : nat := nat_of_ascii c.

Definition between (lo hi : nat) (c : ascii) : bool :=
  Nat.leb lo (code c) && Nat.leb (code c) hi.

(** [\d] *)
Definition is_digit (c : ascii) : bool := between 48 57 c.

(** [str.isalpha] on one character of a byte string *)
Definition is_alpha (c : ascii) : bool := between 65 90 c || between 97 122 c.

(** [\w] *)
Definition is_word (c : ascii) : bool :=
  is_digit c || is_alpha c || Ascii.eqb c "_"%char.

(** [\s], and the characters removed by [str.strip()]:
    space, \t, \n, \v, \f, \r *)
Definition is_space (c : ascii) : bool :=
  Ascii.eqb c " "%char || between 9 13 c.

Fixpoint all (f : ascii -> bool) (s : string) : bool :=
  match s with
  | EmptyString => true
  | String c s' => f c && all f s'
  end.

Fixpoint mem (c : ascii) (s : string) : bool :=
  match s with
  | EmptyString => false
  | String d s' => Ascii.eqb c d || mem c s'
  end.

(** number of leading characters that satisfy [f] *)
Fixpoint span (f : ascii -> bool) (s : string) : nat :=
  match s with
  | String c s' => if f c then S (span f s') else 0
  | EmptyString => 0
  end.

Fixpoint drop (n : nat) (s : string) : string :=
  match n, s with
  | S k, String _ s' => drop k s'
  | _, _ => s
  end.

Fixpoint take (n : nat) (s : string) : string :=
  match n, s with
  | S k, String c s' => String c (take k s')
  | _, _ => EmptyString
  end.

Fixpoint rev_onto (s acc : string) : string :=
  match s with
  | EmptyString => acc
  | String c s' => rev_onto s' (String c acc)
  end.

Definition rev (s : string) : string := rev_onto s EmptyString.

(** [s.lstrip(chars)] for a predicate *)
Definition lstrip_by (f : ascii -> bool) (s : string) : string :=
  drop (span f s) s.

Definition strip_by (f : ascii -> bool) (s : string) : string :=
  rev (lstrip_by f (rev (lstrip_by f s))).

(** [s.strip()] *)
Definition strip (s : string) : string := strip_by is_space s.

(** [s.replace(' ', '')] *)
Fixpoint remove_blanks (s : string) : string :=
  match s with
  | EmptyString => EmptyString
  | String c s' =>
      if Ascii.eqb c " "%char then remove_blanks s'
      else String c (remove_blanks s')
  end.

(** [s.isalpha()]: non empty and alphabetic throughout *)
Definition isalpha (s : string) : bool :=
  match s with
  | EmptyString => false
  | _ => all is_alpha s
  end.

(** [p] is a prefix of [s]; the rest of [s] when it is *)
Fixpoint strip_prefix (p s : string) : option string :=
  match p, s with
  | EmptyString, _ => Some s
  | String a p', String b s' =>
      if Ascii.eqb a b then strip_prefix p' s' else None
  | String _ _, EmptyString => None
  end.

(** [s] split as [(s[:-1], s[-1])] *)
Fixpoint unsnoc (s : string) : option (string * ascii) :=
  match s with
  | EmptyString => None
  | String c EmptyString => Some (EmptyString, c)
  | String c s' =>
      match unsnoc s' with
      | Some (i, l) => Some (String c i, l)
      | None => None
      end
  end.

(** index of the first occurrence of [c] *)
Fixpoint find (c : ascii) (s : string) : option nat :=
  match s with
  | EmptyString => None
  | String d s' =>
      if Ascii.eqb c d then Some 0
      else match find c s' with Some n => Some (S n) | None => None end
  end.

Fixpoint count (c : ascii) (s : string) : nat :=
  match s with
  | EmptyString => 0
  | String d s' => (if Ascii.eqb c d then 1 else 0) + count c s'
  end.

Definition head (s : string) : option ascii :=
  match s with String c _ => Some c | EmptyString => None end.

Definition of_char (c : ascii) : string := String c EmptyString.

Fixpoint last (s : string) : option ascii :=
  match s with
  | EmptyString => None
  | String c EmptyString => Some c
  | String _ s' => last s'
  end.

(** [sep.join(l)] *)
Definition join (sep : string) (l : list string) : string :=
  String.concat sep l.

(** [int(s)] on a string of decimal digits *)
Definition digit_value (c : ascii) : Z := Z.of_nat (code c - 48).

Fixpoint int_of_digits (acc : Z) (s : string) : Z :=
  match s with
  | EmptyString => acc
  | String c s' => int_of_digits (10 * acc + digit_value c) s'
  end.

(** ['%s' % n] for an integer *)
Definition of_Z (z : Z) : string := NilZero.string_of_int (Z.to_int z).

Definition in_list (s : string) (l : list string) : bool :=
  existsb (String.eqb s) l.

End Str.

(* ================================================================== *)
(** * todp_parser.py *)
(* ================================================================== *)

Module Tdop.

(** ** create_tokenizer

    The compiled pattern has four top-level alternatives, tried in order
    at every position: literals (group 1), symbols (group 2), names
    (group 3) and blanks (no group).  The pattern is kept as data (the
    escaped symbols, in alternation order) and [match_at] is its matcher.

    [re.escape] is the one of the interpreters the module targets (it
    imports [MutableSequence] from [collections] and tests the escaped
    text for a trailing [\:\:]): every non-alphanumeric character is
    escaped, so an escaped symbol matches its own text and nothing else,
    also under [re.VERBOSE]. *)

(** The result of [symbol_escape]. *)
Inductive SymbolPattern : Type :=
| BeforeParen (pre : string)    (* pre \s* \(   : the symbol ends with a parenthesis *)
| BeforeColons (pre : string)   (* pre \s* \:\: : the symbol ends with two colons   *)
| WholeWord (w : string)        (* \b w \b      : alphabetic symbol         *)
| Verbatim (s : string).        (* the escaped text, as it is               *)

Definition symbol_escape (s : string) : SymbolPattern :=
  let otherwise := if Str.isalpha s then WholeWord s else Verbatim s in
  match Str.unsnoc s with
  | Some (pre, c) =>
      if Ascii.eqb c "("%char then BeforeParen pre
      else if Ascii.eqb c ":"%char then
        match Str.unsnoc pre with
        | Some (pre', c') =>
            if Ascii.eqb c' ":"%char then BeforeColons pre' else otherwise
        | None => otherwise
        end
      else otherwise
  | None => otherwise
  end.

Definition not_word_here (c : option ascii) : bool :=
  match c with
  | Some a => negb (Str.is_word a)
  | None => true
  end.

(** Length of the text matched by an escaped symbol at the head of [text];
    [prev] is the character before it (for [\b]). *)
Definition pattern_match (p : SymbolPattern) (prev : option ascii)
    (text : string) : option nat :=
  match p with
  | BeforeParen pre =>
      match Str.strip_prefix pre text with
      | Some rest =>
          let k := Str.span Str.is_space rest in
          match Str.strip_prefix "(" (Str.drop k rest) with
          | Some _ => Some (String.length pre + k + 1)
          | None => None
          end
      | None => None
      end
  | BeforeColons pre =>
      match Str.strip_prefix pre text with
      | Some rest =>
          let k := Str.span Str.is_space rest in
          match Str.strip_prefix "::" (Str.drop k rest) with
          | Some _ => Some (String.length pre + k + 2)
          | None => None
          end
      | None => None
      end
  | WholeWord w =>
      if not_word_here prev then
        match Str.strip_prefix w text with
        | Some rest =>
            if not_word_here (Str.head rest) then Some (String.length w)
            else None
        | None => None
        end
      else None
  | Verbatim s =>
      match Str.strip_prefix s text with
      | Some _ => Some (String.length s)
      | None => None
      end
  end.

(** [sorted(..., key=lambda x: -len(x))]: a stable sort, longest first. *)
Fixpoint insert_by_len (s : string) (l : list string) : list string :=
  match l with
  | [] => [s]
  | x :: l' =>
      if Nat.leb (String.length x) (String.length s) then s :: l
      else x :: insert_by_len s l'
  end.

Definition sorted_by_len (l : list string) : list string :=
  fold_right insert_by_len [] l.

Record Tokenizer : Type := mkTokenizer {
  multi : list SymbolPattern;   (* '|'.join(map(symbol_escape, symbols[:fence])) *)
  singles : string              (* ''.join(map(re.escape, symbols[fence:]))      *)
}.

(** [re.error], raised by [re.compile] *)
Inductive ReError : Type := BadPattern.

(** The symbols as [create_tokenizer] sees them after stripping, dropping
    the empty ones and sorting. *)
Definition stripped_symbols (symbols : list string) : list string :=
  filter (fun s => negb (String.eqb s ""))
         (map Str.strip symbols).

Definition multi_char (s : string) : bool := Nat.ltb 1 (String.length s).

Definition create_tokenizer (symbols : list string)
    : Fallible ReError Tokenizer :=
  let symbols := sorted_by_len (stripped_symbols symbols) in
  let fence := List.length (filter multi_char symbols) in
  let chars := String.concat "" (skipn fence symbols) in
  match chars with
  | EmptyString =>
      (* an empty class: the bracket swallows the rest of the line with
         the closing parenthesis of the group; re.compile raises re.error *)
      Raise BadPattern
  | _ => Return (mkTokenizer (map symbol_escape (firstn fence symbols)) chars)
  end.

(** *** The alternatives *)

Definition squote : ascii := ascii_of_nat 39.
Definition dquote : ascii := ascii_of_nat 34.

(** a quoted string: the quote, anything but the quote, the quote *)
Definition match_quoted (q : ascii) (text : string) : option nat :=
  match text with
  | String c rest =>
      if Ascii.eqb c q then
        match Str.find q rest with
        | Some i => Some (i + 2)
        | None => None
        end
      else None
  | EmptyString => None
  end.

(** the optional fraction: a dot and any number of digits *)
Definition match_fraction (text : string) : nat :=
  match text with
  | String "."%char rest => 1 + Str.span Str.is_digit rest
  | _ => 0
  end.

(** the optional exponent: E or e, an optional sign, one digit at least *)
Definition match_exponent (text : string) : nat :=
  match text with
  | String c rest =>
      if Ascii.eqb c "E"%char || Ascii.eqb c "e"%char then
        let sign :=
          match rest with
          | String d _ =>
              if Ascii.eqb d "+"%char || Ascii.eqb d "-"%char then 1 else 0
          | EmptyString => 0
          end in
        let digits := Str.span Str.is_digit (Str.drop sign rest) in
        if Nat.eqb digits 0 then 0 else 1 + sign + digits
      else 0
  | EmptyString => 0
  end.

(** a number: digits, or a dot and digits; then the optional fraction and
    the optional exponent *)
Definition match_number (text : string) : option nat :=
  let lead :=
    let d := Str.span Str.is_digit text in
    if Nat.ltb 0 d then Some d
    else match text with
         | String "."%char rest =>
             let k := Str.span Str.is_digit rest in
             if Nat.ltb 0 k then Some (1 + k) else None
         | _ => None
         end in
  match lead with
  | Some n1 =>
      let n2 := match_fraction (Str.drop n1 text) in
      let n3 := match_exponent (Str.drop (n1 + n2) text) in
      Some (n1 + n2 + n3)
  | None => None
  end.

Definition match_literal (text : string) : option nat :=
  match match_quoted squote text with
  | Some n => Some n
  | None =>
      match match_quoted dquote text with
      | Some n => Some n
      | None => match_number text
      end
  end.

Fixpoint first_pattern (ps : list SymbolPattern) (prev : option ascii)
    (text : string) : option nat :=
  match ps with
  | [] => None
  | p :: ps' =>
      match pattern_match p prev text with
      | Some n => Some n
      | None => first_pattern ps' prev text
      end
  end.

(** the symbol group: the escaped symbols of two characters or more, in
    order, then the class of the one-character symbols; with no symbol of
    two characters or more the first alternative of the group is empty,
    and matches the empty string. *)
Definition match_symbol (tk : Tokenizer) (prev : option ascii)
    (text : string) : option nat :=
  match multi tk with
  | [] => Some 0
  | ps =>
      match first_pattern ps prev text with
      | Some n => Some n
      | None =>
          match text with
          | String c _ => if Str.mem c (singles tk) then Some 1 else None
          | EmptyString => None
          end
      end
  end.

(** a name character: any but the slash, the brackets, the parentheses,
    the at sign, the equals sign, the bar and the blanks *)
Definition is_name_char (c : ascii) : bool :=
  negb (Str.mem c "/[]()@=|" || Str.is_space c).

(** an opening brace, one character at least other than the closing brace,
    the closing brace, and one name character at least *)
Definition match_braced (text : string) : option nat :=
  match text with
  | String "{"%char rest =>
      let k := Str.span (fun c => negb (Ascii.eqb c "}"%char)) rest in
      if Nat.eqb k 0 then None
      else match Str.drop k rest with
           | String "}"%char rest' =>
               let n := Str.span is_name_char rest' in
               if Nat.eqb n 0 then None else Some (k + n + 2)
           | _ => None
           end
  | _ => None
  end.

(** a name: an optional braced qualifier, then name characters *)
Definition match_name (text : string) : option nat :=
  match match_braced text with
  | Some n => Some n
  | None =>
      let n := Str.span is_name_char text in
      if Nat.eqb n 0 then None else Some n
  end.

Definition match_blanks (text : string) : option nat :=
  let n := Str.span Str.is_space text in
  if Nat.eqb n 0 then None else Some n.

(** A match object: its span and [groups()]. *)
Record Match : Type := mkMatch {
  m_start : nat;
  m_end : nat;
  literal : option string;
  operator : option string;
  name : option string
}.

Inductive Group : Type := GLiteral | GOperator | GName | GBlank.

Definition match_at (tk : Tokenizer) (prev : option ascii) (text : string)
    : option (nat * Group) :=
  match match_literal text with
  | Some n => Some (n, GLiteral)
  | None =>
      match match_symbol tk prev text with
      | Some n => Some (n, GOperator)
      | None =>
          match match_name text with
          | Some n => Some (n, GName)
          | None =>
              match match_blanks text with
              | Some n => Some (n, GBlank)
              | None => None
              end
          end
      end
  end.

Definition make_match (pos n : nat) (g : Group) (text : string) : Match :=
  let t := Str.take n text in
  match g with
  | GLiteral => mkMatch pos (pos + n) (Some t) None None
  | GOperator => mkMatch pos (pos + n) None (Some t) None
  | GName => mkMatch pos (pos + n) None None (Some t)
  | GBlank => mkMatch pos (pos + n) None None None
  end.

(** [tokenizer.finditer(source)], from position [pos] on, with [skip]
    characters of the last match still to pass over.  A position where no
    alternative matches is passed over silently; after an empty match the
    scan resumes one character further, as [re] does up to Python 3.6
    (from 3.7 on a match that is not empty may follow at the same
    position).  Only the group of the operators can match the empty text,
    and only when no symbol has two characters or more. *)
Fixpoint scan (tk : Tokenizer) (prev : option ascii) (pos skip : nat)
    (text : string) : list Match :=
  match skip, text with
  | S k, String c rest => scan tk (Some c) (S pos) k rest
  | S _, EmptyString => []
  | O, _ =>
      match match_at tk prev text with
      | Some (n, g) =>
          make_match pos n g text ::
          match text with
          | String c rest => scan tk (Some c) (S pos) (pred n) rest
          | EmptyString => []
          end
      | None =>
          match text with
          | String c rest => scan tk (Some c) (S pos) 0 rest
          | EmptyString => []
          end
      end
  end.

Definition finditer (tk : Tokenizer) (source : string) : list Match :=
  scan tk None 0 0 source.

(** ** Token

    A token class is the record of the class attributes that [register]
    sets; the two methods a combinator may install are kept by name.
    [Parser.postfix] is left out: its [led] stops in the debugger
    ([pdb.set_trace()]) before doing anything else. *)

Inductive Value : Type :=
| VStr (s : string)
| VInt (z : Z)
| VDecimal (text : string)    (* Decimal(text) *)
| VFloat (text : string).     (* float(text)   *)

Inductive Nud : Type :=
| NudDefault                  (* Token.nud: self.wrong_symbol()            *)
| NudLiteral                  (* literal:   return self                     *)
| NudPrefix (bp : Z).         (* prefix:    self[0:] = expression(rbp=bp),  *)

Inductive Led : Type :=
| LedDefault                  (* Token.led: self.wrong_symbol()                  *)
| LedInfix (bp : Z)           (* infix:  self[0:1] = left, expression(rbp=bp)    *)
| LedInfixr (bp : Z).         (* infixr: self[0:1] = left, expression(rbp=bp-1)  *)

Record TokenClass : Type := mkTokenClass {
  symbol : string;
  lbp : Z;
  rbp : Z;
  nud : Nud;
  led : Led
}.

Inductive Token : Type :=
| mkToken (cls : TokenClass) (value : Value) (operands : list Token).

Definition cls_of (t : Token) : TokenClass :=
  match t with mkToken c _ _ => c end.
Definition value_of (t : Token) : Value :=
  match t with mkToken _ v _ => v end.
Definition operands_of (t : Token) : list Token :=
  match t with mkToken _ _ ops => ops end.
Definition set_operands (t : Token) (ops : list Token) : Token :=
  match t with mkToken c v _ => mkToken c v ops end.

(** [Token.__init__]: the value defaults to the symbol *)
Definition new_token (c : TokenClass) (value : option Value) : Token :=
  mkToken c (match value with Some v => v | None => VStr (symbol c) end) [].

(** [l[i:j] = items] for [0 <= i <= j] *)
Definition slice_assign {A : Type} (l : list A) (i j : nat) (items : list A)
    : list A :=
  firstn i l ++ items ++ skipn (Nat.max i j) l.

(** [l[i:] = items] *)
Definition slice_assign_from {A : Type} (l : list A) (i : nat)
    (items : list A) : list A :=
  firstn i l ++ items.

(** ['%s' % value]; how Python prints a Decimal or a float is not
    modelled, a tree that holds one has no rendering here. *)
Definition value_str (v : Value) : option string :=
  match v with
  | VStr s => Some s
  | VInt z => Some (Str.of_Z z)
  | VDecimal _ => None
  | VFloat _ => None
  end.

(** [Token.tree] *)
Fixpoint tree (t : Token) : option string :=
  match t with
  | mkToken _ v ops =>
      match value_str v with
      | None => None
      | Some vs =>
          match ops with
          | [] => Some ("(" ++ vs ++ ")")
          | _ =>
              let items :=
                (fix trees (l : list Token) : option (list string) :=
                   match l with
                   | [] => Some []
                   | x :: l' =>
                       match tree x, trees l' with
                       | Some a, Some b => Some (a :: b)
                       | _, _ => None
                       end
                   end) ops in
              match items with
              | Some ts => Some ("(" ++ vs ++ " " ++ Str.join " " ts ++ ")")
              | None => None
              end
          end
      end
  end.

(** ** Exceptions

    An ElementPathSyntaxError is kept by the branch that raises it and by
    the token or the text it names.  The line and the column that
    [advance] and [wrong_symbol] format into the message from
    [self.position] are not part of it: two errors that are equal here
    can differ in that part of their message, which is read from [match],
    an attribute that [parse] does not reset. *)

Inductive SyntaxCause : Type :=
| UnexpectedToken (shown : Value)   (* Token.wrong_symbol         *)
| UnexpectedEnd                     (* advance, at the end        *)
| UnknownOperator (text : string)   (* advance, symbol not found  *)
| UnexpectedMatch (text : string).  (* advance, no group matched  *)

Inductive Exception : Type :=
| ElementPathSyntaxError (why : SyntaxCause)
| KeyError (key : string)
| ValueError (text : string)         (* float(text)    *)
| InvalidOperation (text : string)   (* Decimal(text)  *)
| IndexError
| AttributeError (attr : string).

Definition is_syntax_error (e : Exception) : bool :=
  match e with
  | ElementPathSyntaxError _ => true
  | _ => false
  end.

(** ** Parser: the class *)

Record ParserClass : Type := mkParserClass {
  symbol_table : list (string * TokenClass);   (* a dict, in insertion order *)
  tokenizer : option Tokenizer
}.

Fixpoint lookup (key : string) (d : list (string * TokenClass))
    : option TokenClass :=
  match d with
  | [] => None
  | (k, v) :: d' => if String.eqb key k then Some v else lookup key d'
  end.

(** [d[key] = v] *)
Fixpoint store (key : string) (v : TokenClass)
    (d : list (string * TokenClass)) : list (string * TokenClass) :=
  match d with
  | [] => [(key, v)]
  | (k, w) :: d' =>
      if String.eqb key k then (k, v) :: d' else (k, w) :: store key v d'
  end.

Definition special_symbols : list string :=
  ["(end)"; "(name)"; "(string)"; "(float)"; "(decimal)"; "(integer)"].

(** The keyword arguments the combinators pass to [register]. *)
Record Kwargs : Type := mkKwargs {
  kw_lbp : option Z;
  kw_rbp : option Z;
  kw_nud : option Nud;
  kw_led : option Led
}.

Definition no_kwargs : Kwargs := mkKwargs None None None None.

Definition or_default {A : Type} (o : option A) (d : A) : A :=
  match o with Some a => a | None => d end.

(** [Parser.register], for a symbol given as a string: a new class is
    built from the keyword arguments over the defaults of [Token] and the
    compiled tokenizer is dropped; on a known class [lbp] is only raised
    and the callables are replaced ([rbp], a number, is not touched). *)
Definition register (c : ParserClass) (sym : string) (kw : Kwargs)
    : ParserClass * TokenClass :=
  let sym := Str.strip sym in
  match lookup sym (symbol_table c) with
  | None =>
      let tc := mkTokenClass sym
                  (or_default (kw_lbp kw) 0%Z) (or_default (kw_rbp kw) 0%Z)
                  (or_default (kw_nud kw) NudDefault)
                  (or_default (kw_led kw) LedDefault) in
      (mkParserClass (store sym tc (symbol_table c)) None, tc)
  | Some tc =>
      let tc' := mkTokenClass (symbol tc)
                   (match kw_lbp kw with
                    | Some v => if Z.ltb (lbp tc) v then v else lbp tc
                    | None => lbp tc
                    end)
                   (rbp tc)
                   (or_default (kw_nud kw) (nud tc))
                   (or_default (kw_led kw) (led tc)) in
      (mkParserClass (store sym tc' (symbol_table c)) (tokenizer c), tc')
  end.

Definition literal_ (c : ParserClass) (sym : string) (bp : Z) : ParserClass :=
  fst (register c sym (mkKwargs (Some bp) None (Some NudLiteral) None)).

Definition prefix (c : ParserClass) (sym : string) (bp : Z) : ParserClass :=
  fst (register c sym (mkKwargs (Some bp) (Some bp) (Some (NudPrefix bp)) None)).

Definition infix (c : ParserClass) (sym : string) (bp : Z) : ParserClass :=
  fst (register c sym (mkKwargs (Some bp) (Some bp) None (Some (LedInfix bp)))).

Definition infixr (c : ParserClass) (sym : string) (bp : Z) : ParserClass :=
  fst (register c sym
         (mkKwargs (Some bp) (Some (bp - 1)%Z) None (Some (LedInfixr bp)))).

(** [Parser.begin] on a class with an empty table *)
Definition begin : ParserClass := mkParserClass [] None.

(** The symbols [Parser.end] hands to [create_tokenizer]. *)
Definition tokenizer_symbols (c : ParserClass) : list string :=
  filter (fun s => negb (Str.in_list (Str.strip s) special_symbols))
         (map fst (symbol_table c)).

(** [Parser.end]; [re.error] propagates *)
Definition end_ (c : ParserClass) : Fallible ReError ParserClass :=
  let c := fst (register c "(end)" no_kwargs) in
  match create_tokenizer (tokenizer_symbols c) with
  | Return tk => Return (mkParserClass (symbol_table c) (Some tk))
  | Raise e => Raise e
  end.

(** ** Parser: the instance

    The instance attributes that [parse], [advance] and [expression] read
    and write.  [position] (line and column of [match]) is modelled apart,
    further down. *)

Record Parser : Type := mkParser {
  pclass : ParserClass;
  token : option Token;
  match_ : option Match;
  next_token : option Token;
  next_match : option Match;
  tokens : list Match;          (* what is left of the iterator *)
  source : string
}.

Definition set_tokens (p : Parser) (ms : list Match) : Parser :=
  mkParser (pclass p) (token p) (match_ p) (next_token p) (next_match p)
           ms (source p).

Definition set_next_token (p : Parser) (t : option Token) : Parser :=
  mkParser (pclass p) (token p) (match_ p) t (next_match p)
           (tokens p) (source p).

Definition set_next_match (p : Parser) (m : option Match) : Parser :=
  mkParser (pclass p) (token p) (match_ p) (next_token p) m
           (tokens p) (source p).

Definition set_source (p : Parser) (s : string) : Parser :=
  mkParser (pclass p) (token p) (match_ p) (next_token p) (next_match p)
           (tokens p) s.

(** [self.token = self.next_token; self.match = self.next_match] *)
Definition shift (p : Parser) : Parser :=
  mkParser (pclass p) (next_token p) (next_match p) (next_token p)
           (next_match p) (tokens p) (source p).

(** [Parser.__init__] *)
Definition init (c : ParserClass) : Fallible Exception Parser :=
  match lookup "(end)" (symbol_table c), tokenizer c with
  | Some _, Some _ => Return (mkParser c None None None None [] "")
  | _, _ => Raise (ValueError "Incomplete parser class registration")
  end.

(** What a method leaves: a value or an exception, and the parser as it
    is at that point.  [Timeout] is the recursion of [expression] cut
    short by the model's fuel, as Python cuts it with a RecursionError; it
    is shown below not to come out of [parse] on a class whose end marker
    is registered under its own symbol. *)
Inductive Outcome (A : Type) : Type :=
| Ok (a : A) (p : Parser)
| Err (e : Exception) (p : Parser)
| Timeout (p : Parser).
Arguments Ok {A} a p.
Arguments Err {A} e p.
Arguments Timeout {A} p.

Definition bind {A B : Type} (m : Outcome A) (k : A -> Parser -> Outcome B)
    : Outcome B :=
  match m with
  | Ok a p => k a p
  | Err e p => Err e p
  | Timeout p => Timeout p
  end.

(** [Token.wrong_symbol] *)
Definition wrong_symbol {A : Type} (t : Token) (p : Parser) : Outcome A :=
  let shown :=
    if Str.in_list (symbol (cls_of t)) special_symbols then value_of t
    else VStr (symbol (cls_of t)) in
  Err (ElementPathSyntaxError (UnexpectedToken shown)) p.

(** [Token.expected] *)
Definition expected (t : Token) (symbols : list string) (p : Parser)
    : Outcome unit :=
  match symbols with
  | [] => Ok tt p
  | _ =>
      if Str.in_list (symbol (cls_of t)) symbols then Ok tt p
      else wrong_symbol t p
  end.

(** [Token.unexpected] *)
Definition unexpected (t : Token) (symbols : list string) (p : Parser)
    : Outcome unit :=
  match symbols with
  | [] => wrong_symbol t p
  | _ =>
      if Str.in_list (symbol (cls_of t)) symbols then wrong_symbol t p
      else Ok tt p
  end.

(** [self.next_token = self.symbol_table[key](self, value)], outside any
    [try]: a missing key is a [KeyError] *)
Definition instantiate (key : string) (value : option Value) (p : Parser)
    : Outcome unit :=
  match lookup key (symbol_table (pclass p)) with
  | Some tc => Ok tt (set_next_token p (Some (new_token tc value)))
  | None => Err (KeyError key) p
  end.

(** [float(text)] and [Decimal(text)] on a text matched by the number
    pattern: the only ill-formed shape that pattern lets through has two
    dots (a leading dot, digits, and the optional fraction again). *)
Definition well_formed_number (text : string) : bool :=
  Nat.leb (Str.count "."%char text) 1.

Definition is_quote (c : ascii) : bool :=
  Ascii.eqb c squote || Ascii.eqb c dquote.

(** The classification of a literal in [advance]; the class is looked up
    before the argument is converted. *)
Definition literal_token (text : string) (p : Parser) : Outcome unit :=
  match text with
  | EmptyString => Err IndexError p
  | String c _ =>
      if is_quote c then
        instantiate "(string)" (Some (VStr (Str.strip_by is_quote text))) p
      else if Str.mem "e"%char text || Str.mem "E"%char text then
        match lookup "(float)" (symbol_table (pclass p)) with
        | None => Err (KeyError "(float)") p
        | Some _ =>
            if well_formed_number text
            then instantiate "(float)" (Some (VFloat text)) p
            else Err (ValueError text) p
        end
      else if Str.mem "."%char text then
        match lookup "(decimal)" (symbol_table (pclass p)) with
        | None => Err (KeyError "(decimal)") p
        | Some _ =>
            if well_formed_number text
            then instantiate "(decimal)" (Some (VDecimal text)) p
            else Err (InvalidOperation text) p
        end
      else
        instantiate "(integer)" (Some (VInt (Str.int_of_digits 0 text))) p
  end.

(** [match.group()] *)
Definition group (m : Match) (src : string) : string :=
  Str.take (m_end m - m_start m) (Str.drop (m_start m) src).

(** The [while True] loop of [advance], over what is left of the
    iterator. *)
Fixpoint advance_loop (ms : list Match) (p : Parser) : Outcome unit :=
  match ms with
  | [] => instantiate "(end)" None (set_tokens p [])
  | m :: ms' =>
      let p := set_next_match (set_tokens p ms') (Some m) in
      match operator m with
      | Some op =>
          match lookup (Str.remove_blanks op) (symbol_table (pclass p)) with
          | Some tc => Ok tt (set_next_token p (Some (new_token tc None)))
          | None => Err (ElementPathSyntaxError (UnknownOperator op)) p
          end
      | None =>
          match literal m with
          | Some text => literal_token text p
          | None =>
              match name m with
              | Some n => instantiate "(name)" (Some (VStr n)) p
              | None =>
                  match Str.strip (group m (source p)) with
                  | EmptyString => advance_loop ms' p
                  | _ =>
                      Err (ElementPathSyntaxError
                             (UnexpectedMatch (group m (source p)))) p
                  end
              end
          end
      end
  end.

Definition is_end (t : option Token) : bool :=
  match t with
  | Some t => String.eqb (symbol (cls_of t)) "(end)"
  | None => false
  end.

(** [Parser.advance] *)
Definition advance (symbols : list string) (p : Parser) : Outcome unit :=
  if is_end (next_token p) then
    Err (ElementPathSyntaxError UnexpectedEnd) p
  else
    bind (match next_token p with
          | Some t => expected t symbols p
          | None => Ok tt p
          end)
         (fun _ p => advance_loop (tokens p) (shift p)).

(** [Parser.expression], with the [nud] and [led] the combinators install.
    [expression] is the body up to the loop, [led_loop] is the [while]. *)
Fixpoint expression (fuel : nat) (rbp_ : Z) (p : Parser) : Outcome Token :=
  match fuel with
  | O => Timeout p
  | S fuel' =>
      let token := next_token p in
      bind (advance [] p) (fun _ p =>
      match token with
      | None => Err (AttributeError "nud") p
      | Some t =>
          bind (match nud (cls_of t) with
                | NudDefault => wrong_symbol t p
                | NudLiteral => Ok t p
                | NudPrefix bp =>
                    bind (expression fuel' bp p) (fun e p =>
                    Ok (set_operands t
                          (slice_assign_from (operands_of t) 0 [e])) p)
                end)
               (fun left p => led_loop fuel' rbp_ left p)
      end)
  end

with led_loop (fuel : nat) (rbp_ : Z) (left : Token) (p : Parser)
    : Outcome Token :=
  match fuel with
  | O => Timeout p
  | S fuel' =>
      match next_token p with
      | None => Err (AttributeError "lbp") p
      | Some t =>
          if Z.ltb rbp_ (lbp (cls_of t)) then
            bind (advance [] p) (fun _ p =>
            bind (match led (cls_of t) with
                  | LedDefault => wrong_symbol t p
                  | LedInfix bp =>
                      bind (expression fuel' bp p) (fun right p =>
                      Ok (set_operands t
                            (slice_assign (operands_of t) 0 1 [left; right])) p)
                  | LedInfixr bp =>
                      bind (expression fuel' (bp - 1)%Z p) (fun right p =>
                      Ok (set_operands t
                            (slice_assign (operands_of t) 0 1 [left; right])) p)
                  end)
                 (fun left p => led_loop fuel' rbp_ left p))
          else Ok left p
      end
  end.

(** The [finally] clause of [parse] *)
Definition finally_ {A : Type} (m : Outcome A) : Outcome A :=
  let reset p := set_next_token (set_tokens p []) None in
  match m with
  | Ok a p => Ok a (reset p)
  | Err e p => Err e (reset p)
  | Timeout p => Timeout (reset p)
  end.

(** [Parser.parse].  Every call of [expression] and every turn of its loop
    advances first, so the matches of the source bound the fuel. *)
Definition parse (p : Parser) (src : string) : Outcome Token :=
  finally_
    (let p := set_source p src in
     match tokenizer (pclass p) with
     | None => Err (AttributeError "finditer") p
     | Some tk =>
         let p := set_tokens p (finditer tk src) in
         bind (advance [] p) (fun _ p =>
         bind (expression (S (List.length (finditer tk src))) 0%Z p)
              (fun root_token p =>
         match next_token p with
         | None => Err (AttributeError "symbol") p
         | Some t =>
             if String.eqb (symbol (cls_of t)) "(end)" then Ok root_token p
             else bind (unexpected t [] p) (fun _ p => Ok root_token p)
         end))
     end).

(** What the caller of [parse] sees. *)
Inductive Result : Type :=
| Returned (root : Token)
| Raised (e : Exception)
| OutOfFuel.

Definition result {A : Type} (wrap : A -> Result) (m : Outcome A) : Result :=
  match m with
  | Ok a _ => wrap a
  | Err e _ => Raised e
  | Timeout _ => OutOfFuel
  end.

Definition parse_result (p : Parser) (src : string) : Result :=
  result Returned (parse p src).

Definition state_after {A : Type} (m : Outcome A) : Parser :=
  match m with
  | Ok _ p => p
  | Err _ p => p
  | Timeout p => p
  end.

(** The rendering of what [parse] returns. *)
Definition parse_tree (p : Parser) (src : string) : option string :=
  match parse p src with
  | Ok t _ => tree t
  | _ => None
  end.

(** ** Registrations, as predicates on a class *)

(** [sym] is a key of the table and names the class stored under it. *)
Definition registered (c : ParserClass) (sym : string) (tc : TokenClass)
    : Prop :=
  lookup sym (symbol_table c) = Some tc /\ symbol tc = sym.

(** What [infix(sym, bp)] leaves in the table. *)
Definition is_infix (c : ParserClass) (sym : string) (bp : Z) : Prop :=
  exists tc, registered c sym tc /\ lbp tc = bp /\ led tc = LedInfix bp.

(** What [infixr(sym, bp)] leaves in the table. *)
Definition is_infixr (c : ParserClass) (sym : string) (bp : Z) : Prop :=
  exists tc, registered c sym tc /\ lbp tc = bp /\ led tc = LedInfixr bp.

(** What [literal(sym)] leaves in the table. *)
Definition is_literal (c : ParserClass) (sym : string) : Prop :=
  exists tc, registered c sym tc /\ nud tc = NudLiteral.

(** What [end()] leaves in the table. *)
Definition has_end (c : ParserClass) : Prop :=
  exists tc, registered c "(end)" tc /\ lbp tc = 0%Z.

(** The tokenizer of the class cuts [src] into the matches [ms]. *)
Definition splits (c : ParserClass) (src : string) (ms : list Match) : Prop :=
  exists tk, tokenizer c = Some tk /\ finditer tk src = ms.

Definition lit (a b : nat) (s : string) : Match :=
  mkMatch a b (Some s) None None.
Definition op (a b : nat) (s : string) : Match :=
  mkMatch a b None (Some s) None.
Definition nm (a b : nat) (s : string) : Match :=
  mkMatch a b None None (Some s).
Definition blank (a b : nat) : Match :=
  mkMatch a b None None None.

(** Three one-character operands and two one-character operators, one
    blank apart. *)
Definition spaced (operand : nat -> nat -> string -> Match)
    (x o1 y o2 z : string) : list Match :=
  [operand 0 1 x; blank 1 2; op 2 3 o1; blank 3 4; operand 4 5 y;
   blank 5 6; op 6 7 o2; blank 7 8; operand 8 9 z].

(** [s] occurs in [src] *)
Fixpoint occurs (s src : string) : bool :=
  match Str.strip_prefix s src with
  | Some _ => true
  | None =>
      match src with
      | String _ rest => occurs s rest
      | EmptyString => false
      end
  end.

(** The five matches of two one-character operands around a
    two-character operator, one blank apart. *)
Definition around (first last : Match) (o : string) : list Match :=
  [first; blank 1 2; op 2 4 o; blank 4 5; last].

(** A one-character token: an operator when the character is a registered
    symbol, a name otherwise. *)
Definition char_token (symbols : list string) (a b : nat) (s : string)
    : Match :=
  if Str.in_list s (stripped_symbols symbols) then op a b s else nm a b s.

(** The class has been closed by [end()] after its last registration:
    its tokenizer is the one compiled from its table. *)
Definition ended (c : ParserClass) : Prop :=
  exists tk, tokenizer c = Some tk /\
             create_tokenizer (tokenizer_symbols c) = Return tk.

(** Some symbol given to [create_tokenizer] has two characters or more. *)
Definition has_long_symbol (symbols : list string) : Prop :=
  exists x, In x (stripped_symbols symbols) /\ multi_char x = true.

(** The symbols given to [create_tokenizer] that occur in [src] are among
    [allowed]. *)
Definition symbols_in (symbols : list string) (src : string)
    (allowed : list string) : Prop :=
  forall s, In s (stripped_symbols symbols) -> occurs s src = true ->
            In s allowed.

(** Of the symbols of two characters or more given to [create_tokenizer],
    [x] alone occurs in [src]. *)
Definition only_long_symbol_in (symbols : list string) (src x : string)
    : Prop :=
  forall s, In s (stripped_symbols symbols) -> multi_char s = true ->
            s <> x -> occurs s src = false.

(** The tokenizer compiled from [symbols] finds the operator [<=] in
    [a <= b] as one match, and no match for [<] or for [=]. *)
Definition finds_le (symbols : list string) : Prop :=
  forall tk, create_tokenizer symbols = Return tk ->
    In (op 2 4 "<=") (finditer tk "a <= b") /\
    forall m, In m (finditer tk "a <= b") ->
              operator m <> Some "<" /\ operator m <> Some "=".

(** Two comparison operators, and the same with a longer symbol that
    begins like one of them. *)
Definition comparison_symbols : list string := ["<"; "<="].
Definition comparison_symbols_longer : list string := ["<"; "<="; "<= b"].

(** A parser as [__init__] leaves it. *)
Definition fresh (c : ParserClass) : Parser :=
  mkParser c None None None None [] "".

(** The parser after the iterator has given the match [m]. *)
Definition read (p : Parser) (m : Match) (ms : list Match) : Parser :=
  set_next_match (set_tokens p ms) (Some m).

(** A literal that [advance] takes for an integer: not quoted, no
    exponent mark, no dot. *)
Definition integer_text (text : string) : bool :=
  match text with
  | EmptyString => false
  | String c _ =>
      negb (is_quote c)
      && negb (Str.mem "e"%char text || Str.mem "E"%char text)
      && negb (Str.mem "."%char text)
  end.

(** The end marker is registered under its own symbol, as [end()]
    registers it. *)
Definition end_registered (c : ParserClass) : Prop :=
  exists tc, registered c "(end)" tc.

(** What is left to read: the matches of the iterator, and the end marker
    as long as the lookahead is not on it. *)
Definition unread (p : Parser) : nat :=
  List.length (tokens p) + (if is_end (next_token p) then 0 else 1).

(** ** Example parsers *)

(** A small arithmetic grammar, registered as the package registers its
    own: literals, a prefix minus, left and right associative operators. *)
Definition arith_symbols (c : ParserClass) : ParserClass :=
  let c := literal_ c "(integer)" 0 in
  let c := literal_ c "(decimal)" 0 in
  let c := literal_ c "(float)" 0 in
  let c := literal_ c "(string)" 0 in
  let c := literal_ c "(name)" 0 in
  let c := infix c "<" 5 in
  let c := infix c "<=" 5 in
  let c := infix c "+" 10 in
  let c := infix c "*" 20 in
  let c := infix c "div" 20 in
  let c := prefix c "-" 30 in
  let c := infixr c "^" 40 in
  c.

Definition arith_class : Fallible ReError ParserClass :=
  end_ (arith_symbols begin).

(** The same, with [+] and [^] at one binding power. *)
Definition assoc_class (bp : Z) : Fallible ReError ParserClass :=
  let c := literal_ begin "(name)" 0 in
  let c := infix c "<=" 5 in
  let c := infix c "+" bp in
  let c := infixr c "^" bp in
  end_ c.

(** Only [+] and [*] next to the integer literal: no symbol has two
    characters. *)
Definition minimal_class : Fallible ReError ParserClass :=
  let c := literal_ begin "(integer)" 0 in
  let c := infix c "+" 10 in
  let c := infix c "*" 20 in
  end_ c.

(** Only [+] and [^] next to the name literal, at one binding power. *)
Definition minimal_assoc_class (bp : Z) : Fallible ReError ParserClass :=
  let c := literal_ begin "(name)" 0 in
  let c := infix c "+" bp in
  let c := infixr c "^" bp in
  end_ c.

Definition the_class (c : Fallible ReError ParserClass) : ParserClass :=
  match c with
  | Return c => c
  | Raise _ => begin
  end.

Definition the_parser (c : Fallible ReError ParserClass) : Parser :=
  match init (the_class c) with
  | Return p => p
  | Raise _ => mkParser begin None None None None [] ""
  end.

(** The class registered under a symbol, and the tokenizer, of a class
    that has them. *)
Definition class_of (c : ParserClass) (sym : string) : TokenClass :=
  match lookup sym (symbol_table c) with
  | Some tc => tc
  | None => mkTokenClass "" 0 0 NudDefault LedDefault
  end.

Definition tokenizer_of (c : ParserClass) : Tokenizer :=
  match tokenizer c with
  | Some tk => tk
  | None => mkTokenizer [] ""
  end.

(** ** Predicates of the proofs *)

(** The long symbols first, then the others. *)
Definition partitioned (l : list string) : Prop :=
  exists a b, l = (a ++ b)%list /\
              Forall (fun s => multi_char s = true) a /\
              Forall (fun s => multi_char s = false) b.

(** A step of the parser that ends, leaves the class alone and reads on:
    at least one match when [strict], none or more otherwise. *)
Definition runs_within {A : Type} (p : Parser) (strict : bool) (m : Outcome A)
    : Prop :=
  match m with
  | Ok _ p' =>
      pclass p' = pclass p /\
      (if strict then unread p' < unread p else unread p' <= unread p)
  | Err _ _ => True
  | Timeout _ => False
  end.

(** A call leaves the class of the parser as it is. *)
Definition keeps_class {A : Type} (p : Parser) (m : Outcome A) : Prop :=
  pclass (state_after m) = pclass p.

(** ** Parser.alias

    The class found under [other] is put under the stripped symbol too.
    In the source both keys then hold one class object; the table of the
    model holds classes by value, which is the same as long as no
    registration follows on either key. *)

Inductive AliasError : Type := ElementPathKeyError (other : string).

Definition alias (c : ParserClass) (symbol_ other : string)
    : Fallible AliasError ParserClass :=
  let symbol_ := Str.strip symbol_ in
  match lookup other (symbol_table c) with
  | Some tc =>
      Return (mkParserClass (store symbol_ tc (symbol_table c)) (tokenizer c))
  | None => Raise (ElementPathKeyError other)
  end.

(** ** Parser.position, Parser.source_first, Parser.line_first *)

Definition newline : ascii := ascii_of_nat 10.

(** [s.rindex(c)]: the index of the last occurrence; [None] stands for
    the ValueError. *)
Fixpoint rindex (c : ascii) (s : string) : option nat :=
  match s with
  | EmptyString => None
  | String d s' =>
      match rindex c s' with
      | Some n => Some (S n)
      | None => if Ascii.eqb c d then Some 0 else None
      end
  end.

(** [s[i:j]] for [0 <= i] and [0 <= j] *)
Definition slice (i j : nat) (s : string) : string :=
  Str.take (j - i) (Str.drop i s).

(** [Parser.position]: the line and the column of the current match *)
Definition position (p : Parser) : Fallible Exception (nat * nat) :=
  match match_ p with
  | None => Return (1, 0)
  | Some m =>
      let token_index := m_start m in
      let line := Str.count newline (slice 0 token_index (source p)) + 1 in
      if Nat.eqb line 1 then Return (line, token_index + 1)
      else
        match rindex newline (slice 0 token_index (source p)) with
        | Some r => Return (line, token_index - r)
        | None => Raise (ValueError "substring not found")
        end
  end.

(** [Parser.source_first] *)
Definition source_first (p : Parser) : bool :=
  match match_ p with
  | None => true
  | Some m =>
      match Str.strip (slice 0 (m_start m) (source p)) with
      | EmptyString => true
      | _ => false
      end
  end.

(** [Parser.line_first] *)
Definition line_first (p : Parser) : Fallible Exception bool :=
  match match_ p with
  | None => Return true
  | Some m =>
      let token_index := m_start m in
      match rindex newline (slice 0 token_index (source p)) with
      | None => Raise (ValueError "substring not found")
      | Some r =>
          let line_start := r + 1 in
          match Str.strip (slice line_start token_index (source p)) with
          | EmptyString => Return true
          | _ => Return false
          end
      end
  end.

(** A parser on the second line of a source of two lines. *)
Definition two_lines : string := "a" ++ String newline " b".

Definition on_second_line : Parser :=
  mkParser begin None (Some (nm 3 4 "b")) None None [] two_lines.

(** ** Token.iter *)

Fixpoint iter (t : Token) : list Token :=
  match t with
  | mkToken _ _ ops =>
      match ops with
      | [] => [t]
      | first :: rest =>
          (iter first ++
           t :: (fix each (l : list Token) : list Token :=
                   match l with
                   | [] => []
                   | x :: l' => iter x ++ each l'
                   end) rest)%list
      end
  end.

(** The token and the tokens below it, a token before its operands. *)
Fixpoint tokens_below (t : Token) : list Token :=
  match t with
  | mkToken _ _ ops =>
      t :: (fix each (l : list Token) : list Token :=
              match l with
              | [] => []
              | x :: l' => (tokens_below x ++ each l')%list
              end) ops
  end.

(** ** Numbers, operators and blanks in a source *)

(** What ends a number: the end of the text, or a character that is
    neither a digit, nor a dot, nor an exponent mark. *)
Definition number_stops (rest : string) : bool :=
  match rest with
  | EmptyString => true
  | String c _ =>
      negb (Str.is_digit c || Ascii.eqb c "."%char || Ascii.eqb c "E"%char
            || Ascii.eqb c "e"%char)
  end.

(** The character before the position after [a], given the one before
    [a]. *)
Definition last_of (a : string) (prev : option ascii) : option ascii :=
  match Str.last a with
  | Some c => Some c
  | None => prev
  end.

(** A character that stands for an operator between two numbers: no
    blank, no digit, no quote, no dot, and neither a parenthesis nor a
    colon, which the escaped symbols treat apart. *)
Definition operator_char (c : ascii) : bool :=
  negb (Str.is_space c || Str.is_digit c || is_quote c
        || Ascii.eqb c "."%char || Ascii.eqb c "("%char
        || Ascii.eqb c ":"%char).

(** An operator between two blanks, then the rest. *)
Definition spaced_operator (o : ascii) (rest : string) : string :=
  String " " (String o (String " " rest)).

(** Three operands around two operators, a blank apart. *)
Definition spaced_source (a : string) (o1 : ascii) (b : string) (o2 : ascii)
    (c : string) : string :=
  a ++ spaced_operator o1 (b ++ spaced_operator o2 c).

(** The three matches of an operator between two blanks, from [pos]. *)
Definition operator_matches (pos : nat) (o : ascii) : list Match :=
  [blank pos (pos + 1); op (S pos) (S pos + 1) (String o "");
   blank (S (S pos)) (S (S pos) + 1)].

(** The nine matches of [spaced_source]. *)
Definition spaced_matches (a : string) (o1 : ascii) (b : string) (o2 : ascii)
    (c : string) : list Match :=
  let p1 := 0 + String.length a in
  let p2 := S (S (S p1)) in
  let p3 := p2 + String.length b in
  let p4 := S (S (S p3)) in
  ((lit 0 p1 a :: operator_matches p1 o1)
   ++ (lit p2 p3 b :: operator_matches p3 o2)
   ++ [lit p4 (p4 + String.length c) c])%list.

(** ** The matches without a group *)

(** A match without a group covers blanks only. *)
Definition blank_or_group (src : string) (m : Match) : Prop :=
  literal m = None -> operator m = None -> name m = None ->
  Str.all Str.is_space (group m src) = true.

(** The matches that a parser has still to read are those of a
    tokenizer. *)
Definition reads_blanks (p : Parser) : Prop :=
  Forall (blank_or_group (source p)) (tokens p).

(** The error of the last branch of the loop of [advance]. *)
Definition is_unexpected_match (e : Exception) : bool :=
  match e with
  | ElementPathSyntaxError (UnexpectedMatch _) => true
  | _ => false
  end.

(** A call does not end on that error, and leaves a parser that reads
    the matches of a tokenizer. *)
Definition no_unexpected_match {A : Type} (m : Outcome A) : Prop :=
  match m with
  | Ok _ p => reads_blanks p
  | Err e _ => is_unexpected_match e = false
  | Timeout _ => True
  end.

(** ** The trees of operators around integers *)

(** The token of an integer literal. *)
Definition integer_token (tc : TokenClass) (digits : string) : Token :=
  mkToken tc (VInt (Str.int_of_digits 0 digits)) [].

(** The token of an operator with its two operands. *)
Definition binary_token (tc : TokenClass) (left right : Token) : Token :=
  mkToken tc (VStr (symbol tc)) [left; right].

(** The binding power with which an operator parses its right operand:
    the one given to [infix], one less than the one given to [infixr]. *)
Definition right_power (tc : TokenClass) : option Z :=
  match led tc with
  | LedInfix bp => Some bp
  | LedInfixr bp => Some (bp - 1)%Z
  | LedDefault => None
  end.

(** [tc] is the class of the one-character operator [o], with the left
    binding power [l], and parses its right operand at [r]. *)
Definition binary_operator (c : ParserClass) (o : ascii) (tc : TokenClass)
    (l r : Z) : Prop :=
  registered c (String o "") tc /\ lbp tc = l /\ right_power tc = Some r.

(** [tc] is the class of the integer literal. *)
Definition integer_class (c : ParserClass) (tc : TokenClass) : Prop :=
  registered c "(integer)" tc /\ nud tc = NudLiteral.

(** A text of decimal digits. *)
Definition decimal_digits (s : string) : Prop :=
  s <> "" /\ Str.all Str.is_digit s = true.

(** A prefix operator, a blank, and two operands around an operator. *)
Definition prefixed_source (o1 : ascii) (a : string) (o2 : ascii) (b : string)
    : string :=
  String o1 (String " " (a ++ spaced_operator o2 b)).

(** The seven matches of [prefixed_source]. *)
Definition prefixed_matches (o1 : ascii) (a : string) (o2 : ascii) (b : string)
    : list Match :=
  let p1 := 2 + String.length a in
  let p2 := S (S (S p1)) in
  ([op 0 (0 + 1) (String o1 ""); blank 1 (1 + 1); lit 2 p1 a]
   ++ operator_matches p1 o2
   ++ [lit p2 (p2 + String.length b) b])%list.

(** The token of a prefix operator with its operand. *)
Definition prefix_token (tc : TokenClass) (operand : Token) : Token :=
  mkToken tc (VStr (symbol tc)) [operand].

(** [tc] is the class of the one-character operator [o], and as a prefix
    parses its operand at [r]. *)
Definition prefix_operator (c : ParserClass) (o : ascii) (tc : TokenClass)
    (r : Z) : Prop :=
  registered c (String o "") tc /\ nud tc = NudPrefix r.

(** ** Sources that are not expressions *)

(** An operand, a blank and an operator, and nothing after it. *)
Definition dangling_source (a : string) (o : ascii) : string :=
  a ++ String " " (String o "").

Definition dangling_matches (a : string) (o : ascii) : list Match :=
  let p1 := 0 + String.length a in
  [lit 0 p1 a; blank p1 (p1 + 1); op (S p1) (S p1 + 1) (String o "")].

(** Two operands, a blank apart. *)
Definition juxtaposed_source (a b : string) : string :=
  a ++ String " " b.

Definition juxtaposed_matches (a b : string) : list Match :=
  let p1 := 0 + String.length a in
  [lit 0 p1 a; blank p1 (p1 + 1); lit (S p1) (S p1 + String.length b) b].

End Tdop.

(* ================================================================== *)
(** * xpath_nodes.py *)
(* ================================================================== *)

Module Nodes.

Local Open Scope list_scope.

(** ** The caller's tree (ElementProtocol, DocumentProtocol)

    The tag of a comment or of a processing instruction is the factory
    function, which is what [callable(elem.tag)] tests.  [nsmap] is an
    attribute of lxml elements only. *)

Inductive Tag : Type :=
| TagName (s : string)
| TagComment
| TagPI.

Definition callable (t : Tag) : bool :=
  match t with
  | TagName _ => false
  | _ => true
  end.

Inductive Element : Type :=
| mkElement (tag : Tag) (attrib : list (string * string))
            (text tail : option string)
            (nsmap : option (list (option string * string)))
            (children : list Element).

Definition tag (e : Element) : Tag :=
  match e with mkElement t _ _ _ _ _ => t end.
Definition attrib (e : Element) : list (string * string) :=
  match e with mkElement _ a _ _ _ _ => a end.
Definition text (e : Element) : option string :=
  match e with mkElement _ _ t _ _ _ => t end.
Definition tail (e : Element) : option string :=
  match e with mkElement _ _ _ t _ _ => t end.
Definition elem_nsmap (e : Element) : option (list (option string * string)) :=
  match e with mkElement _ _ _ _ m _ => m end.
Definition elem_children (e : Element) : list Element :=
  match e with mkElement _ _ _ _ _ c => c end.

(** ** Values and objects

    The attributes of a node hold whatever the caller of the constructor
    passes, so they are values of any kind.  Nodes live in a heap and are
    referred to by address: a child holds the address of its parent and a
    parent the addresses of its children. *)

Inductive Val : Type :=
| VNone
| VInt (z : Z)
| VStr (s : string)
| VBool (b : bool)
| VElement (e : Element)        (* an element of the caller's tree       *)
| VDocument (getroot : Element) (* an ElementTree                        *)
| VContext                      (* the XPathContext instance             *)
| VNode (addr : nat).           (* an XPath node of the heap             *)

(** One constructor per node class, one argument per slot. *)
Inductive Node : Type :=
| AttributeNode (name value parent position xsd_type : Val)
| NamespaceNode (prefix uri parent position : Val)
| TextNode (value parent position : Val)
| CommentNode (elem parent position : Val)
| ProcessingInstructionNode (elem parent position : Val)
| ElementNode (elem parent position xsd_type : Val)
              (nsmap : list (option string * string))
              (_namespace_nodes _attributes : option (list nat))
              (children : list nat)
| DocumentNode (document position : Val) (children : list nat).

Definition Heap : Type := list Node.

Inductive Error : Type :=
| TypeError (what : string)
| AttributeError (attr : string)
| NameError (name : string)
| RuntimeError.

(** What a call leaves: a value or an exception, and the heap.
    [OutOfFuel] is the model giving up, not an event of the program. *)
Inductive Res (A : Type) : Type :=
| Done (a : A) (h : Heap)
| Fail (e : Error) (h : Heap)
| OutOfFuel.
Arguments Done {A} a h.
Arguments Fail {A} e h.
Arguments OutOfFuel {A}.

Definition alloc (n : Node) (h : Heap) : nat * Heap :=
  (List.length h, h ++ [n]).

Fixpoint set_nth (i : nat) (n : Node) (h : Heap) : Heap :=
  match i, h with
  | O, _ :: h' => n :: h'
  | S k, x :: h' => x :: set_nth k n h'
  | _, [] => []
  end.

(** [node.parent]; a document node has it set to [None] *)
Definition node_parent (n : Node) : Val :=
  match n with
  | AttributeNode _ _ p _ _ => p
  | NamespaceNode _ _ p _ => p
  | TextNode _ p _ => p
  | CommentNode _ p _ => p
  | ProcessingInstructionNode _ p _ => p
  | ElementNode _ p _ _ _ _ _ _ => p
  | DocumentNode _ _ _ => VNone
  end.

(** [node.position] *)
Definition node_position (n : Node) : Val :=
  match n with
  | AttributeNode _ _ _ p _ => p
  | NamespaceNode _ _ _ p => p
  | TextNode _ _ p => p
  | CommentNode _ _ p => p
  | ProcessingInstructionNode _ _ p => p
  | ElementNode _ _ p _ _ _ _ _ => p
  | DocumentNode _ p _ => p
  end.

Definition position_at (h : Heap) (addr : nat) : option Val :=
  option_map node_position (nth_error h addr).

(** [ElementNode.__init__(self, elem, parent=None, position=1, nsmap=None,
    xsd_type=None)]: the arguments are stored as they come; without an
    [nsmap] argument the map is [elem.nsmap], or empty when [elem] has no
    such attribute. *)
Definition ElementNode_init (elem parent position : Val)
    (nsmap : option (list (option string * string))) (xsd_type : Val) : Node :=
  let m :=
    match nsmap with
    | Some m => m
    | None =>
        match elem with
        | VElement e =>
            match elem_nsmap e with Some m => m | None => [] end
        | _ => []
        end
    end in
  ElementNode elem parent position xsd_type m None None [].

(** [DocumentNode.__init__(self, document, position=1)] *)
Definition DocumentNode_init (document position : Val) : Node :=
  DocumentNode document position [].

(** [parent.children.append(child)] *)
Definition append_child (parent child : nat) (h : Heap) : Res unit :=
  match nth_error h parent with
  | Some (ElementNode e p pos x m ns at_ ch) =>
      Done tt (set_nth parent (ElementNode e p pos x m ns at_ (ch ++ [child])) h)
  | Some (DocumentNode d pos ch) =>
      Done tt (set_nth parent (DocumentNode d pos (ch ++ [child])) h)
  | _ => Fail (AttributeError "append") h
  end.

(** The namespace of the [xml] prefix (namespaces.XML_NAMESPACE). *)
Definition XML_NAMESPACE : string := "http://www.w3.org/XML/1998/namespace".

Definition prefix_val (pfx : option string) : Val :=
  match pfx with
  | Some s => VStr s
  | None => VNone
  end.

Definition is_xml (pfx : option string) : bool :=
  match pfx with
  | Some s => String.eqb s "xml"
  | None => false
  end.

(** The nodes the loop of [namespace_nodes] appends, [position] counting
    up from [pos]. *)
Fixpoint other_namespaces (owner : nat) (pos : Z)
    (items : list (option string * string)) : list Node :=
  match items with
  | [] => []
  | (pfx, uri) :: items' =>
      if is_xml pfx then other_namespaces owner pos items'
      else NamespaceNode (prefix_val pfx) (VStr uri) (VNode owner) (VInt pos)
           :: other_namespaces owner (pos + 1) items'
  end.

(** The addresses [n], [n+1], ..., of [k] nodes put at the end of a heap
    of [n] nodes. *)
Definition fresh (n k : nat) : list nat := seq n k.

(** [ElementNode.namespace_nodes]: built on the first access, kept in
    [_namespace_nodes] and returned as they are afterwards. *)
Definition namespace_nodes (addr : nat) (h : Heap) : Res (list nat) :=
  match nth_error h addr with
  | Some (ElementNode e p pos x m ns at_ ch) =>
      match ns with
      | Some l => Done l h
      | None =>
          match pos with
          | VInt z =>
              let nodes :=
                NamespaceNode (VStr "xml") (VStr XML_NAMESPACE) (VNode addr)
                              (VInt (z + 1))
                :: other_namespaces addr (z + 2) m in
              let l := fresh (List.length h) (List.length nodes) in
              Done l (set_nth addr (ElementNode e p pos x m (Some l) at_ ch)
                              (h ++ nodes))
          | _ => Fail (TypeError "unsupported operand type(s) for +") h
          end
      end
  | _ => Fail (AttributeError "namespace_nodes") h
  end.

(** [enumerate(items, position)] into attribute nodes *)
Fixpoint attribute_nodes (owner : nat) (pos : Z)
    (items : list (string * string)) : list Node :=
  match items with
  | [] => []
  | (name, value) :: items' =>
      AttributeNode (VStr name) (VStr value) (VNode owner) (VInt pos) VNone
      :: attribute_nodes owner (pos + 1) items'
  end.

(** [len(self.nsmap) + int('xml' not in self.nsmap)] *)
Definition attributes_offset (m : list (option string * string)) : Z :=
  Z.of_nat (List.length m)
  + (if existsb (fun kv => is_xml (fst kv)) m then 0 else 1).

(** [ElementNode.attributes]: built on the first access from
    [self.elem.attrib], kept in [_attributes]. *)
Definition attributes (addr : nat) (h : Heap) : Res (list nat) :=
  match nth_error h addr with
  | Some (ElementNode e p pos x m ns at_ ch) =>
      match at_ with
      | Some l => Done l h
      | None =>
          match pos with
          | VInt z =>
              match e with
              | VElement el =>
                  let nodes :=
                    attribute_nodes addr (z + attributes_offset m) (attrib el) in
                  let l := fresh (List.length h) (List.length nodes) in
                  Done l (set_nth addr (ElementNode e p pos x m ns (Some l) ch)
                                  (h ++ nodes))
              | _ => Fail (AttributeError "attrib") h
              end
          | _ => Fail (TypeError "unsupported operand type(s) for +") h
          end
      end
  | _ => Fail (AttributeError "attributes") h
  end.

(** The positions of the nodes at the addresses [l]. *)
Definition positions (h : Heap) (l : list nat) : list (option Val) :=
  map (position_at h) l.

(** *** An element with one attribute and no namespace map *)

Definition one_attribute : Element :=
  mkElement (TagName "A") [("a", "1")] None None None [].

Definition one_attribute_heap : Heap :=
  [ElementNode_init (VElement one_attribute) VNone (VInt 1) None VNone].

(** ** Walking the nodes *)

(** [if nodes: yield from nodes] for [_namespace_nodes] and [_attributes]:
    nothing for [None] and for an empty list. *)
Definition built (nodes : option (list nat)) : list nat :=
  match nodes with
  | Some l => l
  | None => []
  end.

(** The loop of [ElementNode.iter_descendants]: [children] is what is left
    of the iterator at hand and [iterators] the stack of those set aside,
    the last one first. *)
Fixpoint descendants_loop (fuel : nat) (h : Heap) (children : list nat)
    (iterators : list (list nat)) : option (list nat) :=
  match fuel with
  | O => None
  | S fuel' =>
      match children with
      | child :: rest =>
          match nth_error h child with
          | Some (ElementNode _ _ _ _ _ _ _ (c :: cs)) =>
              option_map (cons child)
                (descendants_loop fuel' h (c :: cs) (rest :: iterators))
          | _ =>
              option_map (cons child)
                (descendants_loop fuel' h rest iterators)
          end
      | [] =>
          match iterators with
          | [] => Some []
          | top :: others => descendants_loop fuel' h top others
          end
      end
  end.

(** The loop of [ElementNode.iter], which yields the namespace and
    attribute nodes that an element has built after the element. *)
Fixpoint iter_loop (fuel : nat) (h : Heap) (children : list nat)
    (iterators : list (list nat)) : option (list nat) :=
  match fuel with
  | O => None
  | S fuel' =>
      match children with
      | child :: rest =>
          match nth_error h child with
          | Some (ElementNode _ _ _ _ _ ns ats ch) =>
              option_map (fun l => child :: built ns ++ built ats ++ l)
                (match ch with
                 | _ :: _ => iter_loop fuel' h ch (rest :: iterators)
                 | [] => iter_loop fuel' h rest iterators
                 end)
          | _ =>
              option_map (cons child) (iter_loop fuel' h rest iterators)
          end
      | [] =>
          match iterators with
          | [] => Some []
          | top :: others => iter_loop fuel' h top others
          end
      end
  end.

Definition yields (h : Heap) (l : option (list nat)) : Res (list nat) :=
  match l with
  | Some l => Done l h
  | None => OutOfFuel
  end.

(** [yield from e.iter_descendants()] for the element nodes among the
    children of a document, [yield e] for the others *)
Fixpoint document_descendants (fuel : nat) (h : Heap) (children : list nat)
    : option (list nat) :=
  match children with
  | [] => Some []
  | e :: rest =>
      match
        match nth_error h e with
        | Some (ElementNode _ _ _ _ _ _ _ ch) =>
            option_map (cons e) (descendants_loop fuel h ch [])
        | _ => Some [e]
        end,
        document_descendants fuel h rest
      with
      | Some a, Some b => Some (a ++ b)
      | _, _ => None
      end
  end.

(** [node.iter_descendants(with_self)], of the class of the node *)
Definition iter_descendants (fuel : nat) (with_self : bool) (addr : nat)
    (h : Heap) : Res (list nat) :=
  let self := if with_self then [addr] else [] in
  match nth_error h addr with
  | Some (ElementNode _ _ _ _ _ _ _ ch) =>
      yields h (option_map (app self) (descendants_loop fuel h ch []))
  | Some (DocumentNode _ _ ch) =>
      yields h (option_map (app self) (document_descendants fuel h ch))
  | _ => Fail (AttributeError "iter_descendants") h
  end.

(** [ElementNode.iter] *)
Definition element_iter (fuel : nat) (h : Heap) (addr : nat)
    (ns ats : option (list nat)) (ch : list nat) : option (list nat) :=
  option_map (fun l => addr :: built ns ++ built ats ++ l)
             (iter_loop fuel h ch []).

Fixpoint document_iter (fuel : nat) (h : Heap) (children : list nat)
    : option (list nat) :=
  match children with
  | [] => Some []
  | e :: rest =>
      match
        match nth_error h e with
        | Some (ElementNode _ _ _ _ _ ns ats ch) => element_iter fuel h e ns ats ch
        | _ => Some [e]
        end,
        document_iter fuel h rest
      with
      | Some a, Some b => Some (a ++ b)
      | _, _ => None
      end
  end.

(** [node.iter()], of the class of the node *)
Definition iter (fuel : nat) (addr : nat) (h : Heap) : Res (list nat) :=
  match nth_error h addr with
  | Some (ElementNode _ _ _ _ _ ns ats ch) =>
      yields h (element_iter fuel h addr ns ats ch)
  | Some (DocumentNode _ _ ch) =>
      yields h (option_map (cons addr) (document_iter fuel h ch))
  | _ => Fail (AttributeError "iter") h
  end.

(** *** The tree that a heap holds *)

Inductive Tree : Type :=
| T (addr : nat) (kids : list Tree).

Definition root_of (t : Tree) : nat := match t with T a _ => a end.
Definition kids_of (t : Tree) : list Tree := match t with T _ k => k end.

(** The children that the loops go down to. *)
Definition children_of (h : Heap) (addr : nat) : list nat :=
  match nth_error h addr with
  | Some (ElementNode _ _ _ _ _ _ _ ch) => ch
  | _ => []
  end.

(** The nodes that an element has built. *)
Definition built_of (h : Heap) (addr : nat) : list nat :=
  match nth_error h addr with
  | Some (ElementNode _ _ _ _ _ ns ats _) => built ns ++ built ats
  | _ => []
  end.

(** The node at the root of [t] has the roots of the subtrees as
    children, and so on below. *)
Fixpoint shaped (h : Heap) (t : Tree) : Prop :=
  match t with
  | T a kids =>
      children_of h a = map root_of kids /\
      (fix all (l : list Tree) : Prop :=
         match l with
         | [] => True
         | k :: l' => shaped h k /\ all l'
         end) kids
  end.

(** Document order: a node, then its subtrees from the first to the
    last. *)
Fixpoint preorder (t : Tree) : list nat :=
  match t with
  | T a kids => a :: flat_map preorder kids
  end.

Fixpoint tree_size (t : Tree) : nat :=
  match t with
  | T _ kids => S (list_sum (map tree_size kids))
  end.

Definition forest_size (l : list Tree) : nat := list_sum (map tree_size l).

(** The children of the node at [addr], element or document, are the
    roots of [kids]. *)
Definition holds (h : Heap) (addr : nat) (kids : list Tree) : Prop :=
  match nth_error h addr with
  | Some (ElementNode _ _ _ _ _ _ _ ch) => ch = map root_of kids
  | Some (DocumentNode _ _ ch) => ch = map root_of kids
  | _ => False
  end.

(** What a stack of iterators set aside costs the loop: a step to take
    each one up again, and the steps through it. *)
Definition stack_cost (stack : list (list Tree)) : nat :=
  list_sum (map (fun s => S (2 * forest_size s)) stack).

(** A node, then the nodes it has built. *)
Definition with_built (h : Heap) (addr : nat) : list nat :=
  addr :: built_of h addr.

(** The nodes of a tree in document order, each with the nodes it has
    built. *)
Definition visit (h : Heap) (t : Tree) : list nat :=
  flat_map (with_built h) (preorder t).

(** ** ElementNode.path *)

(** The loop of [path]: [item] goes up along [parent] and the tags of the
    element nodes on the way are appended to [path]. *)
Fixpoint path_loop (fuel : nat) (h : Heap) (item : Val) (path : list Tag)
    : Res (list Tag) :=
  match fuel with
  | O => OutOfFuel
  | S fuel' =>
      match item with
      | VNode a =>
          match nth_error h a with
          | Some n =>
              let up (path' : list Tag) :=
                match node_parent n with
                | VNone => Done path' h
                | parent => path_loop fuel' h parent path'
                end in
              match n with
              | ElementNode elem _ _ _ _ _ _ _ =>
                  match elem with
                  | VElement e => up (path ++ [tag e])
                  | _ => Fail (AttributeError "tag") h
                  end
              | _ => up path
              end
          | None => Fail (AttributeError "parent") h
          end
      | _ => Fail (AttributeError "parent") h
      end
  end.

(** The tags as strings; a comment or a processing instruction has a
    function as tag, which [str.join] refuses. *)
Fixpoint tag_names (l : list Tag) : option (list string) :=
  match l with
  | [] => Some []
  | TagName s :: l' => option_map (cons s) (tag_names l')
  | _ :: _ => None
  end.

(** [ElementNode.path] of the element node at [addr] *)
Definition ElementNode_path (fuel : nat) (addr : nat) (h : Heap) : Res string :=
  match path_loop fuel h (VNode addr) [] with
  | Done path h' =>
      match tag_names (rev path) with
      | Some names => Done ("/" ++ Str.join "/" names)%string h'
      | None => Fail (TypeError "sequence item: expected str instance") h'
      end
  | Fail e h' => Fail e h'
  | OutOfFuel => OutOfFuel
  end.

Definition element_at (h : Heap) (addr : nat) : Prop :=
  exists elem parent position xsd_type nsmap ns ats children,
    nth_error h addr
    = Some (ElementNode elem parent position xsd_type nsmap ns ats children).

Definition document_at (h : Heap) (addr : nat) : Prop :=
  exists document position children,
    nth_error h addr = Some (DocumentNode document position children).

(** What a call leaves in the heap. *)
Definition heap_of {A : Type} (r : Res A) (otherwise : Heap) : Heap :=
  match r with
  | Done _ h => h
  | Fail _ h => h
  | OutOfFuel => otherwise
  end.

(** *** A document with the element A, its children B, which holds a
    text, and a comment, and the namespace node that A has built *)

Definition named (s : string) (kids : list Element) : Element :=
  mkElement (TagName s) [] None None None kids.

Definition family : Element :=
  named "A" [named "B" []; mkElement TagComment [] (Some "note") None None []].

Definition family_heap : Heap :=
  [DocumentNode (VDocument family) (VInt 1) [1];
   ElementNode (VElement family) (VNode 0) (VInt 2) VNone [] (Some [5]) None
               [2; 4];
   ElementNode (VElement (named "B" [])) (VNode 1) (VInt 4) VNone [] None None
               [3];
   TextNode (VStr "text") (VNode 2) (VInt 5);
   CommentNode (VElement (mkElement TagComment [] (Some "note") None None []))
               (VNode 1) (VInt 6);
   NamespaceNode (VStr "xml") (VStr XML_NAMESPACE) (VNode 1) (VInt 3)].

Definition family_tree : list Tree := [T 1 [T 2 [T 3 []]; T 4 []]].

End Nodes.

(* ================================================================== *)
(** * xpath_context.py *)
(* ================================================================== *)

Module Context.

Import Nodes.
Local Open Scope list_scope.

(** ** Helpers of the package that the module imports

    Modelled from the spec: [is_etree_element], [is_document_node],
    [etree_iter_root] and [AnyAtomicType] are imported from modules of the
    package that are not part of src/ (etree, datatypes; xpath_nodes in
    src/ does not define the predicates the import names).  The spec's data
    model separates the caller's backing elements and documents from the
    nodes and from the atomic values; the definitions below follow that
    separation and nothing else. *)

(** Modelled from the spec: a backing element of the caller's tree,
    comments and processing instructions included. *)
Definition is_etree_element (v : Val) : bool :=
  match v with
  | VElement _ => true
  | _ => false
  end.

(** Modelled from the spec: a backing document of the caller. *)
Definition is_document_node (v : Val) : bool :=
  match v with
  | VDocument _ => true
  | _ => false
  end.

(** Modelled from the spec: the top level siblings of a root; a tree of
    the standard library has the root alone. *)
Definition etree_iter_root (v : Val) : list Val := [v].

(** Modelled from the spec: the atomic values. *)
Definition is_atomic (v : Val) : bool :=
  match v with
  | VInt _ | VStr _ | VBool _ => true
  | _ => false
  end.

(** ** The context

    The focus fields, and what [get_parent] answers for a backing element:
    [raw_parent] stands for the lookup in [parent_map] followed by the
    fallback on [getparent()], and is [VNone] when both give nothing.  How
    the map is filled is outside the model. *)
Record XPathContext : Type := mkContext {
  root : Val;
  item : Val;
  position : Z;
  size : Z;
  axis : option string;
  raw_parent : Element -> Val
}.

Definition set_item (c : XPathContext) (v : Val) : XPathContext :=
  mkContext (root c) v (position c) (size c) (axis c) (raw_parent c).

Definition set_axis (c : XPathContext) (a : option string) : XPathContext :=
  mkContext (root c) (item c) (position c) (size c) a (raw_parent c).

(** The four fields of the focus. *)
Definition focus (c : XPathContext) : Val * Z * Z * option string :=
  (item c, position c, size c, axis c).

(** ** _build_nodes

    The walk keeps the iterator over the pending siblings, the current
    parent and the two stacks ([iterators], [ancestors]; the head of the
    list is the top).  The constructors are called as the source calls
    them, [self] first: with the signatures of xpath_nodes.py the context
    lands on the first parameter, the element on [parent] and the parent
    node on [position]. *)

(** [ElementNode(self, elem, parent)] *)
Definition new_element (elem : Element) (parent : nat) : Node :=
  ElementNode_init VContext (VElement elem) (VNode parent) None VNone.

(** [ElementNode(self, root)] *)
Definition new_root_element (elem : Element) : Node :=
  ElementNode_init VContext (VElement elem) (VInt 1) None VNone.

(** [CommentNode(self, elem, parent)] *)
Definition new_comment (elem : Element) (parent : nat) : Node :=
  CommentNode VContext (VElement elem) (VNode parent).

(** [ProcessingInstructionNode(self, elem, parent)] *)
Definition new_pi (elem : Element) (parent : nat) : Node :=
  ProcessingInstructionNode VContext (VElement elem) (VNode parent).

(** [DocumentNode(self, document)] *)
Definition new_document (document : Element) : Node :=
  DocumentNode_init VContext (VDocument document).

(** The node built for one element of the caller's tree. *)
Definition new_child (elem : Element) (parent : nat) : Node :=
  match tag elem with
  | TagName _ => new_element elem parent
  | TagComment => new_comment elem parent
  | TagPI => new_pi elem parent
  end.

Definition bind {A B : Type} (m : Res A) (k : A -> Heap -> Res B) : Res B :=
  match m with
  | Done a h => k a h
  | Fail e h => Fail e h
  | OutOfFuel => OutOfFuel
  end.

(** The [while True] loop of [_build_nodes]. *)
Fixpoint build_loop (fuel : nat) (root_node : nat)
    (children : list Element) (parent : nat)
    (iterators : list (list Element)) (ancestors : list nat)
    (h : Heap) : Res nat :=
  match fuel with
  | O => OutOfFuel
  | S fuel' =>
      match children with
      | [] =>
          match iterators, ancestors with
          | it :: iterators', a :: ancestors' =>
              build_loop fuel' root_node it a iterators' ancestors' h
          | _, _ => Done root_node h
          end
      | elem :: rest =>
          let (child, h) := alloc (new_child elem parent) h in
          bind (append_child parent child h) (fun _ h =>
          match tail elem with
          | Some _ =>
              (* TextNode(self, elem.tail, parent, tail=True) *)
              Fail (TypeError "unexpected keyword argument tail") h
          | None =>
              match elem_children elem with
              | [] =>
                  build_loop fuel' root_node rest parent iterators ancestors h
              | kids =>
                  build_loop fuel' root_node kids child
                             (rest :: iterators) (parent :: ancestors) h
              end
          end)
      end
  end.

Fixpoint element_size (e : Element) : nat :=
  match e with
  | mkElement _ _ _ _ _ kids =>
      S ((fix sum (l : list Element) : nat :=
            match l with
            | [] => 0
            | x :: l' => element_size x + sum l'
            end) kids)
  end.

(** [XPathContext._build_nodes] *)
Definition _build_nodes (root : Val) (h : Heap) : Res nat :=
  match root with
  | VDocument _root =>
      let (root_node, h) := alloc (new_document _root) h in
      match tag _root with
      | TagName _ =>
          let (child, h) := alloc (new_element _root root_node) h in
          bind (append_child root_node child h) (fun _ h =>
          build_loop (2 * element_size _root + 1) root_node
                     (elem_children _root) child [] [] h)
      | _ =>
          let (child, h) := alloc (new_child _root root_node) h in
          bind (append_child root_node child h) (fun _ h =>
          (* parent = child, with [child] never assigned *)
          Fail (NameError "child") h)
      end
  | VElement e =>
      let (root_node, h) := alloc (new_root_element e) h in
      build_loop (2 * element_size e + 1) root_node
                 (elem_children e) root_node [] [] h
  | _ => Fail (TypeError "object is not iterable") h
  end.

(** The positions of the root node and of its children, in order. *)
Definition root_and_children_positions (root : Val)
    : option (Val * list (option Val)) :=
  match _build_nodes root [] with
  | Done r h =>
      match nth_error h r with
      | Some (ElementNode _ _ pos _ _ _ _ kids) => Some (pos, positions h kids)
      | Some (DocumentNode _ pos kids) => Some (pos, positions h kids)
      | _ => None
      end
  | _ => None
  end.

(** ** The axis iterators

    A generator is run to its end by a consumer that leaves the context
    alone: [trace] holds the context as it is at each [yield] (the item
    yielded is its [item]), followed by the context and the heap the
    generator leaves. *)
Inductive Gen : Type :=
| Exhausted (trace : list XPathContext) (c : XPathContext) (h : Heap)
| Broken (e : Error) (trace : list XPathContext) (c : XPathContext) (h : Heap)
| Diverged.

Definition yielded (g : Gen) : list Val :=
  match g with
  | Exhausted trace _ _ => map item trace
  | Broken _ trace _ _ => map item trace
  | Diverged => []
  end.

Definition left_behind (g : Gen) : option XPathContext :=
  match g with
  | Exhausted _ c _ => Some c
  | Broken _ _ c _ => Some c
  | Diverged => None
  end.

Definition node_at (h : Heap) (v : Val) : option Node :=
  match v with
  | VNode a => nth_error h a
  | _ => None
  end.

(** [XPathContext.get_parent] *)
Definition get_parent (c : XPathContext) (h : Heap) (elem : Val) : Val :=
  match elem with
  | VNode a =>
      match nth_error h a with
      | Some n => node_parent n
      | None => VNone
      end
  | VElement e => raw_parent c e
  | _ => VNone
  end.

(** [for self.item in items: yield self.item] *)
Definition yield_each (c : XPathContext) (items : list Val)
    : list XPathContext * XPathContext :=
  fold_left (fun acc v => (fst acc ++ [set_item (snd acc) v],
                           set_item (snd acc) v))
            items ([], c).

(** [iter_self] *)
Definition iter_self (c : XPathContext) (h : Heap) : Gen :=
  let status := axis c in
  let c := set_axis c (Some "self") in
  Exhausted [c] (set_axis c status) h.

(** [parent.tag] for the parent of a text node: an attribute of a backing
    element and of no node class. *)
Definition tag_of (v : Val) : option Tag :=
  match v with
  | VElement e => Some (tag e)
  | _ => None
  end.

(** The parent [iter_parent] and [iter_ancestors] start from; [None] when
    the axis does not apply and the generator returns at once.  An element
    node is asked for its [context], an attribute that the classes of
    xpath_nodes.py do not have (their slots are closed); the parent of a
    text node is asked for [tag], and the text node for [is_tail]. *)
Definition first_parent (for_ancestors : bool) (c : XPathContext) (h : Heap)
    : Fallible Error (option Val) :=
  match item c with
  | VNode a =>
      match nth_error h a with
      | Some (ElementNode _ _ _ _ _ _ _ _) => Raise (AttributeError "context")
      | Some (TextNode _ parent _) =>
          match parent with
          | VNone => Return (Some VNone)
          | _ =>
              match tag_of parent with
              | None => Raise (AttributeError "tag")
              | Some t =>
                  if callable t then Return (Some (get_parent c h parent))
                  else Raise (AttributeError "is_tail")
              end
          end
      | Some n => Return (Some (node_parent n))
      | None => Return None
      end
  | VElement e => Return (Some (raw_parent c e))
  | VDocument _ => Return (if for_ancestors then Some VNone else None)
  | _ => Return None
  end.

(** [iter_parent] *)
Definition iter_parent (c : XPathContext) (h : Heap) : Gen :=
  match first_parent false c h with
  | Raise e => Broken e [] c h
  | Return None => Exhausted [] c h
  | Return (Some VNone) => Exhausted [] c h
  | Return (Some parent) =>
      let status := (item c, axis c) in
      let c := set_axis c (Some "parent") in
      let c := set_item c parent in
      Exhausted [c] (set_axis (set_item c (fst status)) (snd status)) h
  end.

(** [while parent is not None: ancestors.append(parent);
    parent = self.get_parent(parent)] *)
Fixpoint collect_parents (fuel : nat) (c : XPathContext) (h : Heap)
    (parent : Val) : option (list Val) :=
  match parent with
  | VNone => Some []
  | _ =>
      match fuel with
      | O => None
      | S fuel' =>
          option_map (cons parent)
                     (collect_parents fuel' c h (get_parent c h parent))
      end
  end.

(** [iter_ancestors] *)
Definition iter_ancestors (fuel : nat) (axis_ : option string)
    (c : XPathContext) (h : Heap) : Gen :=
  match first_parent true c h with
  | Raise e => Broken e [] c h
  | Return None => Exhausted [] c h
  | Return (Some parent) =>
      let status := (item c, axis c) in
      (* axis or 'ancestor' *)
      let c1 := set_axis c (Some (match axis_ with
                                  | Some EmptyString => "ancestor"%string
                                  | Some a => a
                                  | None => "ancestor"%string
                                  end)) in
      let self_ :=
        match axis_ with
        | Some a => if String.eqb a "ancestor-or-self" then [item c] else []
        | None => []
        end in
      match collect_parents fuel c1 h parent with
      | None => Diverged
      | Some parents =>
          let ancestors := self_ ++ parents in
          let (trace, c2) := yield_each c1 (rev ancestors) in
          Exhausted trace (set_axis (set_item c2 (fst status)) (snd status)) h
      end
  end.

(** [TextNode(self, elem.text, elem)] *)
Definition new_text (text : string) (elem : Element) : Node :=
  TextNode VContext (VStr text) (VElement elem).

(** The loop over the children of a backing element in
    [iter_children_or_self]; a child with a tail stops it, on
    [TextNode(self, child.tail, child, True)]. *)
Fixpoint yield_children (c : XPathContext) (kids : list Element)
    (trace : list XPathContext)
    : list XPathContext * XPathContext * option Error :=
  match kids with
  | [] => (trace, c, None)
  | child :: kids' =>
      let c := set_item c (VElement child) in
      match tail child with
      | Some _ =>
          (trace ++ [c], c,
           Some (TypeError "takes from 2 to 4 positional arguments"))
      | None => yield_children c kids' (trace ++ [c])
      end
  end.

Definition document_children (h : Heap) (v : Val) : option (list Val) :=
  match node_at h v with
  | Some (DocumentNode _ _ kids) => Some (map VNode kids)
  | _ => None
  end.

(** [iter_children_or_self] *)
Definition iter_children_or_self (c : XPathContext) (h : Heap) : Gen :=
  match axis c with
  | Some _ => Exhausted [c] c h
  | None =>
      let status := (item c, axis c) in
      let restore c := set_axis (set_item c (fst status)) (snd status) in
      let c := set_axis c (Some "child") in
      match node_at h (item c) with
      | Some (ElementNode _ _ _ _ _ _ _ _) =>
          Broken (AttributeError "context") [] c h
      | _ =>
          match item c with
          | VNone =>
              match document_children h (root c) with
              | Some kids =>
                  let (trace, c) := yield_each c kids in
                  Exhausted trace (restore c) h
              | None =>
                  let top :=
                    match root c with
                    | VDocument r => VElement r
                    | r => r
                    end in
                  let (trace, c) := yield_each c (etree_iter_root top) in
                  Exhausted trace (restore c) h
              end
          | VElement elem =>
              if callable (tag elem) then
                (* return *)
                Exhausted [] c h
              else
                let '(trace, c, h) :=
                  match text elem with
                  | Some t =>
                      let (a, h) := alloc (new_text t elem) h in
                      let c := set_item c (VNode a) in
                      ([c], c, h)
                  | None => ([], c, h)
                  end in
                match yield_children c (elem_children elem) trace with
                | (trace, c, Some e) => Broken e trace c h
                | (trace, c, None) => Exhausted trace (restore c) h
                end
          | _ =>
              match document_children h (root c) with
              | Some kids =>
                  let (trace, c) := yield_each c kids in
                  Exhausted trace (restore c) h
              | None =>
                  match item c with
                  | VDocument r =>
                      let (trace, c) :=
                        yield_each c (etree_iter_root (VElement r)) in
                      Exhausted trace (restore c) h
                  | _ => Exhausted [] (restore c) h
                  end
              end
          end
      end
  end.

(** ** Examples *)

Definition leaf (name : string) : Element :=
  mkElement (TagName name) [] None None None [].

(** The tree of the document with the root A and the empty children B1
    and B2. *)
Definition tree_A : Element :=
  mkElement (TagName "A") [] None None None [leaf "B1"; leaf "B2"].

Definition a_comment : Element :=
  mkElement TagComment [] (Some "note") None None [].

(** Three nodes made with the constructors of xpath_nodes.py: the element
    A at position 1, its child B at position 2, and a comment in B at
    position 3. *)
Definition chain_heap : Heap :=
  [ElementNode_init (VElement (leaf "A")) VNone (VInt 1) None VNone;
   ElementNode_init (VElement (leaf "B")) (VNode 0) (VInt 2) None VNone;
   CommentNode (VElement a_comment) (VNode 1) (VInt 3)].

Definition no_raw_parent : Element -> Val := fun _ => VNone.

(** A context on [chain_heap] whose item is the comment. *)
Definition on_comment : XPathContext :=
  mkContext (VNode 0) (VNode 2) 1 1 None no_raw_parent.

(** A context whose item is a backing comment element, no axis active. *)
Definition on_raw_comment : XPathContext :=
  mkContext (VNode 0) (VElement a_comment) 1 1 None no_raw_parent.



(** A context whose item is the backing element A of [tree_A], no axis
    active. *)
Definition on_A : XPathContext :=
  mkContext (VElement tree_A) (VElement tree_A) 1 1 None no_raw_parent.

(** ** inner_focus_select *)

Definition set_position (c : XPathContext) (p : Z) : XPathContext :=
  mkContext (root c) (item c) p (size c) (axis c) (raw_parent c).

Definition set_size (c : XPathContext) (s : Z) : XPathContext :=
  mkContext (root c) (item c) (position c) s (axis c) (raw_parent c).

(** [for self.position, self.item in enumerate(results, start): yield
    self.item] *)
Fixpoint yield_forward (c : XPathContext) (start : Z) (results : list Val)
    : list XPathContext * XPathContext :=
  match results with
  | [] => ([], c)
  | x :: rest =>
      let c := set_item (set_position c start) x in
      let (trace, c') := yield_forward c (start + 1) rest in
      (c :: trace, c')
  end.

(** [for self.item in results: yield self.item; self.position -= 1] *)
Fixpoint yield_backward (c : XPathContext) (results : list Val)
    : list XPathContext * XPathContext :=
  match results with
  | [] => ([], c)
  | x :: rest =>
      let c := set_item c x in
      let (trace, c') :=
        yield_backward (set_position c (position c - 1)) rest in
      (c :: trace, c')
  end.

(** [inner_focus_select], from the statement after the selection:
    [results] is what [token.select] gives on the copy of the context,
    which leaves the context itself alone, and [reverse_axis] stands for
    [token.label == 'axis' and token.reverse_axis]. *)
Definition inner_focus_select (reverse_axis : bool) (results : list Val)
    (c : XPathContext) : list XPathContext * XPathContext :=
  let status := (item c, size c, position c, axis c) in
  let c := set_axis c None in
  let n := Z.of_nat (List.length results) in
  let (trace, c) :=
    if reverse_axis then
      yield_backward (set_position (set_size c n) n) results
    else
      yield_forward (set_size c n) 1 results in
  (trace,
   mkContext (root c) (fst (fst (fst status))) (snd (fst status))
             (snd (fst (fst status))) (snd status) (raw_parent c)).

(** The items with their index, from [start]. *)
Fixpoint numbered (start : Z) (results : list Val) : list (Z * Val) :=
  match results with
  | [] => []
  | x :: rest => (start, x) :: numbered (start + 1) rest
  end.

(** ** The trees that _build_nodes takes *)

(** The elements that [_build_nodes] takes below the root: none has a
    tail, and a comment or a processing instruction has no children, as
    in a tree of ElementTree. *)
Fixpoint buildable (e : Element) : bool :=
  match e with
  | mkElement t _ _ tl _ kids =>
      match tl with Some _ => false | None => true end
      && (negb (callable t) || match kids with [] => true | _ => false end)
      && (fix all (l : list Element) : bool :=
            match l with
            | [] => true
            | x :: l' => buildable x && all l'
            end) kids
  end.

Definition elements_size (l : list Element) : nat :=
  list_sum (map element_size l).

(** The node at [a] has a list of children. *)
Definition has_children (h : Heap) (a : nat) : Prop :=
  match nth_error h a with
  | Some (ElementNode _ _ _ _ _ _ _ _) => True
  | Some (DocumentNode _ _ _) => True
  | _ => False
  end.

Definition pending_size (iterators : list (list Element)) : nat :=
  list_sum (map elements_size iterators).

(** What the iterators set aside cost the loop: a step to take each one
    up again, and two for each element. *)
Definition pending_cost (iterators : list (list Element)) : nat :=
  list_sum (map (fun it => S (2 * elements_size it)) iterators).

(** ** iter_descendants

    [unwrapped] stands for [is_element_node(item) or
    is_document_node(item)], two helpers that the module imports from
    xpath_nodes.py and that are not defined there; the test is reached for
    an item that is neither an element node, nor a document node, nor
    [None].  What the branch prints is left out. *)
Definition iter_descendants (unwrapped : Val -> bool) (fuel : nat)
    (axis_ : option string) (inner_focus : bool) (c : XPathContext)
    (h : Heap) : Gen :=
  let with_self :=
    negb (match axis_ with
          | Some a => String.eqb a "descendant"
          | None => false
          end) in
  let run (descendants : list Val) : Gen :=
    if inner_focus then
      let c1 := set_size (set_axis c axis_)
                         (Z.of_nat (List.length descendants)) in
      let (trace, c2) := yield_forward c1 1 descendants in
      Exhausted trace
        (mkContext (root c2) (item c) (position c) (size c) (axis c)
                   (raw_parent c2)) h
    else
      let (trace, c2) := yield_each (set_axis c axis_) descendants in
      Exhausted trace (set_axis (set_item c2 (item c)) (axis c)) h in
  let from_node (a : nat) : Gen :=
    match Nodes.iter_descendants fuel with_self a h with
    | Done l _ => run (map VNode l)
    | Fail e _ => Broken e [] c h
    | OutOfFuel => Diverged
    end in
  let otherwise (is_node : bool) : Gen :=
    if unwrapped (item c) then
      (* print(...); raise RuntimeError() *)
      Broken RuntimeError [] c h
    else if with_self && is_node then run [item c]
    else Exhausted [] c h in
  match item c with
  | VNode a =>
      match nth_error h a with
      | Some (ElementNode _ _ _ _ _ _ _ _) => from_node a
      | Some (DocumentNode _ _ _) => from_node a
      | Some _ => otherwise true
      | None => otherwise false
      end
  | VNone =>
      match node_at h (root c) with
      | Some (DocumentNode _ _ _) =>
          (* self.root.iter(with_self) *)
          Broken (TypeError "iter() takes 1 positional argument") [] c h
      | _ =>
          (* self.root.iter_descendats() *)
          Broken (AttributeError "iter_descendats") [] c h
      end
  | _ => otherwise false
  end.

(** A context on [family_heap] whose item is the document node. *)
Definition on_family : XPathContext :=
  mkContext (VNode 0) (VNode 0) 1 1 None no_raw_parent.

End Context.

(* ================================================================== *)
(** * xpath_token.py *)
(* ================================================================== *)

Module XToken.

Import Nodes.
Import Context.
Local Open Scope list_scope.

(** What [evaluate] returns: a list of items or one value ([VNone] for
    [None]). *)
Inductive Py : Type :=
| PList (items : list Val)
| PVal (v : Val).

(** What a run of [select] to its end gives: the items yielded, each with
    the context as it is at that [yield], and the context left behind.
    The context argument is optional ([context=None]). *)
Definition Selection : Type :=
  list (Val * option XPathContext) * option XPathContext.

(** A token class overrides [evaluate], [select], both or none. *)
Record XPathToken : Type := mkXPathToken {
  own_evaluate : option (option XPathContext -> Py * option XPathContext);
  own_select : option (option XPathContext -> Selection)
}.

(** [XPathToken.evaluate] and [XPathToken.select], dispatched on the
    class.  The two defaults call each other; [depth] is what is left of
    the interpreter's recursion limit, and [None] its RecursionError. *)
Fixpoint evaluate (depth : nat) (t : XPathToken) (context : option XPathContext)
    : option (Py * option XPathContext) :=
  match own_evaluate t with
  | Some f => Some (f context)
  | None =>
      match depth with
      | O => None
      | S d =>
          match select d t context with
          | Some (yields, context') => Some (PList (map fst yields), context')
          | None => None
          end
      end
  end

with select (depth : nat) (t : XPathToken) (context : option XPathContext)
    : option Selection :=
  match own_select t with
  | Some g => Some (g context)
  | None =>
      match depth with
      | O => None
      | S d =>
          match evaluate d t context with
          | None => None
          | Some (PVal VNone, context') => Some ([], context')
          | Some (PList items, context') =>
              Some (map (fun x => (x, context')) items, context')
          | Some (PVal item_, context') =>
              let context'' := option_map (fun c => set_item c item_) context' in
              Some ([(item_, context'')], context'')
          end
      end
  end.

(** A token whose [evaluate] returns the string [abc] and leaves the
    context alone. *)
Definition string_token : XPathToken :=
  mkXPathToken (Some (fun context => (PVal (VStr "abc"), context))) None.

(** A token whose [select] yields 1 and 2 and leaves the context alone. *)
Definition pair_token : XPathToken :=
  mkXPathToken None
    (Some (fun context => ([(VInt 1, context); (VInt 2, context)], context))).

(** A token of a class that overrides neither method, as [XPathToken]
    itself. *)
Definition bare_token : XPathToken := mkXPathToken None None.

(** ** ordinal *)

(** [ordinal(n)] for an integer *)
Definition ordinal (n : Z) : string :=
  if (n =? 11)%Z || (n =? 12)%Z || (n =? 13)%Z then
    (Str.of_Z n ++ "th")%string
  else
    let least_significant_digit := (n mod 10)%Z in
    if (least_significant_digit =? 1)%Z then (Str.of_Z n ++ "st")%string
    else if (least_significant_digit =? 2)%Z then (Str.of_Z n ++ "nd")%string
    else if (least_significant_digit =? 3)%Z then (Str.of_Z n ++ "rd")%string
    else (Str.of_Z n ++ "th")%string.

End XToken.

(* ================================================================== *)
(** * Facts: strings *)
(* ================================================================== *)

Module StrFacts.

Lemma lstrip_head (f : ascii -> bool) (s : string) (c : ascii) :
  Str.head (Str.lstrip_by f s) = Some c -> f c = false.
Proof.
  unfold Str.lstrip_by. induction s as [|a s IH]; cbn.
  - discriminate.
  - destruct (f a) eqn:E; cbn.
    + exact IH.
    + intros H. inversion H. subst. exact E.
Qed.

Lemma last_some (b : ascii) (s : string) :
  exists c, Str.last (String b s) = Some c.
Proof.
  revert b. induction s as [|x s IH]; intros b.
  - exists b. reflexivity.
  - destruct (IH x) as [c Hc]. exists c. exact Hc.
Qed.

Lemma head_rev_onto (s acc : string) :
  Str.head (Str.rev_onto s acc) =
  match Str.last s with Some c => Some c | None => Str.head acc end.
Proof.
  revert acc. induction s as [|a s IH]; intros acc; cbn [Str.rev_onto].
  - reflexivity.
  - rewrite IH. destruct s as [|b s]; [reflexivity|].
    destruct (last_some b s) as [c Hc].
    change (Str.last (String a (String b s))) with (Str.last (String b s)).
    rewrite Hc. reflexivity.
Qed.

Lemma last_rev_onto (s acc : string) :
  Str.last (Str.rev_onto s acc) =
  match Str.last acc with Some c => Some c | None => Str.head s end.
Proof.
  revert acc. induction s as [|a s IH]; intros acc; cbn [Str.rev_onto].
  - destruct (Str.last acc); reflexivity.
  - rewrite IH. cbn [Str.last Str.head]. destruct acc as [|b acc].
    + reflexivity.
    + destruct (last_some b acc) as [c Hc].
      change (Str.last (String a (String b acc)))
        with (Str.last (String b acc)).
      rewrite Hc. reflexivity.
Qed.

Lemma last_drop (k : nat) (s : string) :
  Str.drop k s <> "" -> Str.last (Str.drop k s) = Str.last s.
Proof.
  revert s. induction k as [|k IH]; intros s H; cbn [Str.drop] in *.
  - reflexivity.
  - destruct s as [|a s]; [reflexivity|].
    rewrite (IH s H). cbn [Str.last].
    destruct s; [|reflexivity]. destruct k; cbn in H; contradiction.
Qed.

(** What [strip] returns does not begin with a blank. *)
Lemma strip_head (s : string) (c : ascii) :
  Str.head (Str.strip s) = Some c -> Str.is_space c = false.
Proof.
  unfold Str.strip, Str.strip_by, Str.rev. intros H.
  rewrite head_rev_onto in H. cbn [Str.head] in H.
  set (t := Str.lstrip_by Str.is_space s) in *.
  set (u := Str.rev_onto t "") in *.
  unfold Str.lstrip_by in H.
  destruct (Str.last (Str.drop (Str.span Str.is_space u) u)) eqn:E;
    [|discriminate].
  inversion H; subst a. clear H.
  assert (Hn : Str.drop (Str.span Str.is_space u) u <> "").
  { intros Hx. rewrite Hx in E. discriminate. }
  rewrite (last_drop _ _ Hn) in E. unfold u in E.
  rewrite last_rev_onto in E. cbn [Str.last] in E.
  exact (lstrip_head _ _ _ E).
Qed.

Lemma append_empty (s : string) : (s ++ "")%string = s.
Proof. induction s as [|a s IH]; cbn; [reflexivity|rewrite IH; reflexivity]. Qed.

Lemma mem_append (c : ascii) (s t : string) :
  Str.mem c (s ++ t) = Str.mem c s || Str.mem c t.
Proof.
  induction s as [|a s IH]; cbn; [reflexivity|].
  rewrite IH. apply orb_assoc.
Qed.

Lemma strip_prefix_mem (c : ascii) (p s r : string) :
  Str.strip_prefix p s = Some r -> Str.mem c r = true -> Str.mem c s = true.
Proof.
  revert s. induction p as [|a p IH]; intros s; cbn.
  - intros H. inversion H. auto.
  - destruct s as [|b s]; [discriminate|].
    destruct (Ascii.eqb a b); [|discriminate].
    intros H Hr. cbn. rewrite (IH _ H Hr). apply orb_true_r.
Qed.

Lemma drop_mem (c : ascii) (k : nat) (s : string) :
  Str.mem c (Str.drop k s) = true -> Str.mem c s = true.
Proof.
  revert s. induction k as [|k IH]; intros s; cbn; [auto|].
  destruct s as [|b s]; [auto|]. intros H. cbn.
  rewrite (IH _ H). apply orb_true_r.
Qed.

Lemma strip_prefix_length (p s r : string) :
  Str.strip_prefix p s = Some r -> String.length s = String.length p + String.length r.
Proof.
  revert s. induction p as [|a p IH]; intros s; cbn.
  - intros H. inversion H. reflexivity.
  - destruct s as [|b s]; [discriminate|].
    destruct (Ascii.eqb a b); [|discriminate].
    intros H. cbn. f_equal. apply IH. exact H.
Qed.

End StrFacts.

(* ================================================================== *)
(** * Facts: the tokenizer *)
(* ================================================================== *)

Module TokenizerFacts.

Import Tdop.
Local Open Scope list_scope.

(** ** The sort *)

Lemma insert_by_len_in (x s : string) (l : list string) :
  In x (insert_by_len s l) <-> x = s \/ In x l.
Proof.
  induction l as [|y l IH]; cbn.
  - intuition congruence.
  - destruct (Nat.leb (String.length y) (String.length s)); cbn.
    + intuition congruence.
    + rewrite IH. intuition congruence.
Qed.

Lemma sorted_by_len_in (x : string) (l : list string) :
  In x (sorted_by_len l) <-> In x l.
Proof.
  induction l as [|y l IH]; cbn; [reflexivity|].
  rewrite insert_by_len_in, IH. intuition congruence.
Qed.

Lemma multi_char_length (s : string) :
  multi_char s = true <-> 2 <= String.length s.
Proof.
  unfold multi_char. rewrite Nat.ltb_lt. lia.
Qed.

Lemma insert_short (s : string) (b : list string) :
  Forall (fun s => multi_char s = false) b ->
  multi_char s = false ->
  Forall (fun s => multi_char s = false) (insert_by_len s b).
Proof.
  intros Hb Hs. apply Forall_forall. intros x Hx.
  apply insert_by_len_in in Hx. destruct Hx as [->|Hx]; [exact Hs|].
  rewrite Forall_forall in Hb. auto.
Qed.

Lemma insert_partitioned (s : string) (l : list string) :
  partitioned l -> partitioned (insert_by_len s l).
Proof.
  intros (a & b & -> & Ha & Hb).
  induction a as [|x a IH]; cbn [app].
  - destruct (multi_char s) eqn:Es.
    + exists [s], b. repeat split; [|constructor; [exact Es|constructor]|exact Hb].
      destruct b as [|y b]; [reflexivity|]. cbn.
      inversion Hb as [|? ? Hy ?]; subst.
      apply multi_char_length in Es.
      assert (String.length y <= 1).
      { unfold multi_char in Hy. apply Nat.ltb_ge in Hy. lia. }
      destruct (Nat.leb_spec (String.length y) (String.length s));
        [reflexivity|lia].
    + exists [], (insert_by_len s b). repeat split; [constructor|].
      apply insert_short; assumption.
  - inversion Ha as [|? ? Hx Ha']; subst. cbn.
    destruct (Nat.leb_spec (String.length x) (String.length s)).
    + exists (s :: x :: a), b. repeat split; [|exact Hb].
      constructor; [|exact Ha].
      apply multi_char_length. apply multi_char_length in Hx. lia.
    + destruct (IH Ha') as (a' & b' & E & Ha'' & Hb'').
      exists (x :: a'), b'. repeat split; [|constructor; assumption|exact Hb''].
      cbn. rewrite E. reflexivity.
Qed.

Lemma sorted_partitioned (l : list string) : partitioned (sorted_by_len l).
Proof.
  induction l as [|x l IH]; cbn.
  - exists [], []. repeat split; constructor.
  - apply insert_partitioned. exact IH.
Qed.

Lemma filter_all {A : Type} (f : A -> bool) (l : list A) :
  Forall (fun x => f x = true) l -> filter f l = l.
Proof.
  induction 1 as [|x l Hx _ IH]; cbn; [reflexivity|].
  rewrite Hx, IH. reflexivity.
Qed.

Lemma filter_none {A : Type} (f : A -> bool) (l : list A) :
  Forall (fun x => f x = false) l -> filter f l = [].
Proof.
  induction 1 as [|x l Hx _ IH]; cbn; [reflexivity|].
  rewrite Hx, IH. reflexivity.
Qed.

Lemma concat_nonempty (b : list string) (s : string) :
  In s b -> s <> EmptyString -> String.concat EmptyString b <> EmptyString.
Proof.
  induction b as [|x b IH]; intros Hs Hn; [contradiction|].
  cbn [String.concat]. destruct b as [|y b].
  - destruct Hs as [->|[]]. exact Hn.
  - cbn [String.append]. destruct Hs as [->|Hs].
    + destruct s; [contradiction|discriminate].
    + destruct x; [|discriminate]. cbn [String.append].
      apply IH; assumption.
Qed.

(** With a one-character symbol among them the symbols compile. *)
Lemma create_tokenizer_compiles (symbols : list string) (s : string) :
  In s (stripped_symbols symbols) -> multi_char s = false ->
  exists tk, create_tokenizer symbols = Return tk.
Proof.
  intros Hs Hm. unfold create_tokenizer.
  destruct (sorted_partitioned (stripped_symbols symbols))
    as (a & b & E & Ha & Hb).
  assert (Hin : In s (a ++ b)).
  { rewrite <- E. apply sorted_by_len_in. exact Hs. }
  rewrite E.
  assert (Hf : List.length (filter multi_char (a ++ b)) = List.length a).
  { rewrite filter_app, (filter_all _ _ Ha), (filter_none _ _ Hb), app_nil_r.
    reflexivity. }
  rewrite Hf.
  rewrite skipn_app, Nat.sub_diag, skipn_all, skipn_O. cbn [app].
  apply in_app_or in Hin. destruct Hin as [Hin|Hin].
  { rewrite Forall_forall in Ha. rewrite (Ha _ Hin) in Hm. discriminate. }
  assert (Hn : s <> EmptyString).
  { unfold stripped_symbols in Hs. apply filter_In in Hs.
    destruct Hs as [_ Hs]. intros ->. discriminate. }
  pose proof (concat_nonempty b s Hin Hn) as Hc.
  destruct (String.concat EmptyString b); [congruence|eauto].
Qed.

(** What [create_tokenizer] compiles: the long symbols it has been given,
    in some order, and the class of the one-character ones. *)
Lemma create_tokenizer_inv (symbols : list string) (tk : Tokenizer) :
  create_tokenizer symbols = Return tk ->
  exists a b,
    multi tk = map symbol_escape a /\
    singles tk = String.concat "" b /\
    (forall s, In s a <->
               In s (stripped_symbols symbols) /\ multi_char s = true) /\
    (forall s, In s b <->
               In s (stripped_symbols symbols) /\ multi_char s = false).
Proof.
  unfold create_tokenizer.
  destruct (sorted_partitioned (stripped_symbols symbols))
    as (a & b & E & Ha & Hb).
  assert (Hin : forall s, In s (a ++ b) <-> In s (stripped_symbols symbols)).
  { intros s. rewrite <- E. apply sorted_by_len_in. }
  rewrite E.
  assert (Hf : List.length (filter multi_char (a ++ b)) = List.length a).
  { rewrite filter_app, (filter_all _ _ Ha), (filter_none _ _ Hb), app_nil_r.
    reflexivity. }
  rewrite Hf.
  rewrite firstn_app, Nat.sub_diag, firstn_all, firstn_O, app_nil_r.
  rewrite skipn_app, Nat.sub_diag, skipn_all, skipn_O. cbn [app].
  destruct (String.concat "" b) eqn:Ec; [discriminate|].
  intros H. inversion H; subst tk. cbn [multi singles].
  exists a, b.
  split; [reflexivity|]. split; [symmetry; exact Ec|].
  split; intros x; split.
  - intros Hx. split.
    + apply Hin. apply in_or_app. left. assumption.
    + rewrite Forall_forall in Ha. auto.
  - intros [Hs Hm]. apply Hin in Hs. apply in_app_or in Hs.
    destruct Hs as [Hs|Hs]; [exact Hs|].
    rewrite Forall_forall in Hb. rewrite (Hb _ Hs) in Hm. discriminate.
  - intros Hx. split.
    + apply Hin. apply in_or_app. right. assumption.
    + rewrite Forall_forall in Hb. auto.
  - intros [Hs Hm]. apply Hin in Hs. apply in_app_or in Hs.
    destruct Hs as [Hs|Hs]; [|exact Hs].
    rewrite Forall_forall in Ha. rewrite (Ha _ Hs) in Hm. discriminate.
Qed.

Lemma stripped_nonempty (symbols : list string) (s : string) :
  In s (stripped_symbols symbols) -> s <> "".
Proof.
  unfold stripped_symbols. intros H. apply filter_In in H.
  destruct H as [_ H]. intros ->. discriminate.
Qed.

Lemma stripped_head (symbols : list string) (s : string) (c : ascii) :
  In s (stripped_symbols symbols) -> Str.head s = Some c ->
  Str.is_space c = false.
Proof.
  unfold stripped_symbols. intros H. apply filter_In in H.
  destruct H as [H _]. apply in_map_iff in H. destruct H as (x & <- & _).
  apply StrFacts.strip_head.
Qed.

(** The class of the one-character symbols holds a character exactly when
    it is one of them. *)
Lemma mem_concat (c : ascii) (b : list string) :
  (forall s, In s b -> s <> "" /\ multi_char s = false) ->
  Str.mem c (String.concat "" b) = true <-> In (String c "") b.
Proof.
  intros Hb.
  assert (Hone : forall s, In s b -> exists d, s = String d "").
  { intros s Hs. destruct (Hb s Hs) as [Hn Hm].
    destruct s as [|d [|e s]]; [contradiction|eauto|discriminate]. }
  clear Hb. induction b as [|x b IH].
  - cbn. intuition discriminate.
  - assert (E : String.concat "" (x :: b) = (x ++ String.concat "" b)%string).
    { destruct b; cbn; [rewrite StrFacts.append_empty; reflexivity|reflexivity]. }
    rewrite E, StrFacts.mem_append.
    destruct (Hone x (or_introl eq_refl)) as [d ->].
    rewrite orb_true_iff, IH by (intros s Hs; apply Hone; right; exact Hs).
    cbn. rewrite orb_false_r. split.
    + intros [H|H]; [|auto]. left. apply Ascii.eqb_eq in H. congruence.
    + intros [H|H]; [|auto]. left. inversion H. apply Ascii.eqb_refl.
Qed.


(** ** Which symbol matches where *)

Lemma occurs_drop (s src : string) :
  occurs s src = false ->
  forall i, Str.strip_prefix s (Str.drop i src) = None.
Proof.
  induction src as [|c src IH]; intros H i.
  - cbn in H. destruct i; cbn; destruct (Str.strip_prefix s ""); congruence.
  - cbn [occurs] in H.
    destruct (Str.strip_prefix s (String c src)) eqn:E; [discriminate|].
    destruct i; cbn [Str.drop]; [exact E|]. apply IH. exact H.
Qed.

Lemma no_char_no_prefix (c : ascii) (p text rest : string) (k : nat) :
  Str.mem c text = false ->
  Str.strip_prefix (String c p) (Str.drop k text) = Some rest -> False.
Proof.
  intros Hm H.
  assert (Hd : Str.mem c (Str.drop k text) = true).
  { destruct (Str.drop k text) as [|d t]; cbn [Str.strip_prefix] in H;
      [discriminate|].
    destruct (Ascii.eqb c d) eqn:E; [|discriminate].
    cbn [Str.mem]. rewrite E. reflexivity. }
  apply StrFacts.drop_mem in Hd. congruence.
Qed.

Lemma no_char_rest (c : ascii) (p text rest : string) :
  Str.mem c text = false -> Str.strip_prefix p text = Some rest ->
  Str.mem c rest = false.
Proof.
  intros Hm H. destruct (Str.mem c rest) eqn:E; [|reflexivity].
  rewrite (StrFacts.strip_prefix_mem _ _ _ _ H E) in Hm. discriminate.
Qed.

(** On a text without parenthesis and colon an escaped symbol matches
    only as a prefix of the text, over its own length. *)
Lemma pattern_match_prefix (s : string) (prev : option ascii) (text : string)
    (n : nat) :
  Str.mem "(" text = false -> Str.mem ":" text = false ->
  pattern_match (symbol_escape s) prev text = Some n ->
  Str.strip_prefix s text <> None /\ n = String.length s.
Proof.
  intros Hp Hc. unfold symbol_escape.
  assert (Ho : pattern_match (if Str.isalpha s then WholeWord s else Verbatim s)
                 prev text = Some n ->
               Str.strip_prefix s text <> None /\ n = String.length s).
  { destruct (Str.isalpha s); cbn [pattern_match].
    - destruct (not_word_here prev); [|discriminate].
      destruct (Str.strip_prefix s text) as [rest|]; [|discriminate].
      destruct (not_word_here (Str.head rest)); [|discriminate].
      intros H. inversion H. split; congruence.
    - destruct (Str.strip_prefix s text) as [rest|]; [|discriminate].
      intros H. inversion H. split; congruence. }
  destruct (Str.unsnoc s) as [[pre c]|]; [|exact Ho].
  destruct (Ascii.eqb c "(").
  { cbn [pattern_match].
    destruct (Str.strip_prefix pre text) as [rest|] eqn:E; [|discriminate].
    destruct (Str.strip_prefix "(" (Str.drop _ rest)) eqn:E2; [|discriminate].
    exfalso. eapply no_char_no_prefix; [|exact E2].
    eapply no_char_rest; eassumption. }
  destruct (Ascii.eqb c ":"); [|exact Ho].
  destruct (Str.unsnoc pre) as [[pre' c']|]; [|exact Ho].
  destruct (Ascii.eqb c' ":"); [|exact Ho].
  cbn [pattern_match].
  destruct (Str.strip_prefix pre' text) as [rest|] eqn:E; [|discriminate].
  destruct (Str.strip_prefix "::" (Str.drop _ rest)) eqn:E2; [|discriminate].
  exfalso. eapply no_char_no_prefix; [|exact E2].
  eapply no_char_rest; eassumption.
Qed.

Lemma first_pattern_none (ps : list SymbolPattern) (prev : option ascii)
    (text : string) :
  (forall p, In p ps -> pattern_match p prev text = None) ->
  first_pattern ps prev text = None.
Proof.
  induction ps as [|p ps IH]; intros H; cbn; [reflexivity|].
  rewrite (H p (or_introl eq_refl)). apply IH. intros q Hq. apply H.
  right. exact Hq.
Qed.

Lemma first_pattern_some (ps : list SymbolPattern) (prev : option ascii)
    (text : string) (n : nat) :
  (exists p, In p ps /\ pattern_match p prev text = Some n) ->
  (forall p m, In p ps -> pattern_match p prev text = Some m -> m = n) ->
  first_pattern ps prev text = Some n.
Proof.
  induction ps as [|p ps IH]; intros (q & Hq & Hm) Hu; [contradiction|].
  cbn. destruct (pattern_match p prev text) as [m|] eqn:E.
  - f_equal. apply (Hu p m); [left; reflexivity|exact E].
  - apply IH.
    + destruct Hq as [->|Hq]; [congruence|]. exists q. split; assumption.
    + intros r m Hr. apply Hu. right. exact Hr.
Qed.

Lemma in_list_iff (s : string) (l : list string) :
  Str.in_list s l = true <-> In s l.
Proof.
  unfold Str.in_list. rewrite existsb_exists. split.
  - intros (x & Hx & E). apply String.eqb_eq in E. congruence.
  - intros H. exists s. split; [exact H|apply String.eqb_refl].
Qed.

Section OnSource.

Variables (symbols : list string) (tk : Tokenizer) (src x : string).

Hypothesis compiled : create_tokenizer symbols = Return tk.
Hypothesis no_paren : Str.mem "(" src = false.
Hypothesis no_colon : Str.mem ":" src = false.
Hypothesis x_symbol : In x (stripped_symbols symbols).
Hypothesis x_long : multi_char x = true.
Hypothesis x_only :
  forall s, In s (stripped_symbols symbols) -> multi_char s = true ->
            s <> x -> occurs s src = false.

Lemma drop_no_char (c : ascii) (i : nat) :
  Str.mem c src = false -> Str.mem c (Str.drop i src) = false.
Proof.
  intros H. destruct (Str.mem c (Str.drop i src)) eqn:E; [|reflexivity].
  apply StrFacts.drop_mem in E. congruence.
Qed.

(** Of the long symbols, [x] alone can match in the source. *)
Lemma long_symbol_matches (s : string) (prev : option ascii) (i n : nat) :
  In s (stripped_symbols symbols) -> multi_char s = true ->
  pattern_match (symbol_escape s) prev (Str.drop i src) = Some n ->
  s = x.
Proof.
  intros Hs Hm H.
  destruct (string_dec s x) as [E|E]; [exact E|]. exfalso.
  apply pattern_match_prefix in H; try (apply drop_no_char; assumption).
  destruct H as [H _]. apply H. apply occurs_drop. apply x_only; assumption.
Qed.

(** The class of the one-character symbols. *)
Lemma single_symbol (c : ascii) :
  Str.mem c (singles tk) = Str.in_list (String c "") (stripped_symbols symbols).
Proof.
  destruct (create_tokenizer_inv symbols tk compiled)
    as (a & b & _ & Hs & _ & Hb).
  apply Bool.eq_iff_eq_true. rewrite Hs, in_list_iff.
  rewrite mem_concat.
  - rewrite Hb. intuition.
  - intros s H. apply Hb in H. destruct H as [H1 H2]. split; [|exact H2].
    eapply stripped_nonempty. exact H1.
Qed.

Lemma blank_not_symbol (c : ascii) :
  Str.is_space c = true -> Str.mem c (singles tk) = false.
Proof.
  intros Hc. rewrite single_symbol.
  destruct (Str.in_list _ _) eqn:E; [|reflexivity].
  apply in_list_iff in E.
  rewrite (stripped_head symbols (String c "") c E eq_refl) in Hc.
  discriminate.
Qed.

(** Where [x] does not match, the symbol group matches a one-character
    symbol or nothing. *)
Lemma symbol_without_x (prev : option ascii) (i : nat) :
  pattern_match (symbol_escape x) prev (Str.drop i src) = None ->
  match_symbol tk prev (Str.drop i src) =
  match Str.drop i src with
  | String c _ => if Str.mem c (singles tk) then Some 1 else None
  | EmptyString => None
  end.
Proof.
  intros Hx.
  destruct (create_tokenizer_inv symbols tk compiled)
    as (a & b & Hm & _ & Ha & _).
  unfold match_symbol. rewrite Hm.
  assert (Hin : In x a) by (apply Ha; split; assumption).
  destruct a as [|y a]; [contradiction|].
  change (map symbol_escape (y :: a)) with (symbol_escape y :: map symbol_escape a) at 1.
  cbv iota.
  rewrite first_pattern_none; [reflexivity|].
  intros p Hp. change (In p (map symbol_escape (y :: a))) in Hp.
  apply in_map_iff in Hp. destruct Hp as (s & <- & Hs).
  apply Ha in Hs. destruct Hs as [Hs1 Hs2].
  destruct (pattern_match (symbol_escape s) prev (Str.drop i src)) eqn:E;
    [|reflexivity].
  pose proof (long_symbol_matches s prev i n Hs1 Hs2 E). subst s. congruence.
Qed.

(** Where [x] matches, the symbol group matches it. *)
Lemma symbol_with_x (prev : option ascii) (i n : nat) :
  pattern_match (symbol_escape x) prev (Str.drop i src) = Some n ->
  match_symbol tk prev (Str.drop i src) = Some n.
Proof.
  intros Hx.
  destruct (create_tokenizer_inv symbols tk compiled)
    as (a & b & Hm & _ & Ha & _).
  unfold match_symbol. rewrite Hm.
  assert (Hin : In x a) by (apply Ha; split; assumption).
  destruct a as [|y a]; [contradiction|].
  change (map symbol_escape (y :: a)) with (symbol_escape y :: map symbol_escape a) at 1.
  cbv iota.
  rewrite (first_pattern_some _ _ _ n); [reflexivity| |].
  - exists (symbol_escape x). split; [|exact Hx].
    change (In (symbol_escape x) (map symbol_escape (y :: a))).
    apply in_map. exact Hin.
  - intros p m Hp E. change (In p (map symbol_escape (y :: a))) in Hp.
    apply in_map_iff in Hp. destruct Hp as (s & <- & Hs).
    apply Ha in Hs. destruct Hs as [Hs1 Hs2].
    pose proof (long_symbol_matches s prev i m Hs1 Hs2 E). subst s. congruence.
Qed.

End OnSource.


(** ** The source [a <= b] *)

Lemma stripped_in (symbols : list string) (s : string) :
  In s symbols -> Str.strip s = s -> s <> "" ->
  In s (stripped_symbols symbols).
Proof.
  intros H E Hn. unfold stripped_symbols. apply filter_In. split.
  - rewrite <- E. apply in_map. exact H.
  - destruct (String.eqb_spec s ""); [contradiction|reflexivity].
Qed.

Ltac closed_matchers :=
  repeat match goal with
  | |- context [match_literal ?t] =>
      let v := eval vm_compute in (match_literal t) in
      change (match_literal t) with v; cbv iota
  | |- context [match_name ?t] =>
      let v := eval vm_compute in (match_name t) in
      change (match_name t) with v; cbv iota
  | |- context [match_blanks ?t] =>
      let v := eval vm_compute in (match_blanks t) in
      change (match_blanks t) with v; cbv iota
  end.

Section Le.

Variables (symbols : list string) (tk : Tokenizer).

Hypothesis compiled : create_tokenizer symbols = Return tk.
Hypothesis has_le : In "<=" symbols.
Hypothesis le_only : only_long_symbol_in symbols "a <= b" "<=".

Let le_stripped : In "<=" (stripped_symbols symbols).
Proof. apply stripped_in; [exact has_le|reflexivity|discriminate]. Qed.

Let without (prev : option ascii) (i : nat) :=
  symbol_without_x symbols tk "a <= b" "<=" compiled
    eq_refl eq_refl le_stripped eq_refl le_only prev i.

Let with_ (prev : option ascii) (i n : nat) :=
  symbol_with_x symbols tk "a <= b" "<=" compiled
    eq_refl eq_refl le_stripped eq_refl le_only prev i n.

Let single := single_symbol symbols tk compiled.
Let blank_ := blank_not_symbol symbols tk compiled.

Lemma tokens_a_le_b :
  finditer tk "a <= b"
  = around (char_token symbols 0 1 "a") (char_token symbols 5 6 "b") "<=".
Proof.
  unfold finditer, around, char_token.
  pose proof (without None 0 eq_refl) as H0. cbn [Str.drop] in H0.
  pose proof (without (Some "a"%char) 1 eq_refl) as H1. cbn [Str.drop] in H1.
  pose proof (with_ (Some " "%char) 2 2 eq_refl) as H2. cbn [Str.drop] in H2.
  pose proof (without (Some "="%char) 4 eq_refl) as H4. cbn [Str.drop] in H4.
  pose proof (without (Some " "%char) 5 eq_refl) as H5. cbn [Str.drop] in H5.
  pose proof (without (Some "b"%char) 6 eq_refl) as H6. cbn [Str.drop] in H6.
  rewrite (blank_ " "%char eq_refl) in H1, H4.
  rewrite single in H0, H5.
  cbn [scan]. unfold match_at. closed_matchers.
  rewrite H0, H1, H2, H4, H5, H6.
  destruct (Str.in_list "a" (stripped_symbols symbols));
    destruct (Str.in_list "b" (stripped_symbols symbols)); reflexivity.
Qed.

End Le.

(** C5, as amended. For every symbol set that holds [<] and [<=] and in
    which [<=] is the only symbol of two characters or more that occurs in
    the source, the symbols compile to a tokenizer that cuts [a <= b] into
    [a], the one operator [<=] and [b]; no match is the operator [<] or
    [=]. *)
Theorem longest_symbol_first (symbols : list string) :
  In "<" symbols -> In "<=" symbols ->
  only_long_symbol_in symbols "a <= b" "<=" ->
  exists tk,
    create_tokenizer symbols = Return tk /\
    finditer tk "a <= b"
    = around (char_token symbols 0 1 "a") (char_token symbols 5 6 "b") "<=" /\
    In (op 2 4 "<=") (finditer tk "a <= b") /\
    (forall m, In m (finditer tk "a <= b") ->
               operator m <> Some "<" /\ operator m <> Some "=").
Proof.
  intros Hlt Hle Honly.
  destruct (create_tokenizer_compiles symbols "<") as [tk Hc];
    [apply stripped_in; [exact Hlt|reflexivity|discriminate]|reflexivity|].
  exists tk. split; [exact Hc|].
  pose proof (tokens_a_le_b symbols tk Hc Hle Honly) as E.
  rewrite E. split; [reflexivity|]. unfold around, char_token. split.
  - cbn. auto.
  - intros m Hm. cbn [In] in Hm.
    destruct (Str.in_list "a" (stripped_symbols symbols));
      destruct (Str.in_list "b" (stripped_symbols symbols));
      repeat (destruct Hm as [<-|Hm]; [split; discriminate|]);
      contradiction.
Qed.

Lemma longest_symbol_first_witness :
  exists tk,
    create_tokenizer comparison_symbols = Return tk /\
    finditer tk "a <= b"
    = around (char_token comparison_symbols 0 1 "a")
             (char_token comparison_symbols 5 6 "b") "<=" /\
    In (op 2 4 "<=") (finditer tk "a <= b") /\
    (forall m, In m (finditer tk "a <= b") ->
               operator m <> Some "<" /\ operator m <> Some "=").
Proof.
  apply (longest_symbol_first comparison_symbols).
  - simpl. auto.
  - simpl. auto.
  - intros s Hs Hm Hx. vm_compute in Hs.
    destruct Hs as [<-|[<-|[]]].
    + discriminate Hm.
    + contradiction Hx. reflexivity.
Defined.

(** C5, as stated, fails: with the symbol [<= b] registered next to [<]
    and [<=], the operator matched at the third character of [a <= b] is
    [<= b]. *)
Lemma longest_symbol_first_counterexample :
  In "<" comparison_symbols_longer /\ In "<=" comparison_symbols_longer /\
  ~ finds_le comparison_symbols_longer.
Proof.
  split; [simpl; auto|]. split; [simpl; auto|].
  intros H.
  destruct (H (mkTokenizer [Verbatim "<= b"; Verbatim "<="] "<")) as [Hin _].
  - vm_compute. reflexivity.
  - vm_compute in Hin.
    repeat (destruct Hin as [Hin|Hin]; [discriminate Hin|]).
    exact Hin.
Qed.

(** ** Sources in which no long symbol occurs *)

Section Plain.

Variables (symbols : list string) (tk : Tokenizer) (src : string)
          (allowed : list string).

Hypothesis compiled : create_tokenizer symbols = Return tk.
Hypothesis no_paren : Str.mem "(" src = false.
Hypothesis no_colon : Str.mem ":" src = false.
Hypothesis some_long : has_long_symbol symbols.
Hypothesis only_allowed : symbols_in symbols src allowed.
Hypothesis allowed_short : forallb (fun s => negb (multi_char s)) allowed = true.

Lemma none_long (s : string) :
  In s (stripped_symbols symbols) -> multi_char s = true ->
  occurs s src = false.
Proof.
  intros Hs Hm. destruct (occurs s src) eqn:E; [|reflexivity].
  pose proof (only_allowed s Hs E) as Ha.
  rewrite forallb_forall in allowed_short.
  rewrite (proj1 (negb_true_iff _) (allowed_short s Ha)) in Hm. discriminate.
Qed.

(** The symbol group matches a one-character symbol or nothing. *)
Lemma plain_symbol (prev : option ascii) (i : nat) :
  match_symbol tk prev (Str.drop i src) =
  match Str.drop i src with
  | String c _ =>
      if Str.in_list (String c "") (stripped_symbols symbols)
      then Some 1 else None
  | EmptyString => None
  end.
Proof.
  destruct some_long as (x & Hx & Hm).
  rewrite (symbol_without_x symbols tk src x compiled no_paren no_colon Hx Hm).
  - destruct (Str.drop i src); [reflexivity|].
    rewrite (single_symbol symbols tk compiled). reflexivity.
  - intros s Hs Hl _. apply none_long; assumption.
  - destruct (pattern_match (symbol_escape x) prev (Str.drop i src)) eqn:E;
      [|reflexivity].
    apply pattern_match_prefix in E; try (apply drop_no_char; assumption).
    destruct E as [E _]. exfalso. apply E. apply occurs_drop.
    apply none_long; assumption.
Qed.

Lemma not_registered (s : string) :
  occurs s src = true -> Str.in_list s allowed = false ->
  Str.in_list s (stripped_symbols symbols) = false.
Proof.
  intros Ho Ha. destruct (Str.in_list s (stripped_symbols symbols)) eqn:E;
    [|reflexivity].
  apply in_list_iff in E. pose proof (only_allowed s E Ho) as Ha'.
  apply in_list_iff in Ha'. congruence.
Qed.

Lemma is_registered (s : string) :
  In s symbols -> Str.strip s = s -> s <> "" ->
  Str.in_list s (stripped_symbols symbols) = true.
Proof.
  intros H E Hn. apply in_list_iff. apply stripped_in; assumption.
Qed.

End Plain.

(** One step of [scan], by the alternative that matches. *)
Lemma scan_at (tk : Tokenizer) (prev : option ascii) (pos : nat)
    (text : string) (n : nat) (g : Group) :
  match_at tk prev text = Some (n, g) ->
  scan tk prev pos 0 text =
  make_match pos n g text ::
  match text with
  | String c rest => scan tk (Some c) (S pos) (pred n) rest
  | EmptyString => []
  end.
Proof. intros H. destruct text; cbn [scan]; rewrite H; reflexivity. Qed.

Lemma scan_nothing (tk : Tokenizer) (prev : option ascii) (pos : nat)
    (text : string) :
  match_at tk prev text = None ->
  scan tk prev pos 0 text =
  match text with
  | String c rest => scan tk (Some c) (S pos) 0 rest
  | EmptyString => []
  end.
Proof. intros H. destruct text; cbn [scan]; rewrite H; reflexivity. Qed.

Lemma at_literal (tk : Tokenizer) (prev : option ascii) (text : string)
    (n : nat) :
  match_literal text = Some n -> match_at tk prev text = Some (n, GLiteral).
Proof. intros H. unfold match_at. rewrite H. reflexivity. Qed.

Lemma at_operator (tk : Tokenizer) (prev : option ascii) (text : string)
    (n : nat) :
  match_literal text = None -> match_symbol tk prev text = Some n ->
  match_at tk prev text = Some (n, GOperator).
Proof. intros H1 H2. unfold match_at. rewrite H1, H2. reflexivity. Qed.

Lemma at_name (tk : Tokenizer) (prev : option ascii) (text : string)
    (n : nat) :
  match_literal text = None -> match_symbol tk prev text = None ->
  match_name text = Some n -> match_at tk prev text = Some (n, GName).
Proof. intros H1 H2 H3. unfold match_at. rewrite H1, H2, H3. reflexivity. Qed.

Lemma at_blank (tk : Tokenizer) (prev : option ascii) (text : string)
    (n : nat) :
  match_literal text = None -> match_symbol tk prev text = None ->
  match_name text = None -> match_blanks text = Some n ->
  match_at tk prev text = Some (n, GBlank).
Proof.
  intros H1 H2 H3 H4. unfold match_at. rewrite H1, H2, H3, H4. reflexivity.
Qed.

Lemma at_nothing (tk : Tokenizer) (prev : option ascii) (text : string) :
  match_literal text = None -> match_symbol tk prev text = None ->
  match_name text = None -> match_blanks text = None ->
  match_at tk prev text = None.
Proof.
  intros H1 H2 H3 H4. unfold match_at. rewrite H1, H2, H3, H4. reflexivity.
Qed.

(** Advances [scan] by one match on a source of length [len] in which no
    long symbol occurs; [registered] settles the membership test of the
    character under the cursor. *)
Ltac scan_step len symbol_at registered :=
  lazymatch goal with
  | |- context [scan ?tk ?prev ?pos (S ?k) (String ?c ?rest)] =>
      change (scan tk prev pos (S k) (String c rest))
        with (scan tk (Some c) (S pos) k rest)
  | |- context [scan ?tk ?prev ?pos 0 ?text] =>
      let l := eval vm_compute in (match_literal text) in
      lazymatch l with
      | Some ?n => rewrite (scan_at tk prev pos text n GLiteral
                              (at_literal tk prev text n eq_refl))
      | None =>
          let i := eval vm_compute in (len - String.length text) in
          let H := fresh "H" in
          pose proof (symbol_at prev i) as H; cbn [Str.drop] in H;
          registered H;
          lazymatch type of H with
          | _ = Some ?n =>
              rewrite (scan_at tk prev pos text n GOperator
                         (at_operator tk prev text n eq_refl H))
          | _ = None =>
              let m := eval vm_compute in (match_name text) in
              lazymatch m with
              | Some ?n =>
                  rewrite (scan_at tk prev pos text n GName
                             (at_name tk prev text n eq_refl H eq_refl))
              | None =>
                  let b := eval vm_compute in (match_blanks text) in
                  lazymatch b with
                  | Some ?n =>
                      rewrite (scan_at tk prev pos text n GBlank
                                 (at_blank tk prev text n eq_refl H eq_refl
                                    eq_refl))
                  | None =>
                      rewrite (scan_nothing tk prev pos text
                                 (at_nothing tk prev text eq_refl H eq_refl
                                    eq_refl))
                  end
              end
          end;
          clear H
      end;
      cbv iota; cbn [pred]
  end.

Ltac cut_source len symbol_at registered :=
  unfold finditer, spaced;
  repeat scan_step len symbol_at registered;
  reflexivity.

(** The tokenizer cuts [1 + 2 * 3] into its five tokens when some symbol
    has two characters or more and [+] and [*] are the only symbols that
    occur in the source. *)
Lemma tokens_1_plus_2_times_3 (symbols : list string) (tk : Tokenizer) :
  create_tokenizer symbols = Return tk ->
  has_long_symbol symbols ->
  symbols_in symbols "1 + 2 * 3" ["+"; "*"] ->
  In "+" symbols -> In "*" symbols ->
  finditer tk "1 + 2 * 3" = spaced lit "1" "+" "2" "*" "3".
Proof.
  intros Hc Hl Hs Hp Ht.
  pose proof (plain_symbol symbols tk "1 + 2 * 3" ["+"; "*"] Hc eq_refl eq_refl
                Hl Hs eq_refl) as symbol_at.
  pose proof (not_registered symbols "1 + 2 * 3" ["+"; "*"] Hs) as absent.
  cut_source 9 symbol_at
    ltac:(fun H =>
      rewrite ?(absent " " eq_refl eq_refl),
              ?(is_registered symbols "+" Hp eq_refl ltac:(discriminate)),
              ?(is_registered symbols "*" Ht eq_refl ltac:(discriminate)) in H).
Qed.

(** The same for three names around two occurrences of one operator. *)
Lemma tokens_a_plus_b_plus_c (symbols : list string) (tk : Tokenizer) :
  create_tokenizer symbols = Return tk ->
  has_long_symbol symbols ->
  symbols_in symbols "a + b + c" ["+"] ->
  In "+" symbols ->
  finditer tk "a + b + c" = spaced nm "a" "+" "b" "+" "c".
Proof.
  intros Hc Hl Hs Hp.
  pose proof (plain_symbol symbols tk "a + b + c" ["+"] Hc eq_refl eq_refl
                Hl Hs eq_refl) as symbol_at.
  pose proof (not_registered symbols "a + b + c" ["+"] Hs) as absent.
  cut_source 9 symbol_at
    ltac:(fun H =>
      rewrite ?(absent " " eq_refl eq_refl), ?(absent "a" eq_refl eq_refl),
              ?(absent "b" eq_refl eq_refl), ?(absent "c" eq_refl eq_refl),
              ?(is_registered symbols "+" Hp eq_refl ltac:(discriminate)) in H).
Qed.

Lemma tokens_a_pow_b_pow_c (symbols : list string) (tk : Tokenizer) :
  create_tokenizer symbols = Return tk ->
  has_long_symbol symbols ->
  symbols_in symbols "a ^ b ^ c" ["^"] ->
  In "^" symbols ->
  finditer tk "a ^ b ^ c" = spaced nm "a" "^" "b" "^" "c".
Proof.
  intros Hc Hl Hs Hp.
  pose proof (plain_symbol symbols tk "a ^ b ^ c" ["^"] Hc eq_refl eq_refl
                Hl Hs eq_refl) as symbol_at.
  pose proof (not_registered symbols "a ^ b ^ c" ["^"] Hs) as absent.
  cut_source 9 symbol_at
    ltac:(fun H =>
      rewrite ?(absent " " eq_refl eq_refl), ?(absent "a" eq_refl eq_refl),
              ?(absent "b" eq_refl eq_refl), ?(absent "c" eq_refl eq_refl),
              ?(is_registered symbols "^" Hp eq_refl ltac:(discriminate)) in H).
Qed.

End TokenizerFacts.

(* ================================================================== *)
(** * Facts: the parser engine *)
(* ================================================================== *)

Module TdopFacts.

Import Tdop.

Lemma init_fresh (c : ParserClass) (p : Parser) :
  init c = Return p -> p = fresh c.
Proof.
  unfold init, fresh.
  destruct (lookup "(end)" (symbol_table c)); destruct (tokenizer c);
    congruence.
Qed.

(** One unfolding of [expression]. *)
Lemma expression_S (f : nat) (rbp_ : Z) (p : Parser) :
  expression (S f) rbp_ p =
  bind (advance [] p) (fun _ p' =>
    match next_token p with
    | None => Err (AttributeError "nud") p'
    | Some t =>
        bind (match nud (cls_of t) with
              | NudDefault => wrong_symbol t p'
              | NudLiteral => Ok t p'
              | NudPrefix bp =>
                  bind (expression f bp p') (fun e p =>
                  Ok (set_operands t
                        (slice_assign_from (operands_of t) 0 [e])) p)
              end)
             (fun left p => led_loop f rbp_ left p)
    end).
Proof. reflexivity. Qed.

(** One turn of the loop. *)
Lemma led_loop_S (f : nat) (rbp_ : Z) (left : Token) (p : Parser) :
  led_loop (S f) rbp_ left p =
  match next_token p with
  | None => Err (AttributeError "lbp") p
  | Some t =>
      if Z.ltb rbp_ (lbp (cls_of t)) then
        bind (advance [] p) (fun _ p =>
        bind (match led (cls_of t) with
              | LedDefault => wrong_symbol t p
              | LedInfix bp =>
                  bind (expression f bp p) (fun right p =>
                  Ok (set_operands t
                        (slice_assign (operands_of t) 0 1 [left; right])) p)
              | LedInfixr bp =>
                  bind (expression f (bp - 1)%Z p) (fun right p =>
                  Ok (set_operands t
                        (slice_assign (operands_of t) 0 1 [left; right])) p)
              end)
             (fun left p => led_loop f rbp_ left p))
      else Ok left p
  end.
Proof. reflexivity. Qed.

Lemma bind_Ok {A B : Type} (a : A) (p : Parser) (k : A -> Parser -> Outcome B) :
  bind (Ok a p) k = k a p.
Proof. reflexivity. Qed.

Lemma advance_unfold (p : Parser) :
  is_end (next_token p) = false ->
  advance [] p = advance_loop (tokens p) (shift p).
Proof.
  intros H. unfold advance. rewrite H. destruct (next_token p); reflexivity.
Qed.

Lemma loop_blank (m : Match) (ms : list Match) (p : Parser) :
  operator m = None -> literal m = None -> name m = None ->
  Str.strip (group m (source p)) = "" ->
  advance_loop (m :: ms) p = advance_loop ms (read p m ms).
Proof.
  intros Ho Hl Hn Hg. cbn [advance_loop]. rewrite Ho, Hl, Hn.
  cbn [source set_next_match set_tokens]. rewrite Hg. reflexivity.
Qed.

Lemma loop_op (m : Match) (ms : list Match) (p : Parser) (sym : string)
    (tc : TokenClass) :
  operator m = Some sym ->
  lookup (Str.remove_blanks sym) (symbol_table (pclass p)) = Some tc ->
  advance_loop (m :: ms) p =
  Ok tt (set_next_token (read p m ms) (Some (new_token tc None))).
Proof.
  intros Ho Hl. cbn [advance_loop]. rewrite Ho.
  cbn [pclass set_next_match set_tokens]. rewrite Hl. reflexivity.
Qed.

Lemma loop_name (m : Match) (ms : list Match) (p : Parser) (n : string)
    (tc : TokenClass) :
  operator m = None -> literal m = None -> name m = Some n ->
  lookup "(name)" (symbol_table (pclass p)) = Some tc ->
  advance_loop (m :: ms) p =
  Ok tt (set_next_token (read p m ms) (Some (new_token tc (Some (VStr n))))).
Proof.
  intros Ho Hl Hn Hk. cbn [advance_loop]. rewrite Ho, Hl, Hn.
  unfold instantiate. cbn [pclass set_next_match set_tokens]. rewrite Hk.
  reflexivity.
Qed.

Lemma loop_integer (m : Match) (ms : list Match) (p : Parser) (text : string)
    (tc : TokenClass) :
  operator m = None -> literal m = Some text -> integer_text text = true ->
  lookup "(integer)" (symbol_table (pclass p)) = Some tc ->
  advance_loop (m :: ms) p =
  Ok tt (set_next_token (read p m ms)
           (Some (new_token tc (Some (VInt (Str.int_of_digits 0 text)))))).
Proof.
  intros Ho Hl Ht Hk. cbn [advance_loop]. rewrite Ho, Hl.
  unfold literal_token, integer_text in *. destruct text as [|ch rest]; [discriminate|].
  destruct (is_quote ch); [discriminate|].
  destruct (Str.mem "e" (String ch rest) || Str.mem "E" (String ch rest)); [discriminate|].
  destruct (Str.mem "." (String ch rest)); [discriminate|].
  unfold instantiate. cbn [pclass set_next_match set_tokens]. rewrite Hk.
  reflexivity.
Qed.

Lemma loop_end (p : Parser) (tc : TokenClass) :
  lookup "(end)" (symbol_table (pclass p)) = Some tc ->
  advance_loop [] p =
  Ok tt (set_next_token (set_tokens p []) (Some (new_token tc None))).
Proof.
  intros Hk. cbn [advance_loop]. unfold instantiate.
  cbn [pclass set_tokens]. rewrite Hk. reflexivity.
Qed.

#[local] Arguments expression : simpl never.
#[local] Arguments led_loop : simpl never.

Ltac state :=
  unfold read, shift, set_tokens, set_next_token, set_next_match, set_source,
         fresh;
  cbn [pclass token match_ next_token next_match tokens source].

Ltac token_facts facts :=
  cbn [new_token cls_of value_of operands_of set_operands is_end
       slice_assign slice_assign_from firstn skipn Nat.max app];
  facts.

Ltac compare_numerals :=
  match goal with
  | |- context [Z.ltb ?a ?b] =>
      let v := eval vm_compute in (Z.ltb a b) in
      match v with
      | true => change (Z.ltb a b) with true
      | false => change (Z.ltb a b) with false
      end
  | |- context [String.eqb ?a ?b] =>
      let v := eval vm_compute in (String.eqb a b) in
      match v with
      | true => change (String.eqb a b) with true
      | false => change (String.eqb a b) with false
      end
  end.

(** one call of advance, on a state given as a record *)
Ltac advance_step facts :=
  rewrite advance_unfold by (state; token_facts facts; reflexivity);
  state;
  repeat (rewrite loop_blank by reflexivity; state);
  first
    [ erewrite loop_op
        by (first [reflexivity
                  | state; cbn [Str.remove_blanks Ascii.eqb Bool.eqb]; facts;
                    reflexivity])
    | erewrite loop_integer by (first [reflexivity | state; facts; reflexivity])
    | erewrite loop_name by (first [reflexivity | state; facts; reflexivity])
    | erewrite loop_end by (first [reflexivity | state; facts; reflexivity]) ];
  state; rewrite bind_Ok; cbv beta; state.

Ltac parser_step facts :=
  first
    [ advance_step facts
    | rewrite bind_Ok; cbv beta
    | rewrite expression_S
    | rewrite led_loop_S
    | progress (state; token_facts facts; cbv beta iota)
    | compare_numerals; cbv beta iota ].

(** A symbol of the table that is not one of the special ones is given to
    [create_tokenizer]. *)
Lemma lookup_in (sym : string) (d : list (string * TokenClass))
    (tc : TokenClass) :
  lookup sym d = Some tc -> In sym (map fst d).
Proof.
  induction d as [|[k v] d IH]; cbn; [discriminate|].
  destruct (String.eqb sym k) eqn:E.
  - apply String.eqb_eq in E. auto.
  - auto.
Qed.

Lemma registered_symbol (c : ParserClass) (sym : string) (tc : TokenClass) :
  registered c sym tc ->
  Str.in_list (Str.strip sym) special_symbols = false ->
  In sym (tokenizer_symbols c).
Proof.
  intros [H _] Hs. unfold tokenizer_symbols. apply filter_In. split.
  - exact (lookup_in sym _ tc H).
  - rewrite Hs. reflexivity.
Qed.

(** On the five tokens of the source, the parser climbs: the product of 2
    and 3 becomes the right operand of the sum. *)
Lemma climbs_on_tokens (c : ParserClass) (p : Parser) :
  init c = Return p ->
  splits c "1 + 2 * 3" (spaced lit "1" "+" "2" "*" "3") ->
  is_infix c "+" 10 -> is_infix c "*" 20 ->
  is_literal c "(integer)" -> has_end c ->
  parse_tree p "1 + 2 * 3" = Some "(+ (1) (* (2) (3)))".
Proof.
  intros Hi (tk & Htk & Hms) (plus & [Lp Sp] & Bp & Dp)
         (times & [Lt St] & Bt & Dt) (int & [Li Si] & Ni) (e & [Le Se] & Be).
  apply init_fresh in Hi. subst p.
  unfold parse_tree, parse. state. rewrite Htk, Hms. unfold spaced.
  cbn [List.length].
  repeat parser_step ltac:(rewrite ?Li, ?Lp, ?Lt, ?Le, ?Ni, ?Sp, ?St, ?Se,
                                   ?Si, ?Bp, ?Bt, ?Be, ?Dp, ?Dt).
  cbn [finally_]. vm_compute. reflexivity.
Qed.

(** Precedence climbing. In a parser class closed by [end()] where [+] is an infix
    operator of binding power 10, [*] an infix operator of binding power
    20 and the integer literal is registered, where some symbol has two
    characters or more and no other symbol than [+] and [*] occurs in the
    source, parsing [1 + 2 * 3] returns the tree in which the product of 2
    and 3 is the right operand of the sum (the rendering of the
    statement): [expression] takes its left operand from the prefix
    behaviour of the first token and absorbs an infix operator exactly
    while the left binding power of the lookahead exceeds its argument. *)
Theorem precedence_climbing (c : ParserClass) (p : Parser) :
  init c = Return p ->
  ended c ->
  has_long_symbol (tokenizer_symbols c) ->
  symbols_in (tokenizer_symbols c) "1 + 2 * 3" ["+"; "*"] ->
  is_infix c "+" 10 -> is_infix c "*" 20 ->
  is_literal c "(integer)" -> has_end c ->
  parse_tree p "1 + 2 * 3" = Some "(+ (1) (* (2) (3)))".
Proof.
  intros Hi (tk & Htk & Hc) Hl Hs Hplus Htimes Hint Hend.
  apply (climbs_on_tokens c p Hi); try assumption.
  exists tk. split; [exact Htk|].
  destruct Hplus as (plus & Rp & _). destruct Htimes as (times & Rt & _).
  apply (TokenizerFacts.tokens_1_plus_2_times_3 (tokenizer_symbols c) tk Hc Hl Hs).
  - exact (registered_symbol c "+" plus Rp eq_refl).
  - exact (registered_symbol c "*" times Rt eq_refl).
Qed.

(** The symbols of a closed list that occur in a source, by inspection. *)
Ltac symbols_by_inspection :=
  let s := fresh "s" in
  let Hs := fresh "Hs" in
  let Ho := fresh "Ho" in
  intros s Hs Ho; vm_compute in Hs;
  repeat (destruct Hs as [Hs|Hs];
          [subst s; first [discriminate Ho | vm_compute; tauto]|]);
  contradiction.

Lemma precedence_climbing_witness :
  parse_tree (the_parser arith_class) "1 + 2 * 3" = Some "(+ (1) (* (2) (3)))".
Proof.
  apply (precedence_climbing (the_class arith_class)).
  - vm_compute. reflexivity.
  - exists (tokenizer_of (the_class arith_class)).
    vm_compute. split; reflexivity.
  - exists "<="%string. vm_compute. split; [tauto|reflexivity].
  - symbols_by_inspection.
  - exists (class_of (the_class arith_class) "+").
    vm_compute. repeat split; reflexivity.
  - exists (class_of (the_class arith_class) "*").
    vm_compute. repeat split; reflexivity.
  - exists (class_of (the_class arith_class) "(integer)").
    vm_compute. repeat split; reflexivity.
  - exists (class_of (the_class arith_class) "(end)").
    vm_compute. repeat split; reflexivity.
Defined.

Section Associativity.

Variable bp : Z.
Hypothesis bp_positive : (0 < bp)%Z.

Lemma lt_0_bp : Z.ltb 0 bp = true.
Proof. apply Z.ltb_lt. lia. Qed.

Lemma lt_bp_bp : Z.ltb bp bp = false.
Proof. apply Z.ltb_ge. lia. Qed.

Lemma lt_pred_bp : Z.ltb (bp - 1) bp = true.
Proof. apply Z.ltb_lt. lia. Qed.

Lemma lt_bp_0 : Z.ltb bp 0 = false.
Proof. apply Z.ltb_ge. lia. Qed.

Lemma lt_pred_0 : Z.ltb (bp - 1) 0 = false.
Proof. apply Z.ltb_ge. lia. Qed.

(** An infix operator of binding power [bp] groups to the left. *)
Lemma infix_groups_left (c : ParserClass) (p : Parser) :
  init c = Return p ->
  splits c "a + b + c" (spaced nm "a" "+" "b" "+" "c") ->
  is_infix c "+" bp -> is_literal c "(name)" -> has_end c ->
  parse_tree p "a + b + c" = Some "(+ (+ (a) (b)) (c))".
Proof.
  intros Hi (tk & Htk & Hms) (plus & [Lp Sp] & Bp & Dp)
         (nam & [Ln Sn] & Nn) (e & [Le Se] & Be).
  apply init_fresh in Hi. subst p.
  unfold parse_tree, parse. state. rewrite Htk, Hms. unfold spaced.
  cbn [List.length].
  repeat parser_step ltac:(rewrite ?Ln, ?Lp, ?Le, ?Nn, ?Sp, ?Se, ?Sn, ?Bp,
                                   ?Be, ?Dp, ?lt_0_bp, ?lt_bp_bp, ?lt_bp_0).
  cbn [finally_]. vm_compute. reflexivity.
Qed.

(** An infixr operator of binding power [bp] groups to the right: its
    right operand is parsed at [bp - 1], which the operator's own left
    binding power exceeds. *)
Lemma infixr_groups_right (c : ParserClass) (p : Parser) :
  init c = Return p ->
  splits c "a ^ b ^ c" (spaced nm "a" "^" "b" "^" "c") ->
  is_infixr c "^" bp -> is_literal c "(name)" -> has_end c ->
  parse_tree p "a ^ b ^ c" = Some "(^ (a) (^ (b) (c)))".
Proof.
  intros Hi (tk & Htk & Hms) (pow & [Lp Sp] & Bp & Dp)
         (nam & [Ln Sn] & Nn) (e & [Le Se] & Be).
  apply init_fresh in Hi. subst p.
  unfold parse_tree, parse. state. rewrite Htk, Hms. unfold spaced.
  cbn [List.length].
  repeat parser_step ltac:(rewrite ?Ln, ?Lp, ?Le, ?Nn, ?Sp, ?Se, ?Sn, ?Bp,
                                   ?Be, ?Dp, ?lt_0_bp, ?lt_pred_bp,
                                   ?lt_pred_0).
  cbn [finally_]. vm_compute. reflexivity.
Qed.

End Associativity.

(** Associativity. With [+] registered by [infix] and [^] by [infixr] at one binding
    power [bp > 0], in a parser class closed by [end()] that knows the
    name literal, where some symbol has two characters or more and no
    other symbol than the operator occurs in either source, [a + b + c]
    parses to (+ (+ (a) (b)) (c)) and [a ^ b ^ c] to (^ (a) (^ (b) (c))). *)
Theorem associativity (bp : Z) (c : ParserClass) (p : Parser) :
  (0 < bp)%Z ->
  init c = Return p ->
  ended c ->
  has_long_symbol (tokenizer_symbols c) ->
  symbols_in (tokenizer_symbols c) "a + b + c" ["+"] ->
  symbols_in (tokenizer_symbols c) "a ^ b ^ c" ["^"] ->
  is_infix c "+" bp -> is_infixr c "^" bp ->
  is_literal c "(name)" -> has_end c ->
  parse_tree p "a + b + c" = Some "(+ (+ (a) (b)) (c))" /\
  parse_tree p "a ^ b ^ c" = Some "(^ (a) (^ (b) (c)))".
Proof.
  intros Hbp Hi (tk & Htk & Hc) Hl Hs1 Hs2 Hplus Hpow Hname Hend.
  pose proof Hplus as (plus & Rp & _). pose proof Hpow as (pow & Rw & _).
  split.
  - apply (infix_groups_left bp Hbp c p Hi); try assumption.
    exists tk. split; [exact Htk|].
    apply (TokenizerFacts.tokens_a_plus_b_plus_c (tokenizer_symbols c) tk Hc Hl Hs1).
    exact (registered_symbol c "+" plus Rp eq_refl).
  - apply (infixr_groups_right bp Hbp c p Hi); try assumption.
    exists tk. split; [exact Htk|].
    apply (TokenizerFacts.tokens_a_pow_b_pow_c (tokenizer_symbols c) tk Hc Hl Hs2).
    exact (registered_symbol c "^" pow Rw eq_refl).
Qed.

Lemma associativity_witness :
  parse_tree (the_parser (assoc_class 7)) "a + b + c"
    = Some "(+ (+ (a) (b)) (c))" /\
  parse_tree (the_parser (assoc_class 7)) "a ^ b ^ c"
    = Some "(^ (a) (^ (b) (c)))".
Proof.
  apply (associativity 7 (the_class (assoc_class 7))).
  - reflexivity.
  - vm_compute. reflexivity.
  - exists (tokenizer_of (the_class (assoc_class 7))).
    vm_compute. split; reflexivity.
  - exists "<="%string. vm_compute. split; [tauto|reflexivity].
  - symbols_by_inspection.
  - symbols_by_inspection.
  - exists (class_of (the_class (assoc_class 7)) "+").
    vm_compute. repeat split; reflexivity.
  - exists (class_of (the_class (assoc_class 7)) "^").
    vm_compute. repeat split; reflexivity.
  - exists (class_of (the_class (assoc_class 7)) "(name)").
    vm_compute. repeat split; reflexivity.
  - exists (class_of (the_class (assoc_class 7)) "(end)").
    vm_compute. repeat split; reflexivity.
Defined.

(** ** The fuel of [parse] is enough *)

Lemma instantiate_ok (key : string) (v : option Value) (p p' : Parser) (u : unit) :
  instantiate key v p = Ok u p' ->
  exists tc, lookup key (symbol_table (pclass p)) = Some tc /\
             p' = set_next_token p (Some (new_token tc v)).
Proof.
  unfold instantiate. destruct (lookup key (symbol_table (pclass p))) as [tc|].
  - intros H. inversion H. exists tc. split; reflexivity.
  - discriminate.
Qed.

Lemma literal_token_ok (text : string) (p p' : Parser) (u : unit) :
  literal_token text p = Ok u p' ->
  exists t, p' = set_next_token p (Some t).
Proof.
  unfold literal_token. destruct text as [|ch rest]; [discriminate|].
  destruct (is_quote ch).
  - intros H. apply instantiate_ok in H. destruct H as (tc & _ & ->). eauto.
  - destruct (Str.mem "e" (String ch rest) || Str.mem "E" (String ch rest)).
    + destruct (lookup "(float)" (symbol_table (pclass p))); [|discriminate].
      destruct (well_formed_number (String ch rest)); [|discriminate].
      intros H. apply instantiate_ok in H. destruct H as (tc & _ & ->). eauto.
    + destruct (Str.mem "." (String ch rest)).
      * destruct (lookup "(decimal)" (symbol_table (pclass p))); [|discriminate].
        destruct (well_formed_number (String ch rest)); [|discriminate].
        intros H. apply instantiate_ok in H. destruct H as (tc & _ & ->). eauto.
      * intros H. apply instantiate_ok in H. destruct H as (tc & _ & ->). eauto.
Qed.

Lemma unread_bound (p : Parser) : unread p <= S (List.length (tokens p)).
Proof. unfold unread. destruct (is_end (next_token p)); lia. Qed.

(** A successful turn of the loop of [advance] leaves the class alone and
    no more to read than the matches it was given. *)
Lemma advance_loop_reads (ms : list Match) :
  forall (p p' : Parser) (u : unit),
  end_registered (pclass p) ->
  advance_loop ms p = Ok u p' ->
  pclass p' = pclass p /\ unread p' <= List.length ms.
Proof.
  induction ms as [|m ms IH]; intros p p' u (tc & Htc & Hsym) H.
  - cbn [advance_loop] in H. apply instantiate_ok in H.
    destruct H as (tc' & Hl & ->). cbn in Hl. rewrite Htc in Hl.
    inversion Hl; subst tc'. split; [reflexivity|].
    unfold unread. cbn. rewrite Hsym. cbn. lia.
  - cbn [advance_loop] in H.
    set (q := set_next_match (set_tokens p ms) (Some m)) in *.
    assert (Hq : pclass q = pclass p) by reflexivity.
    assert (Ht : tokens q = ms) by reflexivity.
    destruct (operator m) as [o|].
    { destruct (lookup (Str.remove_blanks o) (symbol_table (pclass q)));
        [|discriminate].
      inversion H; subst p'. split; [exact Hq|].
      etransitivity; [apply unread_bound|]. cbn. lia. }
    destruct (literal m) as [text|].
    { apply literal_token_ok in H. destruct H as (t & ->).
      split; [exact Hq|]. etransitivity; [apply unread_bound|]. cbn. lia. }
    destruct (name m) as [n|].
    { apply instantiate_ok in H. destruct H as (tc' & _ & ->).
      split; [exact Hq|]. etransitivity; [apply unread_bound|]. cbn. lia. }
    destruct (Str.strip (group m (source q))); [|discriminate].
    apply IH in H.
    + destruct H as [Hc Hu]. split; [congruence|]. cbn. lia.
    + rewrite Hq. exists tc. split; assumption.
Qed.

(** A successful [advance] reads something. *)
Lemma advance_reads (symbols : list string) (p p' : Parser) (u : unit) :
  end_registered (pclass p) ->
  advance symbols p = Ok u p' ->
  pclass p' = pclass p /\ unread p' < unread p.
Proof.
  intros Hend H. unfold advance in H.
  destruct (is_end (next_token p)) eqn:E; [discriminate|].
  assert (Hx : advance_loop (tokens p) (shift p) = Ok u p').
  { destruct (next_token p) as [t|]; cbn [bind] in H; [|exact H].
    unfold expected in H. destruct symbols; cbn [bind] in H; [exact H|].
    destruct (Str.in_list (symbol (cls_of t)) (s :: symbols));
      cbn [bind] in H; [exact H|discriminate]. }
  apply advance_loop_reads in Hx; [|exact Hend].
  destruct Hx as [Hc Hu]. split; [exact Hc|].
  unfold unread at 2. rewrite E. lia.
Qed.

Lemma advance_loop_no_timeout (ms : list Match) :
  forall (p q : Parser), advance_loop ms p <> Timeout q.
Proof.
  induction ms as [|m ms IH]; intros p q; cbn [advance_loop].
  - unfold instantiate. destruct (lookup _ _); discriminate.
  - destruct (operator m).
    { destruct (lookup _ _); discriminate. }
    destruct (literal m) as [text|].
    { unfold literal_token, instantiate.
      repeat match goal with
             | |- match ?x with _ => _ end <> _ => destruct x
             | |- (if ?x then _ else _) <> _ => destruct x
             end; discriminate. }
    destruct (name m).
    { unfold instantiate. destruct (lookup _ _); discriminate. }
    destruct (Str.strip _); [apply IH|discriminate].
Qed.

Lemma advance_no_timeout (symbols : list string) (p q : Parser) :
  advance symbols p <> Timeout q.
Proof.
  unfold advance. destruct (is_end (next_token p)); [discriminate|].
  destruct (next_token p) as [t|]; cbn [bind].
  - unfold expected. destruct symbols; cbn [bind].
    + apply advance_loop_no_timeout.
    + destruct (Str.in_list _ _); cbn [bind];
        [apply advance_loop_no_timeout|discriminate].
  - apply advance_loop_no_timeout.
Qed.

Lemma runs_within_bind {A B : Type} (p : Parser) (strict : bool)
    (m : Outcome A) (k : A -> Parser -> Outcome B) :
  match m with
  | Ok a p' => runs_within p strict (k a p')
  | Err _ _ => True
  | Timeout _ => False
  end ->
  runs_within p strict (bind m k).
Proof. destruct m; cbn; auto. Qed.

(** With more fuel than there is to read, [expression] and its loop end
    on their own, and [expression] reads something when it returns. *)
Lemma fuel_suffices (fuel : nat) :
  (forall (rbp_ : Z) (p : Parser),
     end_registered (pclass p) -> unread p < fuel ->
     runs_within p true (expression fuel rbp_ p)) /\
  (forall (rbp_ : Z) (left : Token) (p : Parser),
     end_registered (pclass p) -> unread p < fuel ->
     runs_within p false (led_loop fuel rbp_ left p)).
Proof.
  induction fuel as [|f [IHe IHl]]; [split; intros; lia|].
  assert (Hl : forall rbp_ left p0 p,
             end_registered (pclass p0) -> pclass p = pclass p0 ->
             unread p < unread p0 -> unread p0 < S f ->
             runs_within p0 true (led_loop f rbp_ left p)).
  { intros rbp_ left p0 p He Hc Hu Hf.
    assert (He' : end_registered (pclass p)) by (rewrite Hc; exact He).
    specialize (IHl rbp_ left p He' ltac:(lia)).
    destruct (led_loop f rbp_ left p); cbn in *; auto.
    destruct IHl. split; [congruence|lia]. }
  assert (Hx : forall bp p0 p (k : Token -> Token),
             end_registered (pclass p0) -> pclass p = pclass p0 ->
             unread p < unread p0 -> unread p0 < S f ->
             match bind (expression f bp p) (fun e q => Ok (k e) q) with
             | Ok _ q => pclass q = pclass p0 /\ unread q < unread p0
             | Err _ _ => True
             | Timeout _ => False
             end).
  { intros bp p0 p k He Hc Hu Hf.
    assert (He' : end_registered (pclass p)) by (rewrite Hc; exact He).
    specialize (IHe bp p He' ltac:(lia)).
    destruct (expression f bp p); cbn in *; auto.
    destruct IHe. split; [congruence|lia]. }
  split.
  - intros rbp_ p He Hf. rewrite expression_S.
    apply runs_within_bind.
    destruct (advance [] p) as [u p1|e p1|p1] eqn:Ha; auto.
    + apply advance_reads in Ha; [|exact He]. destruct Ha as [Hc Hu].
      destruct (next_token p) as [t|]; [|exact I].
      apply runs_within_bind.
      destruct (nud (cls_of t)).
      * exact I.
      * apply Hl; assumption.
      * specialize (Hx bp p p1
                       (fun e => set_operands t
                                   (slice_assign_from (operands_of t) 0 [e]))
                       He Hc Hu Hf).
        destruct (bind (expression f bp p1) _) as [a q|e q|q]; auto.
        destruct Hx. apply Hl; assumption.
    + exfalso. exact (advance_no_timeout _ _ _ Ha).
  - intros rbp_ left p He Hf. rewrite led_loop_S.
    destruct (next_token p) as [t|]; [|exact I].
    destruct (Z.ltb rbp_ (lbp (cls_of t))); [|cbn; split; [reflexivity|lia]].
    assert (Hw : forall m : Outcome Token,
               runs_within p true m -> runs_within p false m).
    { intros [a q|e q|q]; cbn; auto. intros [? ?]. split; [assumption|lia]. }
    apply Hw. apply runs_within_bind.
    destruct (advance [] p) as [u p1|e p1|p1] eqn:Ha; auto.
    + apply advance_reads in Ha; [|exact He]. destruct Ha as [Hc Hu].
      apply runs_within_bind.
      destruct (led (cls_of t)).
      * exact I.
      * specialize (Hx bp p p1
                       (fun e => set_operands t
                                   (slice_assign (operands_of t) 0 1 [left; e]))
                       He Hc Hu Hf).
        destruct (bind (expression f bp p1) _) as [a q|e q|q]; auto.
        destruct Hx. apply Hl; assumption.
      * specialize (Hx (bp - 1)%Z p p1
                       (fun e => set_operands t
                                   (slice_assign (operands_of t) 0 1 [left; e]))
                       He Hc Hu Hf).
        destruct (bind (expression f (bp - 1)%Z p1) _) as [a q|e q|q]; auto.
        destruct Hx. apply Hl; assumption.
    + exact (advance_no_timeout _ _ _ Ha).
Qed.

(** X13. On a parser of a class whose end marker is registered, [parse]
    ends on every source, with a token or with an exception: every call
    of [expression] and every turn of its loop reads a match of the
    tokenizer first, so the recursion is no deeper than the matches are
    many. *)
Theorem parse_terminates (p : Parser) (src : string) :
  end_registered (pclass p) ->
  parse_result p src <> OutOfFuel.
Proof.
  intros He. unfold parse_result, parse.
  destruct (tokenizer (pclass (set_source p src))) as [tk|]; [|discriminate].
  set (p0 := set_tokens (set_source p src) (finditer tk src)).
  destruct (advance [] p0) as [u p1|e p1|p1] eqn:Ha.
  - cbn [bind].
    assert (Hr : pclass p1 = pclass p /\
                 unread p1 <= List.length (finditer tk src)).
    { unfold advance in Ha.
      destruct (is_end (next_token p0)); [discriminate|].
      assert (Hx : advance_loop (tokens p0) (shift p0) = Ok u p1).
      { destruct (next_token p0); cbn in Ha; exact Ha. }
      apply advance_loop_reads in Hx; [exact Hx|exact He]. }
    destruct Hr as [Hc Hu].
    assert (He1 : end_registered (pclass p1)) by (rewrite Hc; exact He).
    pose proof (proj1 (fuel_suffices (S (List.length (finditer tk src))))
                  0%Z p1 He1 ltac:(lia)) as Hf.
    destruct (expression _ 0%Z p1) as [root p2|e p2|p2]; cbn in *.
    + destruct (next_token p2) as [t|]; [|discriminate].
      destruct (String.eqb (symbol (cls_of t)) "(end)"); discriminate.
    + discriminate.
    + contradiction.
  - discriminate.
  - exfalso. exact (advance_no_timeout _ _ _ Ha).
Qed.

Lemma parse_terminates_witness :
  parse_result (the_parser arith_class) "1 +" <> OutOfFuel.
Proof.
  apply parse_terminates.
  exists (class_of (the_class arith_class) "(end)").
  vm_compute. split; reflexivity.
Defined.

(** ** What [parse] leaves behind *)

(** *** The class is left alone *)

Lemma keeps_bind {A B : Type} (p : Parser) (m : Outcome A)
    (k : A -> Parser -> Outcome B) :
  keeps_class p m ->
  (forall a p', pclass p' = pclass p -> keeps_class p (k a p')) ->
  keeps_class p (bind m k).
Proof. destruct m; cbn; auto. Qed.

Lemma keeps_instantiate (key : string) (v : option Value) (p0 p : Parser) :
  pclass p = pclass p0 -> keeps_class p0 (instantiate key v p).
Proof.
  intros H. unfold instantiate, keeps_class.
  destruct (lookup key _); cbn; exact H.
Qed.

Lemma keeps_literal_token (text : string) (p0 p : Parser) :
  pclass p = pclass p0 -> keeps_class p0 (literal_token text p).
Proof.
  intros H. unfold literal_token. destruct text as [|c text]; [exact H|].
  destruct (is_quote c); [apply keeps_instantiate; exact H|].
  destruct (_ || _).
  - destruct (lookup "(float)" _); [|exact H].
    destruct (well_formed_number _); [apply keeps_instantiate|]; exact H.
  - destruct (Str.mem _ _).
    + destruct (lookup "(decimal)" _); [|exact H].
      destruct (well_formed_number _); [apply keeps_instantiate|]; exact H.
    + apply keeps_instantiate; exact H.
Qed.

Lemma keeps_advance_loop (p0 : Parser) (ms : list Match) :
  forall p, pclass p = pclass p0 -> keeps_class p0 (advance_loop ms p).
Proof.
  induction ms as [|m ms IH]; intros p H; cbn [advance_loop].
  - apply keeps_instantiate. exact H.
  - destruct (operator m).
    + destruct (lookup _ _); exact H.
    + destruct (literal m); [apply keeps_literal_token; exact H|].
      destruct (name m); [apply keeps_instantiate; exact H|].
      destruct (Str.strip _); [apply IH; exact H|exact H].
Qed.

Lemma keeps_advance (symbols : list string) (p0 p : Parser) :
  pclass p = pclass p0 -> keeps_class p0 (advance symbols p).
Proof.
  intros H. unfold advance. destruct (is_end _); [exact H|].
  apply keeps_bind.
  - destruct (next_token p) as [t|]; [|exact H].
    unfold expected. destruct symbols; [exact H|].
    destruct (Str.in_list _ _); exact H.
  - intros _ p' H'. apply keeps_advance_loop. exact H'.
Qed.

Lemma keeps_expression (p0 : Parser) (fuel : nat) :
  (forall rbp_ p, pclass p = pclass p0 ->
     keeps_class p0 (expression fuel rbp_ p)) /\
  (forall rbp_ left p, pclass p = pclass p0 ->
     keeps_class p0 (led_loop fuel rbp_ left p)).
Proof.
  induction fuel as [|fuel [IHe IHl]]; split; intros.
  - exact H.
  - exact H.
  - rewrite expression_S.
    apply keeps_bind; [apply keeps_advance; exact H|].
    intros _ p' H'. destruct (next_token p) as [t|]; [|exact H'].
    apply keeps_bind; [|intros; apply IHl; assumption].
    destruct (nud (cls_of t)); [exact H'|exact H'|].
    apply keeps_bind; [apply IHe; exact H'|]. intros; assumption.
  - rewrite led_loop_S.
    destruct (next_token p) as [t|]; [|exact H].
    destruct (Z.ltb _ _); [|exact H].
    apply keeps_bind; [apply keeps_advance; exact H|].
    intros _ p' H'.
    apply keeps_bind; [|intros; apply IHl; assumption].
    destruct (led (cls_of t)); [exact H'| |];
      (apply keeps_bind; [apply IHe; exact H'|]; intros; assumption).
Qed.

Lemma parse_keeps_class (p : Parser) (src : string) :
  pclass (state_after (parse p src)) = pclass p.
Proof.
  unfold parse.
  match goal with
  | |- pclass (state_after (finally_ ?m)) = _ =>
      assert (K : keeps_class p m); [|destruct m; exact K]
  end.
  cbn [pclass set_source]. destruct (tokenizer (pclass p)) as [tk|];
    [|reflexivity].
  apply keeps_bind; [apply keeps_advance; reflexivity|].
  intros _ p' H'.
  apply keeps_bind; [apply keeps_expression; exact H'|].
  intros root p2 H2. destruct (next_token p2) as [t|]; [|exact H2].
  destruct (String.eqb _ _); [exact H2|].
  apply keeps_bind; [exact H2|]. intros; assumption.
Qed.


(** [parse] resets neither [match] nor [next_match].  On a parser that has
    parsed [1 + 2], the parse of the empty source raises the error that a
    parser just made raises, for the same cause; but at the raise
    [position], from which [advance] formats the line and the column of
    the message, reads the match of [2] that the parse before has left:
    (1, 5) against (1, 0). *)
Example reused_parser_position :
  let used := state_after (parse (the_parser arith_class) "1 + 2") in
  parse_result used "" = Raised (ElementPathSyntaxError UnexpectedEnd) /\
  parse_result (the_parser arith_class) ""
  = Raised (ElementPathSyntaxError UnexpectedEnd) /\
  position (state_after (parse used "")) = Return (1, 5) /\
  position (state_after (parse (the_parser arith_class) "")) = Return (1, 0).
Proof. vm_compute. repeat split. Qed.

(** ** Failures of [parse] *)

(** The end of the source where an operand is due, and a token left over
    after the expression, are syntax errors. *)
Example parse_premature_end :
  parse_result (the_parser arith_class) "1 +"
  = Raised (ElementPathSyntaxError UnexpectedEnd).
Proof. vm_compute. reflexivity. Qed.

Example parse_trailing_input :
  parse_result (the_parser arith_class) "1 2"
  = Raised (ElementPathSyntaxError (UnexpectedToken (VInt 2))).
Proof. vm_compute. reflexivity. Qed.

(** ** Classes without a symbol of two characters or more

    [create_tokenizer] joins the escaped long symbols with a bar and puts
    the result before the class of the one-character symbols.  With no
    long symbol the join is empty: the symbol group begins with an empty
    alternative, which matches the empty text wherever no literal begins,
    and [advance] reads an operator without text, which no table holds. *)

(** C3. In the class where [+] is registered by [infix] at 10, [*] by
    [infix] at 20 and the integer literal by [literal], closed by [end()],
    the match after the first operand of [1 + 2 * 3] is an operator
    without text, and [parse] raises the syntax error of an unknown
    operator: no tree is returned. *)
Theorem precedence_without_long_symbol :
  is_infix (the_class minimal_class) "+" 10 /\
  is_infix (the_class minimal_class) "*" 20 /\
  is_literal (the_class minimal_class) "(integer)" /\
  ended (the_class minimal_class) /\
  init (the_class minimal_class) = Return (the_parser minimal_class) /\
  multi (tokenizer_of (the_class minimal_class)) = [] /\
  firstn 2 (finditer (tokenizer_of (the_class minimal_class)) "1 + 2 * 3")
    = [lit 0 1 "1"; op 1 1 EmptyString] /\
  parse_result (the_parser minimal_class) "1 + 2 * 3"
    = Raised (ElementPathSyntaxError (UnknownOperator EmptyString)) /\
  parse_tree (the_parser minimal_class) "1 + 2 * 3" = None.
Proof.
  split; [exists (class_of (the_class minimal_class) "+");
          vm_compute; repeat split; reflexivity|].
  split; [exists (class_of (the_class minimal_class) "*");
          vm_compute; repeat split; reflexivity|].
  split; [exists (class_of (the_class minimal_class) "(integer)");
          vm_compute; repeat split; reflexivity|].
  split; [exists (tokenizer_of (the_class minimal_class));
          vm_compute; split; reflexivity|].
  vm_compute. repeat split; reflexivity.
Qed.

(** C4. In the class where [+] is registered by [infix] and [^] by
    [infixr] at one binding power, whatever it is, next to the name
    literal, closed by [end()], the first match of [a + b + c] and of
    [a ^ b ^ c] is an operator without text, and [parse] raises the syntax
    error of an unknown operator on both: no tree is returned. *)
Theorem associativity_without_long_symbol (bp : Z) :
  is_infix (the_class (minimal_assoc_class bp)) "+" bp /\
  is_infixr (the_class (minimal_assoc_class bp)) "^" bp /\
  is_literal (the_class (minimal_assoc_class bp)) "(name)" /\
  ended (the_class (minimal_assoc_class bp)) /\
  init (the_class (minimal_assoc_class bp))
    = Return (the_parser (minimal_assoc_class bp)) /\
  multi (tokenizer_of (the_class (minimal_assoc_class bp))) = [] /\
  firstn 1 (finditer (tokenizer_of (the_class (minimal_assoc_class bp)))
                     "a + b + c")
    = [op 0 0 EmptyString] /\
  parse_result (the_parser (minimal_assoc_class bp)) "a + b + c"
    = Raised (ElementPathSyntaxError (UnknownOperator EmptyString)) /\
  parse_result (the_parser (minimal_assoc_class bp)) "a ^ b ^ c"
    = Raised (ElementPathSyntaxError (UnknownOperator EmptyString)) /\
  parse_tree (the_parser (minimal_assoc_class bp)) "a + b + c" = None /\
  parse_tree (the_parser (minimal_assoc_class bp)) "a ^ b ^ c" = None.
Proof.
  split; [exists (class_of (the_class (minimal_assoc_class bp)) "+");
          vm_compute; repeat split; reflexivity|].
  split; [exists (class_of (the_class (minimal_assoc_class bp)) "^");
          vm_compute; repeat split; reflexivity|].
  split; [exists (class_of (the_class (minimal_assoc_class bp)) "(name)");
          vm_compute; repeat split; reflexivity|].
  split; [exists (tokenizer_of (the_class (minimal_assoc_class bp)));
          vm_compute; split; reflexivity|].
  vm_compute. repeat split; reflexivity.
Qed.

(** C6. On the source [.5.5] the number pattern matches the whole text,
    [advance] hands it to [Decimal], and [parse] ends on the exception of
    the conversion, which is not a syntax error.  On [1 + 2 )] no
    alternative of the pattern matches the closing parenthesis, the scan
    passes over it, and [parse] returns the sum of 1 and 2. *)
Theorem parse_without_syntax_error :
  (parse_result (the_parser arith_class) ".5.5"
   = Raised (InvalidOperation ".5.5") /\
   is_syntax_error (InvalidOperation ".5.5") = false /\
   finditer (tokenizer_of (the_class arith_class)) ".5.5" = [lit 0 4 ".5.5"]) /\
  (parse_tree (the_parser arith_class) "1 + 2 )" = Some "(+ (1) (2))" /\
   map (fun m => (m_start m, m_end m))
       (finditer (tokenizer_of (the_class arith_class)) "1 + 2 )")
   = [(0, 1); (1, 2); (2, 3); (3, 4); (4, 5); (5, 6)]).
Proof. vm_compute. repeat split; reflexivity. Qed.

End TdopFacts.

(* ================================================================== *)
(** * Facts about xpath_nodes.py *)
(* ================================================================== *)

Module NodesFacts.

Import Nodes.
Local Open Scope list_scope.

(** ** The heap *)

Lemma set_nth_length (i : nat) (n : Node) (h : Heap) :
  List.length (set_nth i n h) = List.length h.
Proof.
  revert i. induction h as [|x h IH]; intros [|i]; cbn; auto.
Qed.

Lemma set_nth_same (i : nat) (n : Node) (h : Heap) :
  i < List.length h -> nth_error (set_nth i n h) i = Some n.
Proof.
  revert i. induction h as [|x h IH]; intros [|i] H; cbn in *;
    try lia; [reflexivity|]. apply IH. lia.
Qed.

Lemma set_nth_other (i j : nat) (n : Node) (h : Heap) :
  i <> j -> nth_error (set_nth i n h) j = nth_error h j.
Proof.
  revert i j. induction h as [|x h IH]; intros [|i] [|j] H; cbn;
    try reflexivity; try congruence.
  apply IH. congruence.
Qed.

Lemma nth_error_length {A : Type} (l : list A) (i : nat) (a : A) :
  nth_error l i = Some a -> i < List.length l.
Proof. intros H. apply nth_error_Some. congruence. Qed.

Lemma last_seq (a k d : nat) : last (seq a (S k)) d = a + k.
Proof.
  revert a. induction k as [|k IH]; intros a.
  - cbn. lia.
  - change (seq a (S (S k))) with (a :: seq (S a) (S k)).
    change (last (a :: seq (S a) (S k)) d) with (last (seq (S a) (S k)) d).
    rewrite IH. lia.
Qed.

(** ** The positions the two properties give *)

Lemma other_namespaces_position (owner : nat) (m : list (option string * string)) :
  forall (pos : Z) (k : nat) (n : Node),
    nth_error (other_namespaces owner pos m) k = Some n ->
    node_position n = VInt (pos + Z.of_nat k).
Proof.
  induction m as [|[pfx uri] m IH]; intros pos k n H; cbn in H.
  - destruct k; discriminate.
  - destruct (is_xml pfx); [exact (IH pos k n H)|].
    destruct k as [|k].
    + injection H as <-. cbn. f_equal. lia.
    + cbn in H. rewrite (IH (pos + 1)%Z k n H). f_equal. lia.
Qed.

Lemma attribute_nodes_position (owner : nat) (items : list (string * string)) :
  forall (pos : Z) (k : nat) (n : Node),
    nth_error (attribute_nodes owner pos items) k = Some n ->
    node_position n = VInt (pos + Z.of_nat k).
Proof.
  induction items as [|[name value] items IH]; intros pos k n H; cbn in H.
  - destruct k; discriminate.
  - destruct k as [|k].
    + injection H as <-. cbn. f_equal. lia.
    + cbn in H. rewrite (IH (pos + 1)%Z k n H). f_equal. lia.
Qed.

Lemma attribute_nodes_length (owner : nat) (items : list (string * string)) :
  forall pos, List.length (attribute_nodes owner pos items) = List.length items.
Proof.
  induction items as [|[name value] items IH]; intros pos; cbn;
    [reflexivity|]. rewrite IH. reflexivity.
Qed.

Lemma is_xml_true (pfx : option string) :
  is_xml pfx = true -> pfx = Some "xml"%string.
Proof.
  destruct pfx as [s|]; cbn; [|discriminate].
  intros H. apply String.eqb_eq in H. congruence.
Qed.

(** Without the key [xml] every entry of the map gives a node. *)
Lemma other_namespaces_all (owner : nat) (m : list (option string * string)) :
  ~ In (Some "xml"%string) (map fst m) ->
  forall pos,
    List.length (other_namespaces owner pos m) = List.length m /\
    existsb (fun kv => is_xml (fst kv)) m = false.
Proof.
  induction m as [|[pfx uri] m IH]; intros Hn pos; cbn; [auto|].
  cbn in Hn. destruct (is_xml pfx) eqn:E.
  - apply is_xml_true in E. tauto.
  - destruct (IH (fun H => Hn (or_intror H)) (pos + 1)%Z) as [H1 H2].
    cbn. rewrite H1, H2. auto.
Qed.

(** The namespace nodes are as many as [attributes] counts: the keys of
    the map (a dict has each key once) and the [xml] node when the map
    does not have it. *)
Lemma namespace_count (owner : nat) (m : list (option string * string)) :
  NoDup (map fst m) ->
  forall pos,
    (Z.of_nat (List.length (other_namespaces owner pos m)) + 1)%Z
    = attributes_offset m.
Proof.
  unfold attributes_offset.
  induction m as [|[pfx uri] m IH]; intros Hd pos; cbn [other_namespaces].
  - reflexivity.
  - cbn [map fst] in Hd. inversion Hd as [|? ? Hn Hd']; subst.
    cbn [existsb fst List.length]. destruct (is_xml pfx) eqn:E.
    + apply is_xml_true in E. subst pfx.
      destruct (other_namespaces_all owner m Hn pos) as [H1 H2].
      rewrite H1. cbn [orb]. lia.
    + cbn [orb List.length]. specialize (IH Hd' (pos + 1)%Z).
      destruct (existsb _ m); lia.
Qed.

(** C8. For an element node at position [z] whose two properties have not
    been read yet and whose element has an attribute: the first access to
    [namespace_nodes] builds the nodes and the later ones return them as
    they are, the same for [attributes]; the first namespace node is the
    one of the prefix [xml], at [z + 1]; and the first attribute node has
    the position of the last namespace node, so that the positions of
    the two lists overlap. *)
Theorem first_attribute_on_last_namespace
    (h : Heap) (addr : nat) (el : Element) (p x : Val) (z : Z)
    (m : list (option string * string)) (ch : list nat) :
  nth_error h addr
    = Some (ElementNode (VElement el) p (VInt z) x m None None ch) ->
  NoDup (map fst m) ->
  attrib el <> [] ->
  exists ns h1 ats h2,
    namespace_nodes addr h = Done ns h1 /\
    attributes addr h1 = Done ats h2 /\
    namespace_nodes addr h2 = Done ns h2 /\
    attributes addr h2 = Done ats h2 /\
    nth_error h2 (hd 0 ns)
      = Some (NamespaceNode (VStr "xml") (VStr XML_NAMESPACE) (VNode addr)
                            (VInt (z + 1))) /\
    position_at h2 (last ns 0) = Some (VInt (z + Z.of_nat (List.length ns))) /\
    position_at h2 (hd 0 ats) = Some (VInt (z + Z.of_nat (List.length ns))).
Proof.
  intros Hh Hd Ha.
  pose proof (nth_error_length _ _ _ Hh) as Hlt.
  unfold namespace_nodes at 1. rewrite Hh.
  set (others := other_namespaces addr (z + 2) m).
  set (xml := NamespaceNode (VStr "xml") (VStr XML_NAMESPACE) (VNode addr)
                            (VInt (z + 1))).
  set (ns := fresh (List.length h) (List.length (xml :: others))).
  set (e1 := ElementNode (VElement el) p (VInt z) x m (Some ns) None ch).
  set (h1 := set_nth addr e1 (h ++ xml :: others)).
  assert (L1 : List.length h1 = List.length h + S (List.length others)).
  { unfold h1. rewrite set_nth_length, length_app. reflexivity. }
  assert (E1 : nth_error h1 addr = Some e1).
  { unfold h1. apply set_nth_same. rewrite length_app. lia. }
  set (nodes := attribute_nodes addr (z + attributes_offset m) (attrib el)).
  set (ats := fresh (List.length h1) (List.length nodes)).
  set (e2 := ElementNode (VElement el) p (VInt z) x m (Some ns) (Some ats) ch).
  set (h2 := set_nth addr e2 (h1 ++ nodes)).
  assert (E2 : nth_error h2 addr = Some e2).
  { unfold h2. apply set_nth_same. rewrite length_app. lia. }
  assert (Hattr : attributes addr h1 = Done ats h2).
  { unfold attributes. rewrite E1. reflexivity. }
  assert (Hnodes : exists n rest, nodes = n :: rest).
  { unfold nodes. destruct (attrib el) as [|[name value] rest];
      [congruence|]. cbn. eauto. }
  destruct Hnodes as (n0 & rest & Hnodes).
  assert (Hn0 : node_position n0 = VInt (z + attributes_offset m)).
  { rewrite (attribute_nodes_position addr (attrib el)
               (z + attributes_offset m) 0 n0).
    - f_equal. lia.
    - fold nodes. rewrite Hnodes. reflexivity. }
  assert (Old : forall k, k < List.length others + 1 ->
                nth_error h2 (List.length h + k)
                = nth_error (xml :: others) k).
  { intros k Hk. unfold h2. rewrite set_nth_other by lia.
    rewrite nth_error_app1 by lia. unfold h1.
    rewrite set_nth_other by lia.
    rewrite nth_error_app2 by lia.
    replace (List.length h + k - List.length h) with k by lia.
    reflexivity. }
  exists ns, h1, ats, h2.
  split; [reflexivity|]. split; [exact Hattr|].
  split; [unfold namespace_nodes; rewrite E2; reflexivity|].
  split; [unfold attributes; rewrite E2; reflexivity|].
  assert (Lns : List.length ns = S (List.length others)).
  { unfold ns, fresh. rewrite length_seq. reflexivity. }
  split; [|split].
  - unfold ns, fresh. cbn [List.length seq hd].
    rewrite <- (Nat.add_0_r (List.length h)). rewrite Old by lia.
    reflexivity.
  - rewrite Lns. unfold ns, fresh. cbn [List.length]. rewrite last_seq.
    unfold position_at. rewrite Old by lia.
    destruct (List.length others) as [|k] eqn:Ek.
    + cbn. do 2 f_equal.
    + cbn [nth_error].
      destruct (nth_error others k) as [n|] eqn:En.
      * cbn [option_map]. unfold others in En.
        rewrite (other_namespaces_position addr m (z + 2) k n En).
        do 2 f_equal. lia.
      * apply nth_error_None in En. lia.
  - unfold ats, fresh. rewrite Hnodes. cbn [List.length seq hd].
    unfold position_at, h2. rewrite set_nth_other by lia.
    rewrite nth_error_app2 by lia. rewrite Nat.sub_diag, Hnodes.
    cbn [nth_error option_map]. rewrite Hn0, Lns.
    rewrite <- (namespace_count addr m Hd (z + 2)). fold others.
    do 2 f_equal. lia.
Qed.

Lemma first_attribute_on_last_namespace_witness :
  exists ns h1 ats h2,
    namespace_nodes 0 one_attribute_heap = Done ns h1 /\
    attributes 0 h1 = Done ats h2 /\
    namespace_nodes 0 h2 = Done ns h2 /\
    attributes 0 h2 = Done ats h2 /\
    nth_error h2 (hd 0 ns)
      = Some (NamespaceNode (VStr "xml") (VStr XML_NAMESPACE) (VNode 0)
                            (VInt (1 + 1))) /\
    position_at h2 (last ns 0) = Some (VInt (1 + Z.of_nat (List.length ns))) /\
    position_at h2 (hd 0 ats) = Some (VInt (1 + Z.of_nat (List.length ns))).
Proof.
  apply (first_attribute_on_last_namespace one_attribute_heap 0 one_attribute
           VNone VNone 1 [] []).
  - reflexivity.
  - constructor.
  - discriminate.
Defined.

(** On the element with one attribute and no namespace map, the [xml]
    namespace node and the attribute node are both at position 2. *)
Example one_attribute_positions :
  match namespace_nodes 0 one_attribute_heap with
  | Done ns h1 =>
      match attributes 0 h1 with
      | Done ats h2 => (positions h2 ns, positions h2 ats)
      | _ => ([], [])
      end
  | _ => ([], [])
  end = ([Some (VInt 2)], [Some (VInt 2)]).
Proof. vm_compute. reflexivity. Qed.

End NodesFacts.

(* ================================================================== *)
(** * Facts about xpath_context.py *)
(* ================================================================== *)

Module ContextFacts.

Import Nodes.
Import Context.
Local Open Scope list_scope.

(** ** _build_nodes *)

(** C1. No call of [_build_nodes] passes a position, and with the context
    as first argument the parent node lands on the [position] parameter:
    the node built for a child has its parent as position.  On the tree of
    A with the children B1 and B2 the root node has position 1 and both
    children have the root node (address 0) as position, not 2 and 3; from
    a document of the same tree the document node has the document as
    position. *)
Theorem built_positions :
  (forall elem parent, node_position (new_child elem parent) = VNode parent) /\
  root_and_children_positions (VElement tree_A)
    = Some (VInt 1, [Some (VNode 0); Some (VNode 0)]) /\
  root_and_children_positions (VDocument tree_A)
    = Some (VDocument tree_A, [Some (VNode 0)]).
Proof.
  split; [|split].
  - intros elem parent. unfold new_child. destruct (tag elem); reflexivity.
  - vm_compute. reflexivity.
  - vm_compute. reflexivity.
Qed.

(** ** The focus along a loop of yields *)



(** ** The axes that restore the focus *)

Lemma iter_self_restores (c : XPathContext) (h : Heap) :
  yielded (iter_self c h) = [item c] /\
  option_map focus (left_behind (iter_self c h)) = Some (focus c).
Proof. split; reflexivity. Qed.

Lemma iter_parent_restores (c : XPathContext) (h : Heap) :
  match iter_parent c h with
  | Exhausted _ c' _ => focus c' = focus c
  | _ => True
  end.
Proof.
  unfold iter_parent. destruct (first_parent false c h) as [[[]|]|]; cbn; auto.
Qed.


(** C2. On a context whose item is a backing comment or processing
    instruction and on which no axis is active, the child axis yields
    nothing and returns before the statement that restores the focus: the
    axis is left on [child]. *)
Theorem child_axis_not_restored (c : XPathContext) (h : Heap) (e : Element) :
  item c = VElement e -> callable (tag e) = true -> axis c = None ->
  iter_children_or_self c h = Exhausted [] (set_axis c (Some "child"%string)) h /\
  option_map focus (left_behind (iter_children_or_self c h))
    = Some (item c, position c, size c, Some "child"%string) /\
  option_map focus (left_behind (iter_children_or_self c h)) <> Some (focus c).
Proof.
  intros Hi Hc Ha.
  assert (E : iter_children_or_self c h
              = Exhausted [] (set_axis c (Some "child"%string)) h).
  { unfold iter_children_or_self. rewrite Ha. cbn [item set_axis].
    rewrite Hi. cbn [node_at]. rewrite Hc. reflexivity. }
  rewrite E. split; [reflexivity|]. split; [reflexivity|].
  unfold focus. cbn. rewrite Ha. intros H. discriminate H.
Qed.

Lemma child_axis_not_restored_witness :
  iter_children_or_self on_raw_comment chain_heap
    = Exhausted [] (set_axis on_raw_comment (Some "child"%string)) chain_heap /\
  option_map focus (left_behind (iter_children_or_self on_raw_comment chain_heap))
    = Some (item on_raw_comment, position on_raw_comment, size on_raw_comment,
            Some "child"%string) /\
  option_map focus (left_behind (iter_children_or_self on_raw_comment chain_heap))
    <> Some (focus on_raw_comment).
Proof.
  apply (child_axis_not_restored on_raw_comment chain_heap a_comment);
    reflexivity.
Defined.

(** ** The ancestor axis *)




(** An element node as item stops the axis: the node is asked for an
    attribute that its class does not have. *)
Lemma element_node_breaks (fuel : nat) (axis_ : option string)
    (c : XPathContext) (h : Heap) (a : nat)
    (elem parent pos x : Val) (m : list (option string * string))
    (ns ats : option (list nat)) (ch : list nat) :
  item c = VNode a ->
  nth_error h a = Some (ElementNode elem parent pos x m ns ats ch) ->
  iter_ancestors fuel axis_ c h = Broken (AttributeError "context") [] c h.
Proof.
  intros Hi Hn. unfold iter_ancestors, first_parent. rewrite Hi, Hn.
  reflexivity.
Qed.




End ContextFacts.

(* ================================================================== *)
(** * Facts about xpath_token.py *)
(* ================================================================== *)

Module XTokenFacts.

Import Nodes.
Import Context.
Import XToken.
Local Open Scope list_scope.

(** The default [evaluate] is the list of what [select] yields, whatever
    [select] is. *)
Lemma evaluate_default (depth : nat) (t : XPathToken)
    (context : option XPathContext) :
  own_evaluate t = None ->
  evaluate (S depth) t context
  = option_map (fun s => (PList (map fst (fst s)), snd s))
               (select depth t context).
Proof.
  intros H. cbn [evaluate]. rewrite H.
  destruct (select depth t context) as [[yields context']|]; reflexivity.
Qed.

(** A class that overrides neither method runs into the recursion limit,
    however high it is. *)
Lemma defaults_only_recurse (t : XPathToken) (context : option XPathContext) :
  own_evaluate t = None -> own_select t = None ->
  forall depth, evaluate depth t context = None /\ select depth t context = None.
Proof.
  intros He Hs. induction depth as [|d [IH1 IH2]].
  - cbn. rewrite He, Hs. auto.
  - cbn [evaluate select]. rewrite He, Hs, IH1, IH2. auto.
Qed.

Section Defaults.

Variables (depth : nat) (te ts : XPathToken).
Variable g : option XPathContext -> Selection.
Variable f : option XPathContext -> Py * option XPathContext.

Hypothesis te_evaluate : own_evaluate te = None.
Hypothesis te_select : own_select te = Some g.
Hypothesis ts_evaluate : own_evaluate ts = Some f.
Hypothesis ts_select : own_select ts = None.

Lemma evaluate_lists_select (context : option XPathContext) :
  exists yields context',
    select depth te context = Some (yields, context') /\
    evaluate (S depth) te context = Some (PList (map fst yields), context').
Proof.
  rewrite (evaluate_default depth te context te_evaluate).
  destruct depth; cbn [select]; rewrite te_select;
    destruct (g context) as [yields context']; eauto.
Qed.

Lemma select_one_with_context (c c' : XPathContext) (v : Val) :
  f (Some c) = (PVal v, Some c') -> v <> VNone ->
  select (S depth) ts (Some c)
  = Some ([(v, Some (set_item c' v))], Some (set_item c' v)).
Proof.
  intros H Hv. cbn [select]. rewrite ts_select.
  destruct depth; cbn [evaluate]; rewrite ts_evaluate, H;
    destruct v; try reflexivity; congruence.
Qed.

Lemma select_one_without_context (v : Val) :
  f None = (PVal v, None) -> v <> VNone ->
  select (S depth) ts None = Some ([(v, None)], None).
Proof.
  intros H Hv. cbn [select]. rewrite ts_select.
  destruct depth; cbn [evaluate]; rewrite ts_evaluate, H;
    destruct v; try reflexivity; congruence.
Qed.

Lemma select_list (context context' : option XPathContext) (items : list Val) :
  f context = (PList items, context') ->
  select (S depth) ts context
  = Some (map (fun x => (x, context')) items, context').
Proof.
  intros H. cbn [select]. rewrite ts_select.
  destruct depth; cbn [evaluate]; rewrite ts_evaluate, H; reflexivity.
Qed.

Lemma select_none (context context' : option XPathContext) :
  f context = (PVal VNone, context') ->
  select (S depth) ts context = Some ([], context').
Proof.
  intros H. cbn [select]. rewrite ts_select.
  destruct depth; cbn [evaluate]; rewrite ts_evaluate, H; reflexivity.
Qed.

End Defaults.

(** C9, as amended. For a token [te] that has its own [select] and
    inherits [evaluate]: [evaluate] returns the list of the items that
    [select] yields.  For a token [ts] that has its own [evaluate] and inherits
    [select]: a result that is neither [None] nor a list is yielded alone,
    with the item of the context, when there is one, set to it at the
    yield; the items of a list are yielded and the item of the context is
    not written; [None] yields nothing. *)
Theorem default_evaluate_and_select (depth : nat) (te ts : XPathToken)
    (g : option XPathContext -> Selection)
    (f : option XPathContext -> Py * option XPathContext) :
  own_evaluate te = None -> own_select te = Some g ->
  own_evaluate ts = Some f -> own_select ts = None ->
  (forall context,
     exists yields context',
       select depth te context = Some (yields, context') /\
       evaluate (S depth) te context
       = Some (PList (map fst yields), context')) /\
  (forall c c' v,
     f (Some c) = (PVal v, Some c') -> v <> VNone ->
     exists c'',
       select (S depth) ts (Some c) = Some ([(v, Some c'')], Some c'') /\
       item c'' = v /\
       (root c'', position c'', size c'', axis c'')
       = (root c', position c', size c', axis c')) /\
  (forall v,
     f None = (PVal v, None) -> v <> VNone ->
     select (S depth) ts None = Some ([(v, None)], None)) /\
  (forall context context' items,
     f context = (PList items, context') ->
     exists yields,
       select (S depth) ts context = Some (yields, context') /\
       map fst yields = items /\
       Forall (fun y => snd y = context') yields) /\
  (forall context context',
     f context = (PVal VNone, context') ->
     select (S depth) ts context = Some ([], context')).
Proof.
  intros He Hs Fe Fs. repeat split.
  - intros context. exact (evaluate_lists_select depth te g He Hs context).
  - intros c c' v H Hv. exists (set_item c' v).
    rewrite (select_one_with_context depth ts f Fe Fs c c' v H Hv). auto.
  - intros v H Hv. exact (select_one_without_context depth ts f Fe Fs v H Hv).
  - intros context context' items H. eexists. split.
    + exact (select_list depth ts f Fe Fs context context' items H).
    + split.
      * rewrite map_map. cbn. apply map_id.
      * apply Forall_map. cbn. apply Forall_forall. auto.
  - intros context context' H.
    exact (select_none depth ts f Fe Fs context context' H).
Qed.

Lemma default_evaluate_and_select_witness :
  evaluate 2 pair_token None = Some (PList [VInt 1; VInt 2], None) /\
  select 2 string_token (Some on_comment)
  = Some ([(VStr "abc", Some (set_item on_comment (VStr "abc")))],
          Some (set_item on_comment (VStr "abc"))).
Proof.
  destruct (default_evaluate_and_select 1 pair_token string_token
              (fun context => ([(VInt 1, context); (VInt 2, context)], context))
              (fun context => (PVal (VStr "abc"), context))
              eq_refl eq_refl eq_refl eq_refl)
    as (H1 & H2 & _).
  split.
  - destruct (H1 None) as (yields & context' & Hs & Hv).
    vm_compute in Hs. injection Hs as <- <-. exact Hv.
  - destruct (H2 on_comment on_comment (VStr "abc") eq_refl
                 ltac:(discriminate)) as (c'' & Hs & _).
    vm_compute in Hs. injection Hs as <-. vm_compute. reflexivity.
Defined.

(** C9, as stated, fails on a token of a class that overrides neither
    method, as [XPathToken] itself: the two defaults call each other, and
    whatever the recursion limit neither [evaluate] returns a list nor
    [select] yields anything; both end in RecursionError. *)
Lemma default_evaluate_counterexample :
  own_evaluate bare_token = None /\ own_select bare_token = None /\
  (forall depth context,
     evaluate depth bare_token context = None /\
     select depth bare_token context = None) /\
  evaluate 1000 bare_token None = None.
Proof.
  assert (H : forall depth context,
            evaluate depth bare_token context = None /\
            select depth bare_token context = None).
  { intros depth context.
    exact (defaults_only_recurse bare_token context eq_refl eq_refl depth). }
  repeat split; try apply H.
Qed.

End XTokenFacts.

(* ================================================================== *)
(** * More facts about the tokenizer of todp_parser.py *)
(* ================================================================== *)

Module TokenizerBounds.

Import Tdop.
Import TokenizerFacts.
Local Open Scope string_scope.
Local Open Scope list_scope.

(** X1. [create_tokenizer] raises the error of [re.compile] exactly when,
    stripped, none of the symbols is one character long: the class of
    characters of the pattern is then empty. *)
Theorem create_tokenizer_needs_short_symbol (symbols : list string) :
  create_tokenizer symbols = Raise BadPattern <->
  (forall s, In s (stripped_symbols symbols) -> multi_char s = true).
Proof.
  split.
  - intros H s Hs. destruct (multi_char s) eqn:E; [reflexivity|].
    destruct (create_tokenizer_compiles symbols s Hs E) as [tk Htk].
    congruence.
  - intros H. unfold create_tokenizer.
    destruct (sorted_partitioned (stripped_symbols symbols))
      as (a & b & E & Ha & Hb).
    rewrite E.
    assert (Hf : List.length (filter multi_char (a ++ b)) = List.length a).
    { rewrite filter_app, (filter_all _ _ Ha), (filter_none _ _ Hb), app_nil_r.
      reflexivity. }
    rewrite Hf, skipn_app, Nat.sub_diag, skipn_all, skipn_O. cbn [app].
    destruct b as [|x b]; [reflexivity|].
    assert (Hx : In x (stripped_symbols symbols)).
    { apply sorted_by_len_in. rewrite E. apply in_or_app. right. left.
      reflexivity. }
    inversion Hb as [|? ? Hx' _]; subst. rewrite (H x Hx) in Hx'. discriminate.
Qed.

Lemma drop_step (pos : nat) (src : string) (c : ascii) (rest : string) :
  Str.drop pos src = String c rest -> Str.drop (S pos) src = rest.
Proof.
  revert src. induction pos as [|pos IH]; intros src H; cbn in *.
  - subst src. reflexivity.
  - destruct src as [|d src]; [discriminate|]. apply IH. exact H.
Qed.

End TokenizerBounds.

(* ================================================================== *)
(** * More facts about the parser of todp_parser.py *)
(* ================================================================== *)

Module ParserFacts.

Import Tdop.
Import TokenizerFacts.
Import TdopFacts.
Import TokenizerBounds.
Local Open Scope string_scope.
Local Open Scope list_scope.

(** ** The symbol table *)

Lemma lookup_store_same (k : string) (v : TokenClass)
    (d : list (string * TokenClass)) :
  lookup k (store k v d) = Some v.
Proof.
  induction d as [|[k' w] d IH]; cbn.
  - rewrite String.eqb_refl. reflexivity.
  - destruct (String.eqb_spec k k') as [->|N]; cbn.
    + rewrite String.eqb_refl. reflexivity.
    + destruct (String.eqb_spec k k'); [contradiction|exact IH].
Qed.

Lemma lookup_store_other (k k' : string) (v : TokenClass)
    (d : list (string * TokenClass)) :
  k' <> k -> lookup k' (store k v d) = lookup k' d.
Proof.
  intros N. induction d as [|[k0 w] d IH]; cbn.
  - destruct (String.eqb_spec k' k); [contradiction|reflexivity].
  - destruct (String.eqb_spec k k0) as [->|N0]; cbn.
    + destruct (String.eqb_spec k' k0); [contradiction|reflexivity].
    + destruct (String.eqb k' k0); auto.
Qed.

(** The class that [register] returns is the one under the stripped
    symbol afterwards, and the other keys are left alone. *)
Lemma register_stores (c : ParserClass) (sym : string) (kw : Kwargs) :
  lookup (Str.strip sym) (symbol_table (fst (register c sym kw)))
    = Some (snd (register c sym kw)) /\
  (forall other, other <> Str.strip sym ->
     lookup other (symbol_table (fst (register c sym kw)))
     = lookup other (symbol_table c)).
Proof.
  unfold register.
  destruct (lookup (Str.strip sym) (symbol_table c)) as [tc|];
    cbn [fst snd symbol_table]; split;
    try apply lookup_store_same; intros other N;
    apply lookup_store_other; exact N.
Qed.

Lemma register_known (c : ParserClass) (sym : string) (kw : Kwargs)
    (old : TokenClass) :
  lookup (Str.strip sym) (symbol_table c) = Some old ->
  snd (register c sym kw)
  = mkTokenClass (symbol old)
      (Z.max (lbp old) (or_default (kw_lbp kw) (lbp old))) (rbp old)
      (or_default (kw_nud kw) (nud old)) (or_default (kw_led kw) (led old)) /\
  tokenizer (fst (register c sym kw)) = tokenizer c.
Proof.
  intros H. unfold register. rewrite H. cbn. split; [|reflexivity].
  f_equal. destruct (kw_lbp kw) as [v|]; cbn.
  - destruct (Z.ltb_spec (lbp old) v); lia.
  - lia.
Qed.

Lemma register_unknown (c : ParserClass) (sym : string) (kw : Kwargs) :
  lookup (Str.strip sym) (symbol_table c) = None ->
  snd (register c sym kw)
    = mkTokenClass (Str.strip sym) (or_default (kw_lbp kw) 0%Z)
        (or_default (kw_rbp kw) 0%Z) (or_default (kw_nud kw) NudDefault)
        (or_default (kw_led kw) LedDefault) /\
  tokenizer (fst (register c sym kw)) = None.
Proof. intros H. unfold register. rewrite H. cbn. split; reflexivity. Qed.

(** X3. Registering a known symbol again keeps its symbol and its right
    binding power, never lowers the left binding power (it becomes the
    greater of the old and the given one), replaces [nud] and [led] only
    when they are given, and keeps the compiled tokenizer of the class. *)
Theorem register_again (c : ParserClass) (sym : string) (kw : Kwargs)
    (old : TokenClass) :
  lookup (Str.strip sym) (symbol_table c) = Some old ->
  symbol (snd (register c sym kw)) = symbol old /\
  rbp (snd (register c sym kw)) = rbp old /\
  lbp (snd (register c sym kw))
    = Z.max (lbp old) (or_default (kw_lbp kw) (lbp old)) /\
  nud (snd (register c sym kw)) = or_default (kw_nud kw) (nud old) /\
  led (snd (register c sym kw)) = or_default (kw_led kw) (led old) /\
  lookup (Str.strip sym) (symbol_table (fst (register c sym kw)))
    = Some (snd (register c sym kw)) /\
  tokenizer (fst (register c sym kw)) = tokenizer c.
Proof.
  intros H. destruct (register_known c sym kw old H) as [E T].
  destruct (register_stores c sym kw) as [L _].
  rewrite E in *. cbn. repeat split; auto.
Qed.

Lemma register_again_witness :
  let c := the_class arith_class in
  let kw := mkKwargs (Some 5%Z) (Some 5%Z) (Some (NudPrefix 5)) None in
  let old := class_of c "+" in
  symbol (snd (register c " + " kw)) = symbol old /\
  rbp (snd (register c " + " kw)) = rbp old /\
  lbp (snd (register c " + " kw))
    = Z.max (lbp old) (or_default (kw_lbp kw) (lbp old)) /\
  nud (snd (register c " + " kw)) = or_default (kw_nud kw) (nud old) /\
  led (snd (register c " + " kw)) = or_default (kw_led kw) (led old) /\
  lookup (Str.strip " + ") (symbol_table (fst (register c " + " kw)))
    = Some (snd (register c " + " kw)) /\
  tokenizer (fst (register c " + " kw)) = tokenizer c.
Proof.
  intros c kw old. apply (register_again c " + " kw old).
  vm_compute. reflexivity.
Defined.

(** X4. A symbol registered as an infix operator and then as a prefix
    operator is both: it has the [led] of the first registration and the
    [nud] of the second, the greater of the two binding powers as left
    binding power, and the right binding power of the first
    registration. *)
Theorem prefix_after_infix (c : ParserClass) (sym : string) (b1 b2 : Z) :
  lookup (Str.strip sym) (symbol_table c) = None ->
  lookup (Str.strip sym) (symbol_table (prefix (infix c sym b1) sym b2))
  = Some (mkTokenClass (Str.strip sym) (Z.max b1 b2) b1 (NudPrefix b2)
                       (LedInfix b1)).
Proof.
  intros H. unfold prefix.
  destruct (register_stores (infix c sym b1) sym
              (mkKwargs (Some b2) (Some b2) (Some (NudPrefix b2)) None))
    as [E _].
  rewrite E. f_equal.
  unfold infix.
  pose proof (register_stores c sym
                (mkKwargs (Some b1) (Some b1) None (Some (LedInfix b1))))
    as [E1 _].
  destruct (register_unknown c sym
              (mkKwargs (Some b1) (Some b1) None (Some (LedInfix b1))) H)
    as (E2 & _).
  rewrite E2 in E1.
  destruct (register_known _ sym
              (mkKwargs (Some b2) (Some b2) (Some (NudPrefix b2)) None)
              _ E1) as (A & _).
  rewrite A. reflexivity.
Qed.

Lemma prefix_after_infix_witness :
  lookup (Str.strip " - ") (symbol_table (prefix (infix begin " - " 10) " - " 30))
  = Some (mkTokenClass (Str.strip " - ") (Z.max 10 30) 10 (NudPrefix 30)
                       (LedInfix 10)).
Proof. apply (prefix_after_infix begin " - " 10 30). reflexivity. Defined.

(** X5. After [end()] the class can be instantiated.  Registering a known
    symbol again leaves it so; registering a new symbol drops the
    tokenizer, and the constructor raises ValueError until [end()] is
    called again. *)
Theorem end_then_init (c c' : ParserClass) :
  end_ c = Return c' ->
  init c' = Return (fresh c') /\
  (forall sym kw old,
     lookup (Str.strip sym) (symbol_table c') = Some old ->
     init (fst (register c' sym kw)) = Return (fresh (fst (register c' sym kw)))) /\
  (forall sym kw,
     lookup (Str.strip sym) (symbol_table c') = None ->
     init (fst (register c' sym kw))
     = Raise (ValueError "Incomplete parser class registration")).
Proof.
  unfold end_.
  pose proof (register_stores c "(end)" no_kwargs) as [L _].
  change (Str.strip "(end)") with "(end)" in L.
  set (c1 := fst (register c "(end)" no_kwargs)) in *.
  set (tc := snd (register c "(end)" no_kwargs)) in *.
  clearbody c1 tc.
  destruct (create_tokenizer _) as [tk|e] eqn:E; [|discriminate].
  intros H. inversion H; subst c'. clear H.
  split; [|split].
  - unfold init, fresh. cbn. rewrite L. reflexivity.
  - intros sym kw old Ho. unfold register. cbn [symbol_table tokenizer].
    cbn [symbol_table] in Ho. rewrite Ho. unfold init, fresh. cbn.
    destruct (String.eqb_spec "(end)" (Str.strip sym)) as [Q|N].
    + rewrite <- Q, lookup_store_same. reflexivity.
    + rewrite lookup_store_other by exact N. rewrite L. reflexivity.
  - intros sym kw Hn. unfold register. cbn [symbol_table tokenizer].
    cbn [symbol_table] in Hn. rewrite Hn. unfold init. cbn.
    match goal with |- context [lookup ?k ?d] => destruct (lookup k d) end;
      reflexivity.
Qed.

Lemma end_then_init_witness :
  let c' := the_class arith_class in
  init c' = Return (fresh c') /\
  (forall sym kw old,
     lookup (Str.strip sym) (symbol_table c') = Some old ->
     init (fst (register c' sym kw)) = Return (fresh (fst (register c' sym kw)))) /\
  (forall sym kw,
     lookup (Str.strip sym) (symbol_table c') = None ->
     init (fst (register c' sym kw))
     = Raise (ValueError "Incomplete parser class registration")).
Proof.
  intros c'. apply (end_then_init (arith_symbols begin) c').
  vm_compute. reflexivity.
Defined.

(** X6. [alias] puts the class of a registered symbol under the stripped
    new symbol too, leaves the other keys and the tokenizer alone, and
    raises ElementPathKeyError when the other symbol is not registered. *)
Theorem alias_then_lookup (c : ParserClass) (symbol_ other : string) :
  match lookup other (symbol_table c) with
  | Some tc =>
      exists c', alias c symbol_ other = Return c' /\
        lookup (Str.strip symbol_) (symbol_table c') = Some tc /\
        (forall k, k <> Str.strip symbol_ ->
           lookup k (symbol_table c') = lookup k (symbol_table c)) /\
        tokenizer c' = tokenizer c
  | None => alias c symbol_ other = Raise (ElementPathKeyError other)
  end.
Proof.
  unfold alias. destruct (lookup other (symbol_table c)) as [tc|];
    [|reflexivity].
  eexists. split; [reflexivity|]. cbn. split; [apply lookup_store_same|].
  split; [|reflexivity]. intros k N. apply lookup_store_other. exact N.
Qed.

(** ** The source without a token *)

Lemma span_all (f : ascii -> bool) (s : string) :
  Str.all f s = true -> Str.span f s = String.length s.
Proof.
  induction s as [|c s IH]; cbn; [reflexivity|].
  destruct (f c); cbn; [|discriminate]. intros H. rewrite IH; auto.
Qed.

Lemma drop_all (s : string) : Str.drop (String.length s) s = "".
Proof. induction s as [|c s IH]; cbn; auto. Qed.

Lemma take_all (s : string) : Str.take (String.length s) s = s.
Proof. induction s as [|c s IH]; cbn; [reflexivity|]. rewrite IH. reflexivity. Qed.

Lemma strip_blank (s : string) : Str.all Str.is_space s = true -> Str.strip s = "".
Proof.
  intros H. unfold Str.strip, Str.strip_by, Str.lstrip_by.
  rewrite (span_all _ _ H), drop_all. reflexivity.
Qed.

Lemma blank_without (c : ascii) (s : string) :
  Str.is_space c = false -> Str.all Str.is_space s = true ->
  Str.mem c s = false.
Proof.
  intros Hc. induction s as [|b s IH]; cbn; [reflexivity|].
  destruct (Str.is_space b) eqn:E; cbn; [|discriminate].
  intros H. rewrite (IH H), orb_false_r.
  destruct (Ascii.eqb_spec c b); [congruence|reflexivity].
Qed.

Lemma blank_no_occurrence (s src : string) (c : ascii) :
  Str.head s = Some c -> Str.is_space c = false ->
  Str.all Str.is_space src = true -> occurs s src = false.
Proof.
  intros Hh Hc. destruct s as [|a s]; [discriminate|].
  cbn in Hh. inversion Hh; subst a.
  induction src as [|b src IH]; cbn; [reflexivity|].
  destruct (Str.is_space b) eqn:E; cbn; [|discriminate].
  intros H. destruct (Ascii.eqb_spec c b); [congruence|]. exact (IH H).
Qed.

Lemma blank_symbols_in (symbols : list string) (src : string) :
  Str.all Str.is_space src = true -> symbols_in symbols src [].
Proof.
  intros H s Hs Ho. exfalso.
  destruct s as [|c s']; [exact (stripped_nonempty _ _ Hs eq_refl)|].
  rewrite (blank_no_occurrence (String c s') src c eq_refl
             (stripped_head symbols _ c Hs eq_refl) H) in Ho.
  discriminate.
Qed.

(** What a blank is not. *)
Lemma blank_char (c : ascii) :
  Str.is_space c = true ->
  Str.is_digit c = false /\ is_name_char c = false /\
  Ascii.eqb c squote = false /\ Ascii.eqb c dquote = false /\
  Ascii.eqb c "."%char = false /\ Ascii.eqb c "{"%char = false.
Proof.
  destruct c as [[] [] [] [] [] [] [] []]; vm_compute; intros H;
    try discriminate H; repeat split.
Qed.

Section Blank.

Variables (symbols : list string) (tk : Tokenizer) (src : string).
Hypothesis compiled : create_tokenizer symbols = Return tk.
Hypothesis some_long : has_long_symbol symbols.
Hypothesis blank_src : Str.all Str.is_space src = true.

Lemma blank_symbol_at (prev : option ascii) (i : nat) :
  match_symbol tk prev (Str.drop i src) = None.
Proof.
  rewrite (plain_symbol symbols tk src [] compiled
             (blank_without "(" src eq_refl blank_src)
             (blank_without ":" src eq_refl blank_src)
             some_long (blank_symbols_in symbols src blank_src) eq_refl).
  destruct (Str.drop i src) as [|c rest] eqn:E; [reflexivity|].
  destruct (Str.in_list _ _) eqn:Hin; [|reflexivity].
  apply in_list_iff in Hin.
  pose proof (stripped_head symbols _ c Hin eq_refl) as Hc.
  assert (Hm : Str.mem c src = true).
  { apply (StrFacts.drop_mem c i). rewrite E. cbn.
    rewrite Ascii.eqb_refl. reflexivity. }
  rewrite (blank_without c src Hc blank_src) in Hm. discriminate.
Qed.

Lemma scan_skips (prev : option ascii) (pos : nat) :
  forall text i, Str.drop i src = text ->
    scan tk prev pos (String.length text) text = [].
Proof.
  intros text. revert prev pos.
  induction text as [|c rest IH]; intros prev pos i Hd.
  - cbn [String.length scan]. unfold match_at.
    change (match_literal "") with (@None nat).
    pose proof (blank_symbol_at prev i) as S0. rewrite Hd in S0.
    rewrite S0. reflexivity.
  - cbn [String.length scan]. apply (IH _ _ (S i)).
    revert Hd. clear. revert src. induction i as [|i IHi]; intros s H; cbn in *.
    + subst s. reflexivity.
    + destruct s as [|d s]; [discriminate|]. apply IHi. exact H.
Qed.

Lemma blank_tokens :
  finditer tk src
  = match src with
    | EmptyString => []
    | _ => [blank 0 (String.length src)]
    end.
Proof.
  unfold finditer.
  pose proof scan_skips as SK.
  pose proof (blank_symbol_at None 0) as S0. cbn [Str.drop] in S0.
  pose proof blank_src as B.
  pose proof (span_all _ _ blank_src) as SA.
  pose proof (take_all src) as TA.
  destruct src as [|c rest].
  - exact (SK None 0 "" 0 eq_refl).
  - cbn [Str.all] in B. apply andb_true_iff in B. destruct B as [Hc Hr].
    destruct (blank_char c Hc) as (D & N & Q1 & Q2 & P & Br).
    assert (M : match_at tk None (String c rest)
                = Some (String.length (String c rest), GBlank)).
    { unfold match_at.
      assert (L : match_literal (String c rest) = None).
      { unfold match_literal, match_quoted, match_number.
        rewrite Q1, Q2. cbn [Str.span]. rewrite D. cbn.
        destruct c as [[] [] [] [] [] [] [] []]; try reflexivity;
          discriminate P. }
      rewrite L, S0.
      assert (Nm : match_name (String c rest) = None).
      { unfold match_name, match_braced. cbn [Str.span].
        rewrite N. cbn.
        destruct c as [[] [] [] [] [] [] [] []]; try reflexivity;
          discriminate Br. }
      rewrite Nm. unfold match_blanks. rewrite SA. reflexivity. }
    cbn [scan]. rewrite M. cbn [make_match pred String.length].
    unfold blank. cbn [Nat.add].
    f_equal. exact (SK (Some c) 1 rest 1 eq_refl).
Qed.

End Blank.

Lemma expression_at_end (fuel : nat) (rbp_ : Z) (p : Parser) (t : Token) :
  next_token p = Some t -> symbol (cls_of t) = "(end)" ->
  expression (S fuel) rbp_ p = Err (ElementPathSyntaxError UnexpectedEnd) p.
Proof.
  intros Hn Hs. rewrite expression_S. unfold advance. rewrite Hn.
  cbn [is_end]. rewrite Hs. reflexivity.
Qed.

(** X8. On a source that is empty or made of blanks only, [parse] raises
    the syntax error of an unexpected end of the source. *)
Theorem parse_blank_source (c : ParserClass) (p : Parser) (src : string) :
  init c = Return p ->
  ended c ->
  has_long_symbol (tokenizer_symbols c) ->
  end_registered c ->
  Str.all Str.is_space src = true ->
  parse_result p src = Raised (ElementPathSyntaxError UnexpectedEnd).
Proof.
  intros Hi (tk & Htk & Hc) Hl (e & Le & Se) Hb.
  apply init_fresh in Hi. subst p.
  unfold parse_result, parse. state. rewrite Htk.
  rewrite (blank_tokens (tokenizer_symbols c) tk src Hc Hl Hb).
  assert (A : exists q t,
            advance [] (mkParser c None None None None
                          match src with
                          | "" => []
                          | _ => [blank 0 (String.length src)]
                          end src) = Ok tt q /\
            next_token q = Some t /\ symbol (cls_of t) = "(end)").
  { rewrite advance_unfold by reflexivity. state.
    destruct src as [|ch rest] eqn:E.
    - rewrite (loop_end _ e) by exact Le. state.
      eexists. eexists. split; [reflexivity|]. split; [reflexivity|].
      exact Se.
    - rewrite loop_blank; try reflexivity.
      + state. rewrite (loop_end _ e) by exact Le. state.
        eexists. eexists. split; [reflexivity|]. split; [reflexivity|].
        exact Se.
      + state. unfold group, blank. cbn [m_start m_end Str.drop].
        rewrite Nat.sub_0_r, take_all. apply strip_blank. exact Hb. }
  destruct A as (q & t & Ha & Hn & Hs). rewrite Ha, bind_Ok.
  rewrite (expression_at_end _ _ q t Hn Hs). reflexivity.
Qed.

Lemma parse_blank_source_witness :
  parse_result (the_parser arith_class) "   "
  = Raised (ElementPathSyntaxError UnexpectedEnd).
Proof.
  apply (parse_blank_source (the_class arith_class)).
  - vm_compute. reflexivity.
  - exists (tokenizer_of (the_class arith_class)).
    vm_compute. split; reflexivity.
  - exists "<="%string. vm_compute. split; [tauto|reflexivity].
  - exists (class_of (the_class arith_class) "(end)").
    vm_compute. split; reflexivity.
  - reflexivity.
Defined.

(** ** The position of the current token *)

Lemma count_append (c : ascii) (s t : string) :
  Str.count c (s ++ t) = Str.count c s + Str.count c t.
Proof. induction s as [|a s IH]; cbn; [reflexivity|]. rewrite IH. lia. Qed.

Lemma count_none (c : ascii) (s : string) :
  Str.mem c s = false -> Str.count c s = 0.
Proof.
  induction s as [|a s IH]; cbn; [reflexivity|].
  destruct (Ascii.eqb c a); cbn; [discriminate|]. exact IH.
Qed.

Lemma rindex_none (c : ascii) (s : string) :
  Str.mem c s = false -> rindex c s = None.
Proof.
  induction s as [|a s IH]; cbn; [reflexivity|].
  destruct (Ascii.eqb c a); cbn; [discriminate|].
  intros H. rewrite (IH H). reflexivity.
Qed.

Lemma length_append (s t : string) :
  String.length (s ++ t) = String.length s + String.length t.
Proof. induction s as [|a s IH]; cbn; [reflexivity|]. rewrite IH. reflexivity. Qed.

(** The last occurrence in a text that ends a line and goes on without
    the character. *)
Lemma rindex_last (c : ascii) (pre cur : string) :
  Str.last pre = Some c -> Str.mem c cur = false ->
  rindex c (pre ++ cur) = Some (String.length pre - 1).
Proof.
  intros Hl Hc. induction pre as [|a pre IH]; [discriminate|].
  destruct pre as [|b pre].
  - cbn in Hl. inversion Hl; subst a. cbn.
    rewrite (rindex_none c cur Hc), Ascii.eqb_refl. reflexivity.
  - change (Str.last (String a (String b pre))) with (Str.last (String b pre)) in Hl.
    specialize (IH Hl).
    change ((String a (String b pre) ++ cur)%string)
      with (String a (String b pre ++ cur)%string).
    cbn [rindex]. rewrite IH. cbn. f_equal. lia.
Qed.

Lemma count_last (c : ascii) (pre : string) :
  Str.last pre = Some c -> 1 <= Str.count c pre.
Proof.
  induction pre as [|a pre IH]; [discriminate|].
  destruct pre as [|b pre].
  - cbn. intros H. inversion H. rewrite Ascii.eqb_refl. lia.
  - intros H.
    change (Str.last (String a (String b pre))) with (Str.last (String b pre)) in H.
    specialize (IH H). cbn [Str.count] in *. lia.
Qed.

Lemma take_length (n : nat) (s : string) :
  n <= String.length s -> String.length (Str.take n s) = n.
Proof.
  revert s. induction n as [|n IH]; intros s H; cbn; [reflexivity|].
  destruct s as [|c s]; cbn in *; [lia|]. rewrite IH; lia.
Qed.

Lemma slice_from_0 (j : nat) (s : string) : slice 0 j s = Str.take j s.
Proof. unfold slice. rewrite Nat.sub_0_r. reflexivity. Qed.

Lemma drop_append (s t : string) : Str.drop (String.length s) (s ++ t) = t.
Proof. induction s as [|a s IH]; cbn; [reflexivity|]. exact IH. Qed.

Lemma drop_take (a n : nat) (s : string) :
  Str.drop a (Str.take n s) = Str.take (n - a) (Str.drop a s).
Proof.
  revert n s. induction a as [|a IH]; intros n s.
  - rewrite Nat.sub_0_r. reflexivity.
  - destruct n as [|n]; destruct s as [|c s]; cbn; try reflexivity.
    + destruct (n - a); reflexivity.
    + apply IH.
Qed.

Lemma rev_onto_empty (s acc : string) :
  Str.rev_onto s acc = "" -> s = "" /\ acc = "".
Proof.
  revert acc. induction s as [|c s IH]; intros acc H; cbn in H; [auto|].
  destruct (IH _ H) as [_ E]. discriminate E.
Qed.

Lemma all_rev_onto (f : ascii -> bool) (s acc : string) :
  Str.all f (Str.rev_onto s acc) = Str.all f s && Str.all f acc.
Proof.
  revert acc. induction s as [|c s IH]; intros acc; cbn; [reflexivity|].
  rewrite IH. cbn. destruct (f c), (Str.all f s); reflexivity.
Qed.

Lemma all_lstrip (f : ascii -> bool) (s : string) :
  Str.all f (Str.lstrip_by f s) = true -> Str.all f s = true.
Proof.
  unfold Str.lstrip_by. induction s as [|c s IH]; cbn; [auto|].
  destruct (f c) eqn:E; cbn; [exact IH|]. rewrite E. auto.
Qed.

(** [strip] leaves nothing only of a blank text. *)
Lemma strip_empty (s : string) :
  Str.strip s = "" -> Str.all Str.is_space s = true.
Proof.
  unfold Str.strip, Str.strip_by, Str.rev. intros H.
  apply rev_onto_empty in H. destruct H as [H _].
  apply all_lstrip.
  assert (A : Str.all Str.is_space
                (Str.rev_onto (Str.lstrip_by Str.is_space s) "") = true).
  { apply all_lstrip. rewrite H. reflexivity. }
  rewrite all_rev_onto, andb_true_r in A. exact A.
Qed.

Lemma strip_is_empty (s : string) :
  match Str.strip s with EmptyString => true | _ => false end
  = Str.all Str.is_space s.
Proof.
  destruct (Str.all Str.is_space s) eqn:B.
  - rewrite (strip_blank _ B). reflexivity.
  - destruct (Str.strip s) eqn:S; [|reflexivity].
    rewrite (strip_empty _ S) in B. discriminate B.
Qed.

(** X22. For a current match that starts in the source, after the lines
    [pre] and the text [cur] of its own line, [position] does not raise
    and returns the number of the line, one more than the newlines of
    [pre], and the column, one more than the length of [cur]. *)
Theorem position_line_and_column (p : Parser) (m : Match) (pre cur : string) :
  match_ p = Some m ->
  m_start m <= String.length (source p) ->
  Str.take (m_start m) (source p) = (pre ++ cur)%string ->
  pre = "" \/ Str.last pre = Some newline ->
  Str.mem newline cur = false ->
  position p = Return (Str.count newline pre + 1, String.length cur + 1).
Proof.
  intros Hm Hle Ht Hp Hc. unfold position. rewrite Hm. cbv zeta.
  rewrite slice_from_0.
  pose proof (take_length _ _ Hle) as L. rewrite Ht in *.
  rewrite length_append in L.
  rewrite count_append, (count_none _ _ Hc), Nat.add_0_r.
  destruct Hp as [->|Hl].
  - cbn in *. f_equal. f_equal. lia.
  - pose proof (count_last _ _ Hl) as Hn.
    destruct (Nat.eqb_spec (Str.count newline pre + 1) 1); [lia|].
    rewrite (rindex_last _ _ _ Hl Hc). f_equal. f_equal.
    destruct pre; [discriminate|]. cbn in *. lia.
Qed.

Lemma position_line_and_column_witness :
  position on_second_line = Return (2, 2).
Proof.
  apply (position_line_and_column on_second_line (nm 3 4 "b")
           ("a" ++ String newline "") " ").
  - reflexivity.
  - vm_compute. lia.
  - reflexivity.
  - right. reflexivity.
  - reflexivity.
Defined.

(** X23. With the same split of the source before the current match:
    [source_first] tells whether only blanks come before the token;
    [line_first] raises ValueError for a token of the first line, and on a
    later line tells whether only blanks come before the token on its
    line. *)
Theorem line_first_after_newline (p : Parser) (m : Match) (pre cur : string) :
  match_ p = Some m ->
  m_start m <= String.length (source p) ->
  Str.take (m_start m) (source p) = (pre ++ cur)%string ->
  Str.mem newline cur = false ->
  source_first p = Str.all Str.is_space (pre ++ cur) /\
  (pre = "" -> exists text, line_first p = Raise (ValueError text)) /\
  (Str.last pre = Some newline ->
   line_first p = Return (Str.all Str.is_space cur)).
Proof.
  intros Hm Hle Ht Hc. unfold source_first, line_first. rewrite Hm. cbv zeta.
  rewrite slice_from_0, Ht. split; [apply strip_is_empty|]. split.
  - intros ->. change ("" ++ cur)%string with cur.
    rewrite (rindex_none _ _ Hc). eauto.
  - intros Hl. rewrite (rindex_last _ _ _ Hl Hc).
    pose proof (take_length _ _ Hle) as L. rewrite Ht, length_append in L.
    assert (E : String.length pre - 1 + 1 = String.length pre).
    { destruct pre; [discriminate|]. cbn. lia. }
    unfold slice. rewrite E, <- drop_take, Ht, drop_append.
    rewrite <- strip_is_empty. destruct (Str.strip cur); reflexivity.
Qed.

Lemma line_first_after_newline_witness :
  source_first on_second_line
    = Str.all Str.is_space (("a" ++ String newline "") ++ " ") /\
  (("a" ++ String newline "")%string = "" ->
   exists text, line_first on_second_line = Raise (ValueError text)) /\
  (Str.last ("a" ++ String newline "") = Some newline ->
   line_first on_second_line = Return (Str.all Str.is_space " ")).
Proof.
  apply (line_first_after_newline on_second_line (nm 3 4 "b")
           ("a" ++ String newline "") " ").
  - reflexivity.
  - vm_compute. lia.
  - reflexivity.
  - reflexivity.
Defined.

(** ** Token.iter *)

Lemma iter_unfold (t : Token) :
  iter t = match operands_of t with
           | [] => [t]
           | first :: rest => (iter first ++ t :: flat_map iter rest)%list
           end.
Proof. destruct t as [c v [|first rest]]; reflexivity. Qed.

Lemma tokens_below_unfold (t : Token) :
  tokens_below t = t :: flat_map tokens_below (operands_of t).
Proof. destruct t as [c v ops]. reflexivity. Qed.

(** Induction on a token, with the property of its operands at hand. *)
Lemma Token_nested (P : Token -> Prop) :
  (forall t, Forall P (operands_of t) -> P t) -> forall t, P t.
Proof.
  intros step. fix IH 1. intros [c v ops]. apply step. cbn.
  induction ops as [|x l IHl]; constructor; [apply IH|exact IHl].
Qed.

Lemma flat_map_permutation (l : list Token) :
  Forall (fun t => Permutation (iter t) (tokens_below t)) l ->
  Permutation (flat_map iter l) (flat_map tokens_below l).
Proof.
  induction 1 as [|x l H _ IH]; cbn; [constructor|].
  apply Permutation_app; assumption.
Qed.

(** X7. [iter] yields the token and every token below it, each one once:
    what it yields is a rearrangement of the tokens of the tree. *)
Theorem iter_visits_each_token_once (t : Token) :
  Permutation (iter t) (tokens_below t).
Proof.
  induction t as [t IH] using Token_nested.
  rewrite iter_unfold, tokens_below_unfold.
  destruct (operands_of t) as [|first rest]; [constructor; constructor|].
  inversion IH as [|? ? H1 H2]; subst.
  cbn [flat_map]. apply Permutation_sym, Permutation_cons_app, Permutation_sym.
  apply Permutation_app; [exact H1|]. apply flat_map_permutation. exact H2.
Qed.

End ParserFacts.

(* ================================================================== *)
(** * Literals, operators and binding powers *)
(* ================================================================== *)

Module ExpressionFacts.

Import Tdop.
Import StrFacts.
Import TokenizerFacts.
Import TdopFacts.
Import TokenizerBounds.
Import ParserFacts.
Local Open Scope string_scope.

(** ** A text of digits *)

(** What a digit is not. *)
Lemma digit_char (c : ascii) :
  Str.is_digit c = true ->
  is_quote c = false /\ Ascii.eqb c squote = false /\
  Ascii.eqb c dquote = false /\
  Ascii.eqb "e"%char c = false /\ Ascii.eqb "E"%char c = false /\
  Ascii.eqb "."%char c = false /\ Ascii.eqb "("%char c = false /\
  Ascii.eqb ":"%char c = false.
Proof.
  destruct c as [[] [] [] [] [] [] [] []]; vm_compute; intros H;
    try discriminate H; repeat split.
Qed.

Lemma digits_without (c : ascii) (s : string) :
  Str.is_digit c = false -> Str.all Str.is_digit s = true ->
  Str.mem c s = false.
Proof.
  intros Hc. induction s as [|d s IH]; cbn; [reflexivity|].
  destruct (Str.is_digit d) eqn:E; cbn; [|discriminate].
  intros H. rewrite (IH H), orb_false_r.
  destruct (Ascii.eqb_spec c d); [congruence|reflexivity].
Qed.

Lemma digits_integer_text (s : string) :
  s <> "" -> Str.all Str.is_digit s = true -> integer_text s = true.
Proof.
  intros Hn Hd. unfold integer_text. destruct s as [|c s]; [congruence|].
  pose proof Hd as Hd'. cbn [Str.all] in Hd'.
  apply andb_true_iff in Hd'. destruct Hd' as [Hc _].
  destruct (digit_char c Hc) as (Q & _).
  rewrite Q, (digits_without "e" _ eq_refl Hd),
    (digits_without "E" _ eq_refl Hd), (digits_without "." _ eq_refl Hd).
  reflexivity.
Qed.

Lemma span_append (f : ascii -> bool) (s rest : string) :
  Str.all f s = true ->
  match rest with String c _ => f c = false | EmptyString => True end ->
  Str.span f (s ++ rest) = String.length s.
Proof.
  intros Hs Hr. induction s as [|c s IH]; cbn in *.
  - destruct rest as [|c r]; [reflexivity|]. cbn. rewrite Hr. reflexivity.
  - apply andb_true_iff in Hs. destruct Hs as [Hc Hs]. rewrite Hc, IH; auto.
Qed.

Lemma digits_literal (digits rest : string) :
  digits <> "" -> Str.all Str.is_digit digits = true ->
  number_stops rest = true ->
  match_literal (digits ++ rest) = Some (String.length digits).
Proof.
  intros Hn Hd Hr.
  assert (Hsp : Str.span Str.is_digit (digits ++ rest) = String.length digits).
  { apply span_append; [exact Hd|]. destruct rest as [|c r]; [exact I|].
    cbn in Hr. destruct (Str.is_digit c); [discriminate|reflexivity]. }
  assert (Hq : match_quoted squote (digits ++ rest) = None /\
               match_quoted dquote (digits ++ rest) = None /\
               Nat.ltb 0 (String.length digits) = true).
  { destruct digits as [|c s]; [congruence|].
    pose proof Hd as Hd'. cbn [Str.all] in Hd'.
    apply andb_true_iff in Hd'. destruct Hd' as [Hc _].
    destruct (digit_char c Hc) as (_ & Q1 & Q2 & _).
    change ((String c s ++ rest)%string) with (String c (s ++ rest)%string).
    unfold match_quoted. rewrite Q1, Q2. auto. }
  destruct Hq as (Q1 & Q2 & Hpos).
  unfold match_literal, match_number. rewrite Q1, Q2, Hsp, Hpos.
  rewrite drop_append.
  assert (F : match_fraction rest = 0).
  { destruct rest as [|d r]; [reflexivity|]. cbn in Hr.
    unfold match_fraction.
    destruct d as [[] [] [] [] [] [] [] []]; try reflexivity.
    cbn in Hr. rewrite orb_true_r in Hr. discriminate. }
  rewrite F, Nat.add_0_r, drop_append.
  assert (X : match_exponent rest = 0).
  { destruct rest as [|d r]; [reflexivity|]. cbn in Hr.
    unfold match_exponent.
    destruct (Ascii.eqb d "E"); [rewrite !orb_true_r in Hr; discriminate|].
    destruct (Ascii.eqb d "e"); [rewrite !orb_true_r in Hr; discriminate|].
    reflexivity. }
  rewrite X, Nat.add_0_r. reflexivity.
Qed.


Lemma take_append (s t : string) : Str.take (String.length s) (s ++ t) = s.
Proof.
  induction s as [|a s IH]; cbn; [destruct t; reflexivity|].
  rewrite IH. reflexivity.
Qed.

Lemma last_of_digits (c : ascii) (s : string) :
  exists d, Str.last (String c s) = Some d.
Proof.
  revert c. induction s as [|a s IH]; intros c; [exists c; reflexivity|].
  destruct (IH a) as [d E]. exists d. exact E.
Qed.

Lemma last_of_cons (c : ascii) (a : string) (prev : option ascii) :
  last_of (String c a) prev = last_of a (Some c).
Proof.
  unfold last_of. destruct a as [|a s]; [reflexivity|].
  change (Str.last (String c (String a s))) with (Str.last (String a s)).
  destruct (last_of_digits a s) as [d E]. rewrite E. reflexivity.
Qed.

Lemma scan_over (tk : Tokenizer) (a rest : string) :
  forall (prev : option ascii) (pos : nat),
    scan tk prev pos (String.length a) (a ++ rest)
    = scan tk (last_of a prev) (pos + String.length a) 0 rest.
Proof.
  induction a as [|c a IH]; intros prev pos.
  - cbn [String.length append]. rewrite Nat.add_0_r. reflexivity.
  - cbn [String.length]. change ((String c a ++ rest)%string)
      with (String c (a ++ rest)%string).
    cbn [scan]. rewrite IH, last_of_cons. f_equal. lia.
Qed.

Lemma scan_digits (tk : Tokenizer) (digits rest : string)
    (prev : option ascii) (pos : nat) :
  digits <> "" -> Str.all Str.is_digit digits = true ->
  number_stops rest = true ->
  scan tk prev pos 0 (digits ++ rest)
  = lit pos (pos + String.length digits) digits
    :: scan tk (Str.last digits) (pos + String.length digits) 0 rest.
Proof.
  intros Hn Hd Hr.
  pose proof (digits_literal digits rest Hn Hd Hr) as L.
  pose proof (take_append digits rest) as T.
  destruct digits as [|c s]; [congruence|].
  change ((String c s ++ rest)%string) with (String c (s ++ rest)%string) in *.
  cbn [scan]. unfold match_at. rewrite L.
  cbn [make_match]. rewrite T. unfold lit. f_equal.
  cbn [String.length pred]. rewrite scan_over. f_equal.
  - rewrite <- last_of_cons with (prev := None). unfold last_of.
    destruct (last_of_digits c s) as [d E]. rewrite E. reflexivity.
  - lia.
Qed.

Section AtTheEnd.

Variables (symbols : list string) (tk : Tokenizer).
Hypothesis compiled : create_tokenizer symbols = Return tk.
Hypothesis some_long : has_long_symbol symbols.

Lemma nothing_at_the_end (prev : option ascii) : match_at tk prev "" = None.
Proof.
  unfold match_at. change (match_literal "") with (@None nat).
  pose proof (blank_symbol_at symbols tk "" compiled some_long eq_refl prev 0)
    as S0.
  cbn [Str.drop] in S0. rewrite S0. reflexivity.
Qed.

Lemma digits_tokens (digits : string) :
  digits <> "" -> Str.all Str.is_digit digits = true ->
  finditer tk digits = [lit 0 (String.length digits) digits].
Proof.
  intros Hn Hd. unfold finditer.
  pose proof (scan_digits tk digits "" None 0 Hn Hd eq_refl) as S0.
  assert (E : (digits ++ "")%string = digits).
  { clear. induction digits as [|c s IH]; cbn; [reflexivity|].
    rewrite IH. reflexivity. }
  rewrite E in S0. rewrite S0. cbn [Nat.add scan].
  rewrite nothing_at_the_end. reflexivity.
Qed.

End AtTheEnd.

(** X9. In a class closed by [end()] that has a symbol of two characters
    or more, the integer literal and the end marker, the parse of a text
    of decimal digits returns the token of the integer literal, without
    operands, whose value is the number the digits write. *)
Theorem parse_integer_literal (c : ParserClass) (p : Parser)
    (tc : TokenClass) (digits : string) :
  init c = Return p -> ended c ->
  has_long_symbol (tokenizer_symbols c) ->
  registered c "(integer)" tc -> nud tc = NudLiteral -> has_end c ->
  digits <> "" -> Str.all Str.is_digit digits = true ->
  parse_result p digits
  = Returned (mkToken tc (VInt (Str.int_of_digits 0 digits)) []).
Proof.
  intros Hi (tk & Htk & Hc) Hl [Li Si] Ni (e & [Le Se] & Be) Hn Hd.
  apply init_fresh in Hi. subst p.
  pose proof (digits_integer_text digits Hn Hd) as Ht.
  unfold parse_result, parse. state. rewrite Htk.
  rewrite (digits_tokens (tokenizer_symbols c) tk Hc Hl digits Hn Hd).
  cbn [List.length].
  repeat parser_step ltac:(rewrite ?Li, ?Le, ?Ni, ?Se, ?Si, ?Be, ?Ht).
  cbn [finally_ result]. reflexivity.
Qed.

Lemma parse_integer_literal_witness :
  parse_result (the_parser arith_class) "0042"
  = Returned (mkToken (class_of (the_class arith_class) "(integer)")
                      (VInt (Str.int_of_digits 0 "0042")) []).
Proof.
  apply (parse_integer_literal (the_class arith_class)).
  - vm_compute. reflexivity.
  - exists (tokenizer_of (the_class arith_class)).
    vm_compute. split; reflexivity.
  - exists "<="%string. vm_compute. split; [tauto|reflexivity].
  - vm_compute. split; reflexivity.
  - reflexivity.
  - exists (class_of (the_class arith_class) "(end)").
    vm_compute. repeat split; reflexivity.
  - discriminate.
  - reflexivity.
Defined.

(** ** The matches without a group *)

Lemma take_span (f : ascii -> bool) (s : string) :
  Str.all f (Str.take (Str.span f s) s) = true.
Proof.
  induction s as [|c s IH]; cbn; [reflexivity|].
  destruct (f c) eqn:E; cbn; [|reflexivity]. rewrite E, IH. reflexivity.
Qed.

Lemma match_at_blank (tk : Tokenizer) (prev : option ascii) (text : string)
    (n : nat) :
  match_at tk prev text = Some (n, GBlank) -> n = Str.span Str.is_space text.
Proof.
  unfold match_at, match_blanks.
  destruct (match_literal text); [discriminate|].
  destruct (match_symbol tk prev text); [discriminate|].
  destruct (match_name text); [discriminate|].
  destruct (Nat.eqb _ 0); [discriminate|]. congruence.
Qed.

Lemma make_match_blank (tk : Tokenizer) (prev : option ascii) (src : string)
    (pos n : nat) (g : Group) (text : string) :
  Str.drop pos src = text -> match_at tk prev text = Some (n, g) ->
  blank_or_group src (make_match pos n g text).
Proof.
  intros Hd Hm. destruct g; try (intros H1 H2 H3; discriminate).
  intros _ _ _. unfold group. cbn [make_match m_start m_end].
  replace (pos + n - pos) with n by lia.
  rewrite Hd, (match_at_blank _ _ _ _ Hm). apply take_span.
Qed.

Lemma scan_blank_matches (tk : Tokenizer) (src : string) :
  forall text prev pos skip,
    Str.drop pos src = text ->
    Forall (blank_or_group src) (scan tk prev pos skip text).
Proof.
  induction text as [|c rest IH]; intros prev pos skip Hd.
  - destruct skip; cbn [scan]; [|constructor].
    destruct (match_at tk prev "") as [[n g]|] eqn:E; constructor;
      [|constructor].
    exact (make_match_blank tk prev src pos n g "" Hd E).
  - assert (Hd' : Str.drop (S pos) src = rest) by (eapply drop_step; eauto).
    destruct skip as [|k]; cbn [scan]; [|apply IH; exact Hd'].
    destruct (match_at tk prev (String c rest)) as [[n g]|] eqn:E.
    + constructor; [|apply IH; exact Hd'].
      exact (make_match_blank tk prev src pos n g _ Hd E).
    + apply IH. exact Hd'.
Qed.

Lemma no_unexpected_bind {A B : Type} (m : Outcome A)
    (k : A -> Parser -> Outcome B) :
  no_unexpected_match m ->
  (forall a p, reads_blanks p -> no_unexpected_match (k a p)) ->
  no_unexpected_match (bind m k).
Proof. destruct m as [a p|e p|p]; cbn; auto. Qed.

Lemma no_unexpected_instantiate (key : string) (v : option Value) (p : Parser) :
  reads_blanks p -> no_unexpected_match (instantiate key v p).
Proof.
  intros H. unfold instantiate.
  destruct (lookup key (symbol_table (pclass p))); cbn; [exact H|reflexivity].
Qed.

Lemma no_unexpected_literal (text : string) (p : Parser) :
  reads_blanks p -> no_unexpected_match (literal_token text p).
Proof.
  intros H. unfold literal_token. destruct text as [|c s]; [reflexivity|].
  destruct (is_quote c); [apply no_unexpected_instantiate; exact H|].
  destruct (_ || _).
  { destruct (lookup "(float)" _); [|reflexivity].
    destruct (well_formed_number _);
      [apply no_unexpected_instantiate; exact H|reflexivity]. }
  destruct (Str.mem "." _).
  { destruct (lookup "(decimal)" _); [|reflexivity].
    destruct (well_formed_number _);
      [apply no_unexpected_instantiate; exact H|reflexivity]. }
  apply no_unexpected_instantiate. exact H.
Qed.

Lemma no_unexpected_wrong_symbol {A : Type} (t : Token) (p : Parser) :
  no_unexpected_match (@wrong_symbol A t p).
Proof. reflexivity. Qed.

Lemma no_unexpected_advance_loop (src : string) (ms : list Match) :
  forall p, source p = src -> Forall (blank_or_group src) ms ->
    no_unexpected_match (advance_loop ms p).
Proof.
  induction ms as [|m ms IH]; intros p Hs Hf; cbn [advance_loop].
  - apply no_unexpected_instantiate. unfold reads_blanks. cbn. constructor.
  - inversion Hf as [|? ? Hm Hr]; subst.
    assert (R : reads_blanks (set_next_match (set_tokens p ms) (Some m))).
    { unfold reads_blanks. cbn. exact Hr. }
    destruct (operator m) as [o|] eqn:Eo.
    { cbn [pclass set_next_match set_tokens].
      destruct (lookup _ _); cbn; [exact Hr|reflexivity]. }
    destruct (literal m) as [t|] eqn:El.
    { apply no_unexpected_literal. exact R. }
    destruct (name m) as [n|] eqn:En.
    { apply no_unexpected_instantiate. exact R. }
    cbn [source set_next_match set_tokens].
    rewrite (strip_blank _ (Hm El Eo En)).
    apply IH; [reflexivity|exact Hr].
Qed.

Lemma no_unexpected_advance (symbols : list string) (p : Parser) :
  reads_blanks p -> no_unexpected_match (advance symbols p).
Proof.
  intros H. unfold advance. destruct (is_end (next_token p)); [reflexivity|].
  apply no_unexpected_bind.
  - destruct (next_token p) as [t|]; [|exact H].
    unfold expected. destruct symbols; [exact H|].
    destruct (Str.in_list _ _); [exact H|reflexivity].
  - intros _ q Hq. apply (no_unexpected_advance_loop (source q)).
    + reflexivity.
    + exact Hq.
Qed.

Lemma no_unexpected_expression (fuel : nat) :
  (forall rbp_ p, reads_blanks p ->
     no_unexpected_match (expression fuel rbp_ p)) /\
  (forall rbp_ left p, reads_blanks p ->
     no_unexpected_match (led_loop fuel rbp_ left p)).
Proof.
  induction fuel as [|f [IHe IHl]]; [split; intros; exact I|]. split.
  - intros rbp_ p H. rewrite expression_S. apply no_unexpected_bind.
    + apply no_unexpected_advance. exact H.
    + intros _ q Hq. destruct (next_token p) as [t|]; [|reflexivity].
      apply no_unexpected_bind.
      * destruct (nud (cls_of t)); [reflexivity|exact Hq|].
        apply no_unexpected_bind; [apply IHe; exact Hq|].
        intros e r Hr. exact Hr.
      * intros l r Hr. apply IHl. exact Hr.
  - intros rbp_ left p H. rewrite led_loop_S.
    destruct (next_token p) as [t|]; [|reflexivity].
    destruct (Z.ltb _ _); [|exact H].
    apply no_unexpected_bind; [apply no_unexpected_advance; exact H|].
    intros _ q Hq. apply no_unexpected_bind.
    + destruct (led (cls_of t)); [reflexivity| |];
        (apply no_unexpected_bind; [apply IHe; exact Hq|]);
        intros e r Hr; exact Hr.
    + intros l r Hr. apply IHl. exact Hr.
Qed.

(** X10. [parse] never raises the syntax error of the last branch of the
    loop of [advance], the unexpected token that is a match: a match of
    the tokenizer without a group covers blanks only, and is skipped. *)
Theorem parse_never_unexpected_match (p : Parser) (src text : string) :
  parse_result p src <> Raised (ElementPathSyntaxError (UnexpectedMatch text)).
Proof.
  unfold parse_result, parse.
  destruct (tokenizer (pclass (set_source p src))) as [tk|]; [|discriminate].
  set (p0 := set_tokens (set_source p src) (finditer tk src)).
  assert (R : reads_blanks p0).
  { unfold reads_blanks, p0. cbn. unfold finditer.
    apply scan_blank_matches. reflexivity. }
  assert (N : no_unexpected_match
                (bind (advance [] p0) (fun _ p1 =>
                 bind (expression (S (List.length (finditer tk src))) 0%Z p1)
                   (fun root_token p2 =>
                    match next_token p2 with
                    | None => Err (AttributeError "symbol") p2
                    | Some t =>
                        if String.eqb (symbol (cls_of t)) "(end)"
                        then Ok root_token p2
                        else bind (unexpected t [] p2)
                               (fun _ p3 => Ok root_token p3)
                    end)))).
  { apply no_unexpected_bind; [apply no_unexpected_advance; exact R|].
    intros _ p1 H1. apply no_unexpected_bind.
    - apply (proj1 (no_unexpected_expression _)). exact H1.
    - intros root p2 H2. destruct (next_token p2) as [t|]; [|reflexivity].
      destruct (String.eqb _ _); [exact H2|]. reflexivity. }
  fold p0.
  match goal with
  | |- result _ (finally_ ?m) <> _ => destruct m as [a q|e q|q]
  end; cbn in *; try discriminate.
  intros E. injection E as ->. discriminate N.
Qed.

(** ** An operator between two blanks *)

(** What an operator character is not. *)
Lemma operator_char_facts (o : ascii) :
  operator_char o = true ->
  Str.is_space o = false /\ Str.is_digit o = false /\
  Ascii.eqb o squote = false /\ Ascii.eqb o dquote = false /\
  Ascii.eqb o "."%char = false /\ Ascii.eqb "("%char o = false /\
  Ascii.eqb ":"%char o = false.
Proof.
  destruct o as [[] [] [] [] [] [] [] []]; vm_compute; intros H;
    try discriminate H; repeat split.
Qed.

Lemma operator_no_literal (o : ascii) (rest : string) :
  operator_char o = true -> match_literal (String o rest) = None.
Proof.
  intros H. destruct (operator_char_facts o H) as (_ & D & Q1 & Q2 & P & _).
  unfold match_literal, match_quoted, match_number. rewrite Q1, Q2.
  cbn [Str.span]. rewrite D. cbn [Nat.ltb Nat.leb].
  destruct o as [[] [] [] [] [] [] [] []]; try reflexivity; discriminate P.
Qed.

Lemma operator_strip (o : ascii) :
  operator_char o = true -> Str.strip (String o "") = String o "".
Proof.
  intros H. destruct (operator_char_facts o H) as (S0 & _).
  unfold Str.strip, Str.strip_by, Str.lstrip_by, Str.rev. cbn.
  rewrite S0. cbn. rewrite S0. reflexivity.
Qed.

Lemma digit_not_space (d : ascii) :
  Str.is_digit d = true -> Str.is_space d = false.
Proof.
  destruct d as [[] [] [] [] [] [] [] []]; vm_compute; intros H;
    try discriminate H; reflexivity.
Qed.

Section Spaced.

Variables (symbols : list string) (tk : Tokenizer) (src : string)
          (allowed : list string).

Hypothesis compiled : create_tokenizer symbols = Return tk.
Hypothesis no_paren : Str.mem "(" src = false.
Hypothesis no_colon : Str.mem ":" src = false.
Hypothesis some_long : has_long_symbol symbols.
Hypothesis only_allowed : symbols_in symbols src allowed.
Hypothesis allowed_short : forallb (fun s => negb (multi_char s)) allowed = true.

Lemma symbol_after (pre text : string) (prev : option ascii) :
  src = pre ++ text ->
  match_symbol tk prev text =
  match text with
  | String c _ =>
      if Str.in_list (String c "") (stripped_symbols symbols)
      then Some 1 else None
  | EmptyString => None
  end.
Proof.
  intros E.
  pose proof (plain_symbol symbols tk src allowed compiled no_paren no_colon
                some_long only_allowed allowed_short prev (String.length pre))
    as P.
  rewrite E, drop_append in P. exact P.
Qed.

Lemma space_is_no_symbol :
  Str.in_list " " (stripped_symbols symbols) = false.
Proof.
  destruct (Str.in_list " " (stripped_symbols symbols)) eqn:E; [|reflexivity].
  apply in_list_iff in E.
  discriminate (stripped_head symbols " " " "%char E eq_refl).
Qed.

Lemma scan_operator (o : ascii) (d : ascii) (rest pre : string)
    (prev : option ascii) (pos : nat) :
  src = pre ++ spaced_operator o (String d rest) ->
  operator_char o = true -> In (String o "") symbols ->
  Str.is_digit d = true ->
  scan tk prev pos 0 (spaced_operator o (String d rest))
  = (operator_matches pos o
     ++ scan tk (Some " "%char) (S (S (S pos))) 0 (String d rest))%list.
Proof.
  intros E Ho Hin Hd. unfold spaced_operator in *.
  destruct (operator_char_facts o Ho) as (So & _).
  pose proof (digit_not_space d Hd) as Sd.
  (* the first blank *)
  assert (M1 : match_at tk prev (String " " (String o (String " " (String d rest))))
               = Some (1, GBlank)).
  { apply at_blank; try reflexivity.
    - rewrite (symbol_after pre _ prev E), space_is_no_symbol. reflexivity.
    - unfold match_blanks. cbn [Str.span]. rewrite So. reflexivity. }
  rewrite (scan_at _ _ _ _ _ _ M1). cbn [pred make_match].
  (* the operator *)
  assert (E2 : src = (pre ++ " ") ++ String o (String " " (String d rest))).
  { rewrite E. clear. induction pre as [|x pre IH]; cbn; [reflexivity|].
    rewrite IH. reflexivity. }
  assert (M2 : match_at tk (Some " "%char) (String o (String " " (String d rest)))
               = Some (1, GOperator)).
  { apply at_operator; [apply operator_no_literal; exact Ho|].
    rewrite (symbol_after _ _ _ E2).
    rewrite (is_registered symbols (String o "") Hin (operator_strip o Ho)
               ltac:(discriminate)).
    reflexivity. }
  rewrite (scan_at _ _ _ _ _ _ M2). cbn [pred make_match Str.take].
  (* the second blank *)
  assert (E3 : src = ((pre ++ " ") ++ String o "") ++ String " " (String d rest)).
  { rewrite E2. generalize (pre ++ " "). clear.
    intros s. induction s as [|x s IH]; cbn; [reflexivity|].
    rewrite IH. reflexivity. }
  assert (M3 : match_at tk (Some o) (String " " (String d rest))
               = Some (1, GBlank)).
  { apply at_blank; try reflexivity.
    - rewrite (symbol_after _ _ _ E3), space_is_no_symbol. reflexivity.
    - unfold match_blanks. cbn [Str.span]. rewrite Sd. reflexivity. }
  rewrite (scan_at _ _ _ _ _ _ M3). cbn [pred make_match Str.take].
  reflexivity.
Qed.

End Spaced.

(** ** Two operators around three integers *)

Lemma spaced_without (x : ascii) (a : string) (o1 : ascii) (b : string)
    (o2 : ascii) (c : string) :
  Str.is_digit x = false -> Ascii.eqb x " " = false ->
  Ascii.eqb x o1 = false -> Ascii.eqb x o2 = false ->
  Str.all Str.is_digit a = true -> Str.all Str.is_digit b = true ->
  Str.all Str.is_digit c = true ->
  Str.mem x (spaced_source a o1 b o2 c) = false.
Proof.
  intros Hx Hs H1 H2 Ha Hb Hc. unfold spaced_source, spaced_operator.
  rewrite mem_append. cbn [Str.mem]. rewrite mem_append. cbn [Str.mem].
  rewrite (digits_without x a Hx Ha), (digits_without x b Hx Hb),
    (digits_without x c Hx Hc), Hs, H1, H2. reflexivity.
Qed.

Lemma append_append (x y z : string) : ((x ++ y) ++ z = x ++ y ++ z)%string.
Proof. induction x as [|a x IH]; cbn; [reflexivity|]. rewrite IH. reflexivity. Qed.

Lemma digits_head (s : string) :
  s <> "" -> Str.all Str.is_digit s = true ->
  exists d r, s = String d r /\ Str.is_digit d = true.
Proof.
  intros Hn Hd. destruct s as [|d r]; [congruence|].
  cbn in Hd. apply andb_true_iff in Hd. destruct Hd as [Hd _]. eauto.
Qed.

Lemma spaced_tokens (symbols : list string) (tk : Tokenizer)
    (a : string) (o1 : ascii) (b : string) (o2 : ascii) (c : string) :
  create_tokenizer symbols = Return tk ->
  has_long_symbol symbols ->
  symbols_in symbols (spaced_source a o1 b o2 c) [String o1 ""; String o2 ""] ->
  operator_char o1 = true -> operator_char o2 = true ->
  In (String o1 "") symbols -> In (String o2 "") symbols ->
  a <> "" -> Str.all Str.is_digit a = true ->
  b <> "" -> Str.all Str.is_digit b = true ->
  c <> "" -> Str.all Str.is_digit c = true ->
  finditer tk (spaced_source a o1 b o2 c) = spaced_matches a o1 b o2 c.
Proof.
  intros Hc Hl Hs Ho1 Ho2 Hi1 Hi2 Na Da Nb Db Nc Dc.
  destruct (operator_char_facts o1 Ho1) as (_ & _ & _ & _ & _ & P1 & C1).
  destruct (operator_char_facts o2 Ho2) as (_ & _ & _ & _ & _ & P2 & C2).
  pose proof (spaced_without "(" a o1 b o2 c eq_refl eq_refl P1 P2 Da Db Dc)
    as no_paren.
  pose proof (spaced_without ":" a o1 b o2 c eq_refl eq_refl C1 C2 Da Db Dc)
    as no_colon.
  destruct (digits_head b Nb Db) as (db & rb & Eb & Hdb).
  destruct (digits_head c Nc Dc) as (dc & rc & Ec & Hdc).
  unfold finditer, spaced_matches, spaced_source.
  rewrite scan_digits by (auto; reflexivity).
  cbv zeta. cbn [app]. f_equal.
  assert (S1 : forall prev pos,
    scan tk prev pos 0 (spaced_operator o1 (b ++ spaced_operator o2 c))
    = (operator_matches pos o1
       ++ scan tk (Some " "%char) (S (S (S pos))) 0
            (b ++ spaced_operator o2 c))%list).
  { intros prev pos. rewrite Eb.
    change ((String db rb ++ spaced_operator o2 c)%string)
      with (String db (rb ++ spaced_operator o2 c)%string).
    apply (scan_operator symbols tk (spaced_source a o1 b o2 c)
             [String o1 ""; String o2 ""] Hc no_paren no_colon Hl Hs eq_refl
             o1 db _ a); auto.
    unfold spaced_source. rewrite Eb. reflexivity. }
  rewrite S1. f_equal.
  rewrite scan_digits by (auto; reflexivity). f_equal.
  assert (S2 : forall prev pos,
    scan tk prev pos 0 (spaced_operator o2 c)
    = (operator_matches pos o2
       ++ scan tk (Some " "%char) (S (S (S pos))) 0 c)%list).
  { intros prev pos. rewrite Ec.
    apply (scan_operator symbols tk (spaced_source a o1 b o2 c)
             [String o1 ""; String o2 ""] Hc no_paren no_colon Hl Hs eq_refl
             o2 dc rc (a ++ spaced_operator o1 b)); auto.
    unfold spaced_source. rewrite Ec, append_append. reflexivity. }
  rewrite S2. f_equal.
  rewrite <- (append_empty c) at 1.
  rewrite scan_digits by (auto; reflexivity).
  f_equal. cbn [scan].
  rewrite (nothing_at_the_end symbols tk Hc Hl). reflexivity.
Qed.

#[local] Arguments expression : simpl never.
#[local] Arguments led_loop : simpl never.

Lemma loop_blank_match (m : Match) (ms : list Match) (p : Parser) :
  blank_or_group (source p) m ->
  operator m = None -> literal m = None -> name m = None ->
  advance_loop (m :: ms) p = advance_loop ms (read p m ms).
Proof.
  intros Hb Ho Hl Hn. apply loop_blank; try assumption.
  apply strip_blank. exact (Hb Hl Ho Hn).
Qed.

Lemma operator_not_end (o : ascii) : String.eqb (String o "") "(end)" = false.
Proof. cbn. destruct (Ascii.eqb o "("); reflexivity. Qed.

Lemma operator_remove_blanks (o : ascii) :
  operator_char o = true -> Str.remove_blanks (String o "") = String o "".
Proof.
  intros H. destruct (operator_char_facts o H) as (S0 & _).
  cbn. destruct (Ascii.eqb_spec o " "); [|reflexivity].
  subst o. discriminate S0.
Qed.

(** one call of advance on matches whose positions are not known *)
Ltac advance_on facts :=
  rewrite advance_unfold by (state; token_facts facts; reflexivity);
  state;
  repeat (rewrite loop_blank_match
            by (first [reflexivity | state; assumption]); state);
  first
    [ erewrite loop_op by (first [reflexivity | state; facts; reflexivity])
    | erewrite loop_integer by (first [reflexivity | state; facts; reflexivity])
    | erewrite loop_end by (first [reflexivity | state; facts; reflexivity]) ];
  state; rewrite bind_Ok; cbv beta; state.

Ltac parser_on facts :=
  first
    [ advance_on facts
    | rewrite bind_Ok; cbv beta
    | rewrite expression_S
    | rewrite led_loop_S
    | progress (state; token_facts facts; cbv beta iota)
    | compare_numerals; cbv beta iota ].

Section Climbing.

Variables (c : ParserClass) (tk : Tokenizer).
Variables (a b d : string) (o1 o2 : ascii).
Variables (t1 t2 int e : TokenClass) (l1 r1 l2 r2 : Z).

Let src := spaced_source a o1 b o2 d.

Hypothesis has_tokenizer : tokenizer c = Some tk.
Hypothesis tokens_of_src : finditer tk src = spaced_matches a o1 b o2 d.
Hypothesis o1_operator : operator_char o1 = true.
Hypothesis o2_operator : operator_char o2 = true.
Hypothesis a_digits : integer_text a = true.
Hypothesis b_digits : integer_text b = true.
Hypothesis d_digits : integer_text d = true.
Hypothesis t1_registered : registered c (String o1 "") t1.
Hypothesis t2_registered : registered c (String o2 "") t2.
Hypothesis int_registered : registered c "(integer)" int.
Hypothesis int_literal : nud int = NudLiteral.
Hypothesis e_registered : registered c "(end)" e.
Hypothesis e_lbp : lbp e = 0%Z.
Hypothesis t1_lbp : lbp t1 = l1.
Hypothesis t2_lbp : lbp t2 = l2.
Hypothesis t1_right : right_power t1 = Some r1.
Hypothesis t2_right : right_power t2 = Some r2.
Hypothesis l1_positive : (0 < l1)%Z.
Hypothesis l2_positive : (0 < l2)%Z.
Hypothesis r1_not_negative : (0 <= r1)%Z.
Hypothesis r2_not_negative : (0 <= r2)%Z.

Lemma spaced_blanks :
  Forall (blank_or_group src) (spaced_matches a o1 b o2 d).
Proof.
  rewrite <- tokens_of_src. unfold finditer.
  apply scan_blank_matches. reflexivity.
Qed.

Lemma zero_lt_l1 : Z.ltb 0 l1 = true.
Proof. apply Z.ltb_lt. lia. Qed.
Lemma zero_lt_l2 : Z.ltb 0 l2 = true.
Proof. apply Z.ltb_lt. lia. Qed.
Lemma r1_lt_zero : Z.ltb r1 0 = false.
Proof. apply Z.ltb_ge. lia. Qed.
Lemma r2_lt_zero : Z.ltb r2 0 = false.
Proof. apply Z.ltb_ge. lia. Qed.

Lemma binary_climbs :
  parse_result (fresh c) src
  = Returned
      (if Z.ltb r1 l2
       then binary_token t1 (integer_token int a)
              (binary_token t2 (integer_token int b) (integer_token int d))
       else binary_token t2
              (binary_token t1 (integer_token int a) (integer_token int b))
              (integer_token int d)).
Proof.
  destruct t1_registered as [L1 S1]. destruct t2_registered as [L2 S2].
  destruct int_registered as [Li Si]. destruct e_registered as [Le Se].
  pose proof spaced_blanks as B. unfold spaced_matches, operator_matches in B.
  cbv zeta in B. cbn [app] in B.
  repeat match type of B with
         | Forall _ (_ :: _) =>
             let H := fresh "HB" in
             apply Forall_cons_iff in B; destruct B as [H B]
         end.
  pose proof (operator_remove_blanks o1 o1_operator) as R1.
  pose proof (operator_remove_blanks o2 o2_operator) as R2.
  pose proof zero_lt_l1 as Z1. pose proof zero_lt_l2 as Z2.
  pose proof r1_lt_zero as N1. pose proof r2_lt_zero as N2.
  pose proof t1_right as P1. pose proof t2_right as P2.
  unfold right_power in P1, P2.
  unfold parse_result, parse. state. rewrite has_tokenizer.
  fold src. rewrite tokens_of_src.
  unfold spaced_matches, operator_matches. cbv zeta. cbn [app List.length].
  destruct (led t1) as [|k1|k1] eqn:D1; try discriminate P1;
    injection P1 as P1; rewrite <- P1 in *;
    (destruct (led t2) as [|k2|k2] eqn:D2; try discriminate P2;
     injection P2 as P2; rewrite <- P2 in *);
    match goal with
    | |- context [if Z.ltb ?x l2 then _ else _] =>
        destruct (Z.ltb x l2) eqn:L12
    end;
    repeat parser_on ltac:(rewrite ?R1, ?R2, ?Li, ?L1, ?L2, ?Le, ?int_literal,
                             ?S1, ?S2, ?Se, ?Si, ?t1_lbp, ?t2_lbp, ?e_lbp,
                             ?D1, ?D2, ?Z1, ?Z2, ?N1, ?N2, ?L12,
                             ?operator_not_end, ?a_digits, ?b_digits,
                             ?d_digits);
    cbn [finally_ result]; unfold binary_token, integer_token;
    rewrite ?S1, ?S2; reflexivity.
Qed.

End Climbing.

Lemma operator_not_special (o : ascii) :
  operator_char o = true ->
  Str.in_list (Str.strip (String o "")) special_symbols = false.
Proof.
  intros H. rewrite (operator_strip o H). cbn.
  destruct (Ascii.eqb o "("); reflexivity.
Qed.

(** X11. In a class closed by [end()] that has a symbol of two characters
    or more, the integer literal and the end marker: three integers around
    two one-character operators, a blank apart, where no other symbol of
    the class occurs in the source, the operators are neither a blank, a
    digit, a quote, a dot, an opening parenthesis nor a colon, both have a
    left binding power above 0 and both parse their right operand at a
    binding power that is not negative.  [parse] then returns the tree in
    which the second operator takes the middle operand exactly when its
    left binding power is above the binding power at which the first
    operator parses its right operand (its own for [infix], one less for
    [infixr]), and otherwise the tree in which the first operator takes
    it.  So, under these conditions, a tighter operator binds first, an
    [infix] operator groups to the left and an [infixr] operator to the
    right. *)
Theorem binary_operators_climb (c : ParserClass) (p : Parser)
    (a b d : string) (o1 o2 : ascii) (t1 t2 int : TokenClass)
    (l1 r1 l2 r2 : Z) :
  init c = Return p -> ended c ->
  has_long_symbol (tokenizer_symbols c) ->
  symbols_in (tokenizer_symbols c) (spaced_source a o1 b o2 d)
             [String o1 ""; String o2 ""] ->
  operator_char o1 = true -> operator_char o2 = true ->
  decimal_digits a -> decimal_digits b -> decimal_digits d ->
  binary_operator c o1 t1 l1 r1 -> binary_operator c o2 t2 l2 r2 ->
  (0 < l1)%Z -> (0 < l2)%Z -> (0 <= r1)%Z -> (0 <= r2)%Z ->
  integer_class c int -> has_end c ->
  parse_result p (spaced_source a o1 b o2 d)
  = Returned
      (if Z.ltb r1 l2
       then binary_token t1 (integer_token int a)
              (binary_token t2 (integer_token int b) (integer_token int d))
       else binary_token t2
              (binary_token t1 (integer_token int a) (integer_token int b))
              (integer_token int d)).
Proof.
  intros Hi (tk & Htk & Hc) Hl Hs Ho1 Ho2 [Na Da] [Nb Db] [Nd Dd]
         (R1 & B1 & P1) (R2 & B2 & P2) Hl1 Hl2 Hr1 Hr2 [Ri Ni]
         (e & Re & Be).
  apply init_fresh in Hi. subst p.
  apply (binary_climbs c tk a b d o1 o2 t1 t2 int e l1 r1 l2 r2);
    try assumption.
  - apply (spaced_tokens (tokenizer_symbols c)); try assumption.
    + exact (registered_symbol c _ t1 R1 (operator_not_special o1 Ho1)).
    + exact (registered_symbol c _ t2 R2 (operator_not_special o2 Ho2)).
  - apply digits_integer_text; assumption.
  - apply digits_integer_text; assumption.
  - apply digits_integer_text; assumption.
Qed.

Lemma binary_operators_climb_witness :
  let c := the_class arith_class in
  parse_result (the_parser arith_class) (spaced_source "12" "+" "3" "*" "45")
  = Returned
      (if Z.ltb 10 20
       then binary_token (class_of c "+")
              (integer_token (class_of c "(integer)") "12")
              (binary_token (class_of c "*")
                 (integer_token (class_of c "(integer)") "3")
                 (integer_token (class_of c "(integer)") "45"))
       else binary_token (class_of c "*")
              (binary_token (class_of c "+")
                 (integer_token (class_of c "(integer)") "12")
                 (integer_token (class_of c "(integer)") "3"))
              (integer_token (class_of c "(integer)") "45")).
Proof.
  intros c.
  apply (binary_operators_climb c (the_parser arith_class) "12" "3" "45"
           "+" "*" (class_of c "+") (class_of c "*")
           (class_of c "(integer)") 10 10 20 20).
  - vm_compute. reflexivity.
  - exists (tokenizer_of c). vm_compute. split; reflexivity.
  - exists "<="%string. vm_compute. split; [tauto|reflexivity].
  - symbols_by_inspection.
  - reflexivity.
  - reflexivity.
  - split; [discriminate|reflexivity].
  - split; [discriminate|reflexivity].
  - split; [discriminate|reflexivity].
  - vm_compute. repeat split; reflexivity.
  - vm_compute. repeat split; reflexivity.
  - lia.
  - lia.
  - lia.
  - lia.
  - vm_compute. repeat split; reflexivity.
  - exists (class_of c "(end)"). vm_compute. repeat split; reflexivity.
Defined.

(** ** A prefix operator *)


Lemma prefixed_without (x : ascii) (o1 : ascii) (a : string) (o2 : ascii)
    (b : string) :
  Str.is_digit x = false -> Ascii.eqb x " " = false ->
  Ascii.eqb x o1 = false -> Ascii.eqb x o2 = false ->
  Str.all Str.is_digit a = true -> Str.all Str.is_digit b = true ->
  Str.mem x (prefixed_source o1 a o2 b) = false.
Proof.
  intros Hx Hs H1 H2 Ha Hb. unfold prefixed_source, spaced_operator.
  cbn [Str.mem]. rewrite mem_append. cbn [Str.mem].
  rewrite (digits_without x a Hx Ha), (digits_without x b Hx Hb), Hs, H1, H2.
  reflexivity.
Qed.

Lemma prefixed_tokens (symbols : list string) (tk : Tokenizer)
    (o1 : ascii) (a : string) (o2 : ascii) (b : string) :
  create_tokenizer symbols = Return tk ->
  has_long_symbol symbols ->
  symbols_in symbols (prefixed_source o1 a o2 b) [String o1 ""; String o2 ""] ->
  operator_char o1 = true -> operator_char o2 = true ->
  In (String o1 "") symbols -> In (String o2 "") symbols ->
  a <> "" -> Str.all Str.is_digit a = true ->
  b <> "" -> Str.all Str.is_digit b = true ->
  finditer tk (prefixed_source o1 a o2 b) = prefixed_matches o1 a o2 b.
Proof.
  intros Hc Hl Hs Ho1 Ho2 Hi1 Hi2 Na Da Nb Db.
  destruct (operator_char_facts o1 Ho1) as (_ & _ & _ & _ & _ & P1 & C1).
  destruct (operator_char_facts o2 Ho2) as (_ & _ & _ & _ & _ & P2 & C2).
  pose proof (prefixed_without "(" o1 a o2 b eq_refl eq_refl P1 P2 Da Db)
    as no_paren.
  pose proof (prefixed_without ":" o1 a o2 b eq_refl eq_refl C1 C2 Da Db)
    as no_colon.
  destruct (digits_head a Na Da) as (da & ra & Ea & Hda).
  destruct (digits_head b Nb Db) as (db & rb & Eb & Hdb).
  pose proof (symbol_after symbols tk (prefixed_source o1 a o2 b)
                [String o1 ""; String o2 ""] Hc no_paren no_colon Hl Hs eq_refl)
    as symbol_at.
  pose proof (space_is_no_symbol symbols) as NB.
  pose proof (digit_not_space da Hda) as Sd.
  unfold finditer, prefixed_matches. cbv zeta. cbn [app].
  unfold prefixed_source in *.
  (* the prefix operator *)
  assert (M1 : match_at tk None (String o1 (String " " (a ++ spaced_operator o2 b)))
               = Some (1, GOperator)).
  { apply at_operator; [apply operator_no_literal; exact Ho1|].
    rewrite (symbol_at "" (String o1 (String " " (a ++ spaced_operator o2 b)))
               None eq_refl).
    rewrite (is_registered symbols (String o1 "") Hi1 (operator_strip o1 Ho1)
               ltac:(discriminate)).
    reflexivity. }
  rewrite (scan_at _ _ _ _ _ _ M1). cbn [pred make_match Str.take].
  unfold op at 1. f_equal.
  (* the blank *)
  assert (M2 : match_at tk (Some o1) (String " " (a ++ spaced_operator o2 b))
               = Some (1, GBlank)).
  { rewrite Ea.
    change ((String da ra ++ spaced_operator o2 b)%string)
      with (String da (ra ++ spaced_operator o2 b)%string).
    apply at_blank; try reflexivity.
    - rewrite (symbol_at (String o1 "")
                 (String " " (String da (ra ++ spaced_operator o2 b)))
                 (Some o1)), NB; [reflexivity|].
      rewrite Ea. reflexivity.
    - unfold match_blanks. cbn [Str.span]. rewrite Sd. reflexivity. }
  rewrite (scan_at _ _ _ _ _ _ M2). cbn [pred make_match Str.take].
  unfold blank at 1. f_equal.
  rewrite scan_digits by (auto; reflexivity). f_equal.
  rewrite Eb.
  rewrite (scan_operator symbols tk
             (String o1 (String " " (a ++ spaced_operator o2 (String db rb))))
             [String o1 ""; String o2 ""] Hc) with (pre := String o1 (String " " a));
    try assumption; try reflexivity; try (rewrite <- Eb; assumption).
  f_equal.
  rewrite <- Eb. rewrite <- (append_empty b) at 1.
  rewrite scan_digits by (auto; reflexivity).
  f_equal. cbn [scan].
  rewrite (nothing_at_the_end symbols tk Hc Hl). reflexivity.
Qed.

Section Prefixed.

Variables (c : ParserClass) (tk : Tokenizer).
Variables (a b : string) (o1 o2 : ascii).
Variables (t1 t2 int e : TokenClass) (r1 l2 r2 : Z).

Let src := prefixed_source o1 a o2 b.

Hypothesis has_tokenizer : tokenizer c = Some tk.
Hypothesis tokens_of_src : finditer tk src = prefixed_matches o1 a o2 b.
Hypothesis o1_operator : operator_char o1 = true.
Hypothesis o2_operator : operator_char o2 = true.
Hypothesis a_digits : integer_text a = true.
Hypothesis b_digits : integer_text b = true.
Hypothesis t1_registered : registered c (String o1 "") t1.
Hypothesis t2_registered : registered c (String o2 "") t2.
Hypothesis int_registered : registered c "(integer)" int.
Hypothesis int_literal : nud int = NudLiteral.
Hypothesis e_registered : registered c "(end)" e.
Hypothesis e_lbp : lbp e = 0%Z.
Hypothesis t1_prefix : nud t1 = NudPrefix r1.
Hypothesis t2_lbp : lbp t2 = l2.
Hypothesis t2_right : right_power t2 = Some r2.
Hypothesis l2_positive : (0 < l2)%Z.
Hypothesis r1_not_negative : (0 <= r1)%Z.
Hypothesis r2_not_negative : (0 <= r2)%Z.

Lemma prefixed_blanks :
  Forall (blank_or_group src) (prefixed_matches o1 a o2 b).
Proof.
  rewrite <- tokens_of_src. unfold finditer.
  apply scan_blank_matches. reflexivity.
Qed.

Lemma prefix_climbs :
  parse_result (fresh c) src
  = Returned
      (if Z.ltb r1 l2
       then prefix_token t1
              (binary_token t2 (integer_token int a) (integer_token int b))
       else binary_token t2 (prefix_token t1 (integer_token int a))
              (integer_token int b)).
Proof.
  destruct t1_registered as [L1 S1]. destruct t2_registered as [L2 S2].
  destruct int_registered as [Li Si]. destruct e_registered as [Le Se].
  pose proof prefixed_blanks as B.
  unfold prefixed_matches, operator_matches in B.
  cbv zeta in B. cbn [app] in B.
  repeat match type of B with
         | Forall _ (_ :: _) =>
             let H := fresh "HB" in
             apply Forall_cons_iff in B; destruct B as [H B]
         end.
  pose proof (operator_remove_blanks o1 o1_operator) as R1.
  pose proof (operator_remove_blanks o2 o2_operator) as R2.
  assert (Z2 : Z.ltb 0 l2 = true) by (apply Z.ltb_lt; lia).
  assert (N1 : Z.ltb r1 0 = false) by (apply Z.ltb_ge; lia).
  assert (N2 : Z.ltb r2 0 = false) by (apply Z.ltb_ge; lia).
  pose proof t2_right as P2. unfold right_power in P2.
  unfold parse_result, parse. state. rewrite has_tokenizer.
  fold src. rewrite tokens_of_src.
  unfold prefixed_matches, operator_matches. cbv zeta. cbn [app List.length].
  destruct (led t2) as [|k2|k2] eqn:D2; try discriminate P2;
    injection P2 as P2; rewrite <- P2 in *;
    destruct (Z.ltb r1 l2) eqn:L12;
    repeat parser_on ltac:(rewrite ?R1, ?R2, ?Li, ?L1, ?L2, ?Le, ?int_literal,
                             ?S1, ?S2, ?Se, ?Si, ?t1_prefix, ?t2_lbp, ?e_lbp,
                             ?D2, ?Z2, ?N1, ?N2, ?L12,
                             ?operator_not_end, ?a_digits, ?b_digits);
    cbn [finally_ result]; unfold binary_token, prefix_token, integer_token;
    rewrite ?S1, ?S2; reflexivity.
Qed.

End Prefixed.

(** X12. In a class closed by [end()] that has a symbol of two characters
    or more, the integer literal and the end marker: a one-character
    prefix operator, a blank, and two integers around a one-character
    binary operator, a blank apart, where no other symbol of the class
    occurs in the source, the operators are neither a blank, a digit, a
    quote, a dot, an opening parenthesis nor a colon, the binding power
    given to [prefix] is not negative, and the binary operator has a left
    binding power above 0 and parses its right operand at a binding power
    that is not negative.  [parse] then returns the tree in which the
    operand of the prefix operator is the whole binary expression exactly
    when the binding power given to [prefix] is below the left binding
    power of the binary operator, and otherwise the tree in which it is
    the first integer alone. *)
Theorem prefix_operand_climbs (c : ParserClass) (p : Parser)
    (a b : string) (o1 o2 : ascii) (t1 t2 int : TokenClass) (r1 l2 r2 : Z) :
  init c = Return p -> ended c ->
  has_long_symbol (tokenizer_symbols c) ->
  symbols_in (tokenizer_symbols c) (prefixed_source o1 a o2 b)
             [String o1 ""; String o2 ""] ->
  operator_char o1 = true -> operator_char o2 = true ->
  decimal_digits a -> decimal_digits b ->
  prefix_operator c o1 t1 r1 -> binary_operator c o2 t2 l2 r2 ->
  (0 <= r1)%Z -> (0 < l2)%Z -> (0 <= r2)%Z ->
  integer_class c int -> has_end c ->
  parse_result p (prefixed_source o1 a o2 b)
  = Returned
      (if Z.ltb r1 l2
       then prefix_token t1
              (binary_token t2 (integer_token int a) (integer_token int b))
       else binary_token t2 (prefix_token t1 (integer_token int a))
              (integer_token int b)).
Proof.
  intros Hi (tk & Htk & Hc) Hl Hs Ho1 Ho2 [Na Da] [Nb Db]
         (R1 & N1) (R2 & B2 & P2) Hr1 Hl2 Hr2 [Ri Ni] (e & Re & Be).
  apply init_fresh in Hi. subst p.
  apply (prefix_climbs c tk a b o1 o2 t1 t2 int e r1 l2 r2); try assumption.
  - apply (prefixed_tokens (tokenizer_symbols c)); try assumption.
    + exact (registered_symbol c _ t1 R1 (operator_not_special o1 Ho1)).
    + exact (registered_symbol c _ t2 R2 (operator_not_special o2 Ho2)).
  - apply digits_integer_text; assumption.
  - apply digits_integer_text; assumption.
Qed.

Lemma prefix_operand_climbs_witness :
  let c := the_class arith_class in
  parse_result (the_parser arith_class) (prefixed_source "-" "12" "+" "3")
  = Returned
      (if Z.ltb 30 10
       then prefix_token (class_of c "-")
              (binary_token (class_of c "+")
                 (integer_token (class_of c "(integer)") "12")
                 (integer_token (class_of c "(integer)") "3"))
       else binary_token (class_of c "+")
              (prefix_token (class_of c "-")
                 (integer_token (class_of c "(integer)") "12"))
              (integer_token (class_of c "(integer)") "3")).
Proof.
  intros c.
  apply (prefix_operand_climbs c (the_parser arith_class) "12" "3" "-" "+"
           (class_of c "-") (class_of c "+") (class_of c "(integer)")
           30 10 10).
  - vm_compute. reflexivity.
  - exists (tokenizer_of c). vm_compute. split; reflexivity.
  - exists "<="%string. vm_compute. split; [tauto|reflexivity].
  - symbols_by_inspection.
  - reflexivity.
  - reflexivity.
  - split; [discriminate|reflexivity].
  - split; [discriminate|reflexivity].
  - vm_compute. repeat split; reflexivity.
  - vm_compute. repeat split; reflexivity.
  - lia.
  - lia.
  - lia.
  - vm_compute. repeat split; reflexivity.
  - exists (class_of c "(end)"). vm_compute. repeat split; reflexivity.
Defined.

(** ** Sources that are not expressions *)


Lemma dangling_tokens (symbols : list string) (tk : Tokenizer)
    (a : string) (o : ascii) :
  create_tokenizer symbols = Return tk ->
  has_long_symbol symbols ->
  symbols_in symbols (dangling_source a o) [String o ""] ->
  operator_char o = true -> In (String o "") symbols ->
  a <> "" -> Str.all Str.is_digit a = true ->
  finditer tk (dangling_source a o) = dangling_matches a o.
Proof.
  intros Hc Hl Hs Ho Hi Na Da.
  destruct (operator_char_facts o Ho) as (So & _ & _ & _ & _ & P1 & C1).
  assert (no_paren : Str.mem "(" (dangling_source a o) = false).
  { unfold dangling_source. rewrite mem_append. cbn [Str.mem].
    rewrite (digits_without "(" a eq_refl Da), P1. reflexivity. }
  assert (no_colon : Str.mem ":" (dangling_source a o) = false).
  { unfold dangling_source. rewrite mem_append. cbn [Str.mem].
    rewrite (digits_without ":" a eq_refl Da), C1. reflexivity. }
  pose proof (symbol_after symbols tk (dangling_source a o) [String o ""]
                Hc no_paren no_colon Hl Hs eq_refl) as symbol_at.
  unfold finditer, dangling_matches, dangling_source in *. cbv zeta.
  rewrite scan_digits by (auto; reflexivity). f_equal.
  assert (M1 : match_at tk (Str.last a) (String " " (String o ""))
               = Some (1, GBlank)).
  { apply at_blank; try reflexivity.
    - rewrite (symbol_at a (String " " (String o "")) _ eq_refl).
      rewrite (space_is_no_symbol symbols). reflexivity.
    - unfold match_blanks. cbn [Str.span]. rewrite So. reflexivity. }
  rewrite (scan_at _ _ _ _ _ _ M1). cbn [pred make_match]. f_equal.
  assert (M2 : match_at tk (Some " "%char) (String o "") = Some (1, GOperator)).
  { apply at_operator; [apply operator_no_literal; exact Ho|].
    rewrite (symbol_at (a ++ " ") (String o "") _).
    - rewrite (is_registered symbols (String o "") Hi (operator_strip o Ho)
                 ltac:(discriminate)).
      reflexivity.
    - rewrite append_append. reflexivity. }
  rewrite (scan_at _ _ _ _ _ _ M2). cbn [pred make_match Str.take scan].
  rewrite (nothing_at_the_end symbols tk Hc Hl). reflexivity.
Qed.

Lemma juxtaposed_tokens (symbols : list string) (tk : Tokenizer)
    (a b : string) :
  create_tokenizer symbols = Return tk ->
  has_long_symbol symbols ->
  symbols_in symbols (juxtaposed_source a b) [] ->
  a <> "" -> Str.all Str.is_digit a = true ->
  b <> "" -> Str.all Str.is_digit b = true ->
  finditer tk (juxtaposed_source a b) = juxtaposed_matches a b.
Proof.
  intros Hc Hl Hs Na Da Nb Db.
  assert (no_paren : Str.mem "(" (juxtaposed_source a b) = false).
  { unfold juxtaposed_source. rewrite mem_append. cbn [Str.mem].
    rewrite (digits_without "(" a eq_refl Da), (digits_without "(" b eq_refl Db).
    reflexivity. }
  assert (no_colon : Str.mem ":" (juxtaposed_source a b) = false).
  { unfold juxtaposed_source. rewrite mem_append. cbn [Str.mem].
    rewrite (digits_without ":" a eq_refl Da), (digits_without ":" b eq_refl Db).
    reflexivity. }
  pose proof (symbol_after symbols tk (juxtaposed_source a b) []
                Hc no_paren no_colon Hl Hs eq_refl) as symbol_at.
  destruct (digits_head b Nb Db) as (db & rb & Eb & Hdb).
  pose proof (digit_not_space db Hdb) as Sd.
  unfold finditer, juxtaposed_matches, juxtaposed_source in *. cbv zeta.
  rewrite scan_digits by (auto; reflexivity). f_equal.
  assert (M1 : match_at tk (Str.last a) (String " " b) = Some (1, GBlank)).
  { apply at_blank; try reflexivity.
    - rewrite (symbol_at a (String " " b) _ eq_refl).
      rewrite (space_is_no_symbol symbols). reflexivity.
    - unfold match_blanks. rewrite Eb. cbn [Str.span]. rewrite Sd.
      reflexivity. }
  rewrite (scan_at _ _ _ _ _ _ M1). cbn [pred make_match]. f_equal.
  rewrite <- (append_empty b) at 1.
  rewrite scan_digits by (auto; reflexivity).
  f_equal. cbn [scan].
  rewrite (nothing_at_the_end symbols tk Hc Hl). reflexivity.
Qed.

(** X25. In a class closed by [end()] that has a symbol of two characters
    or more, the integer literal and the end marker: an integer, a blank
    and a one-character binary operator with nothing after it, where no
    other symbol of the class occurs in the source, the operator is
    neither a blank, a digit, a quote, a dot, an opening parenthesis nor a
    colon, and its left binding power is above 0.  [parse] then raises the
    syntax error of an unexpected end of the source. *)
Theorem parse_dangling_operator (c : ParserClass) (p : Parser)
    (a : string) (o : ascii) (t int : TokenClass) (l r : Z) :
  init c = Return p -> ended c ->
  has_long_symbol (tokenizer_symbols c) ->
  symbols_in (tokenizer_symbols c) (dangling_source a o) [String o ""] ->
  operator_char o = true -> decimal_digits a ->
  binary_operator c o t l r -> (0 < l)%Z ->
  integer_class c int -> has_end c ->
  parse_result p (dangling_source a o)
  = Raised (ElementPathSyntaxError UnexpectedEnd).
Proof.
  intros Hi (tk & Htk & Hc) Hl Hs Ho [Na Da] ([L1 S1] & B1 & P1) Hpos
         [[Li Si] Ni] (e & [Le Se] & Be).
  apply init_fresh in Hi. subst p.
  pose proof (dangling_tokens (tokenizer_symbols c) tk a o Hc Hl Hs Ho
                (registered_symbol c _ t (conj L1 S1)
                   (operator_not_special o Ho)) Na Da) as T.
  assert (B : Forall (blank_or_group (dangling_source a o))
                     (dangling_matches a o)).
  { rewrite <- T. unfold finditer. apply scan_blank_matches. reflexivity. }
  unfold dangling_matches in B. cbv zeta in B.
  repeat match type of B with
         | Forall _ (_ :: _) =>
             let H := fresh "HB" in
             apply Forall_cons_iff in B; destruct B as [H B]
         end.
  pose proof (operator_remove_blanks o Ho) as R1.
  pose proof (digits_integer_text a Na Da) as Ta.
  assert (Z1 : Z.ltb 0 l = true) by (apply Z.ltb_lt; lia).
  unfold right_power in P1.
  unfold parse_result, parse. state. rewrite Htk, T.
  unfold dangling_matches. cbv zeta. cbn [List.length].
  destruct (led t) as [|k|k] eqn:D1; try discriminate P1;
    repeat parser_on ltac:(rewrite ?R1, ?Li, ?L1, ?Le, ?Ni, ?S1, ?Se, ?Si,
                             ?B1, ?Be, ?D1, ?Z1, ?operator_not_end, ?Ta);
    unfold advance; state; token_facts ltac:(rewrite ?Se);
    reflexivity.
Qed.

Lemma parse_dangling_operator_witness :
  parse_result (the_parser arith_class) (dangling_source "7" "+")
  = Raised (ElementPathSyntaxError UnexpectedEnd).
Proof.
  apply (parse_dangling_operator (the_class arith_class) _ "7" "+"
           (class_of (the_class arith_class) "+")
           (class_of (the_class arith_class) "(integer)") 10 10).
  - vm_compute. reflexivity.
  - exists (tokenizer_of (the_class arith_class)).
    vm_compute. split; reflexivity.
  - exists "<="%string. vm_compute. split; [tauto|reflexivity].
  - symbols_by_inspection.
  - reflexivity.
  - split; [discriminate|reflexivity].
  - vm_compute. repeat split; reflexivity.
  - lia.
  - vm_compute. repeat split; reflexivity.
  - exists (class_of (the_class arith_class) "(end)").
    vm_compute. repeat split; reflexivity.
Defined.

(** X26. In a class closed by [end()] that has a symbol of two characters
    or more, the end marker and the integer literal with the left binding
    power 0: two integers with a blank between them, where no symbol of
    the class occurs in the source.  [parse] then raises the syntax error
    of an unexpected token, and the token it names is the second
    integer. *)
Theorem parse_juxtaposed_operands (c : ParserClass) (p : Parser)
    (a b : string) (int : TokenClass) :
  init c = Return p -> ended c ->
  has_long_symbol (tokenizer_symbols c) ->
  symbols_in (tokenizer_symbols c) (juxtaposed_source a b) [] ->
  decimal_digits a -> decimal_digits b ->
  integer_class c int -> lbp int = 0%Z -> has_end c ->
  parse_result p (juxtaposed_source a b)
  = Raised (ElementPathSyntaxError
              (UnexpectedToken (VInt (Str.int_of_digits 0 b)))).
Proof.
  intros Hi (tk & Htk & Hc) Hl Hs [Na Da] [Nb Db] [[Li Si] Ni] Bi
         (e & [Le Se] & Be).
  apply init_fresh in Hi. subst p.
  pose proof (juxtaposed_tokens (tokenizer_symbols c) tk a b Hc Hl Hs
                Na Da Nb Db) as T.
  assert (B : Forall (blank_or_group (juxtaposed_source a b))
                     (juxtaposed_matches a b)).
  { rewrite <- T. unfold finditer. apply scan_blank_matches. reflexivity. }
  unfold juxtaposed_matches in B. cbv zeta in B.
  repeat match type of B with
         | Forall _ (_ :: _) =>
             let H := fresh "HB" in
             apply Forall_cons_iff in B; destruct B as [H B]
         end.
  pose proof (digits_integer_text a Na Da) as Ta.
  pose proof (digits_integer_text b Nb Db) as Tb.
  unfold parse_result, parse. state. rewrite Htk, T.
  unfold juxtaposed_matches. cbv zeta. cbn [List.length].
  repeat parser_on ltac:(rewrite ?Li, ?Le, ?Ni, ?Se, ?Si, ?Bi, ?Be, ?Ta, ?Tb).
  unfold unexpected, wrong_symbol.
  token_facts ltac:(rewrite ?Si). reflexivity.
Qed.

Lemma parse_juxtaposed_operands_witness :
  parse_result (the_parser arith_class) (juxtaposed_source "1" "2")
  = Raised (ElementPathSyntaxError
              (UnexpectedToken (VInt (Str.int_of_digits 0 "2")))).
Proof.
  apply (parse_juxtaposed_operands (the_class arith_class) _ "1" "2"
           (class_of (the_class arith_class) "(integer)")).
  - vm_compute. reflexivity.
  - exists (tokenizer_of (the_class arith_class)).
    vm_compute. split; reflexivity.
  - exists "<="%string. vm_compute. split; [tauto|reflexivity].
  - symbols_by_inspection.
  - split; [discriminate|reflexivity].
  - split; [discriminate|reflexivity].
  - vm_compute. repeat split; reflexivity.
  - reflexivity.
  - exists (class_of (the_class arith_class) "(end)").
    vm_compute. repeat split; reflexivity.
Defined.

End ExpressionFacts.

(* ================================================================== *)
(** * The walks over the nodes of xpath_nodes.py *)
(* ================================================================== *)

Module NodesWalkFacts.

Import Nodes.
Import NodesFacts.
Local Open Scope list_scope.

(** ** iter_descendants and iter *)

Lemma shaped_unfold (h : Heap) (a : nat) (kids : list Tree) :
  shaped h (T a kids) <->
  children_of h a = map root_of kids /\ Forall (shaped h) kids.
Proof.
  cbn [shaped]. split; intros [H1 H2]; (split; [exact H1|]); clear H1.
  - induction kids as [|k l IH]; constructor; destruct H2 as [A B];
      [exact A|exact (IH B)].
  - induction H2 as [|k l Hk _ IH]; [exact I|split; assumption].
Qed.

Lemma forest_size_cons (t : Tree) (l : list Tree) :
  forest_size (t :: l) = tree_size t + forest_size l.
Proof. reflexivity. Qed.

Lemma tree_size_T (a : nat) (kids : list Tree) :
  tree_size (T a kids) = S (forest_size kids).
Proof. reflexivity. Qed.

Lemma stack_cost_cons (s : list Tree) (stack : list (list Tree)) :
  stack_cost (s :: stack) = S (2 * forest_size s) + stack_cost stack.
Proof. reflexivity. Qed.

Lemma descendants_loop_preorder (h : Heap) :
  forall (fuel : nat) (ks : list Tree) (stack : list (list Tree)),
    Forall (shaped h) ks -> Forall (Forall (shaped h)) stack ->
    2 * forest_size ks + stack_cost stack < fuel ->
    descendants_loop fuel h (map root_of ks) (map (map root_of) stack)
    = Some (flat_map preorder ks ++ flat_map (flat_map preorder) stack).
Proof.
  induction fuel as [|fuel IH]; intros ks stack Hk Hs Hf; [lia|].
  destruct ks as [|[a kids] ks].
  - destruct stack as [|s stack]; [reflexivity|].
    cbn [descendants_loop map flat_map app].
    inversion Hs; subst. rewrite stack_cost_cons in Hf.
    apply IH; auto. change (forest_size []) with 0 in Hf. lia.
  - inversion Hk as [|? ? Ha Hr]; subst.
    apply shaped_unfold in Ha. destruct Ha as [Hc Hkids].
    rewrite forest_size_cons, tree_size_T in Hf.
    assert (Plain : kids = [] ->
      option_map (cons a)
        (descendants_loop fuel h (map root_of ks) (map (map root_of) stack))
      = Some (flat_map preorder (T a kids :: ks) ++
              flat_map (flat_map preorder) stack)).
    { intros ->. rewrite IH; [reflexivity|assumption|assumption|].
      change (forest_size []) with 0 in Hf. lia. }
    cbn [descendants_loop map root_of]. unfold children_of in Hc.
    destruct (nth_error h a) as [[| | | | |e p po x m ns ats ch|]|];
      try (apply Plain; destruct kids; [reflexivity|discriminate Hc]).
    destruct ch as [|c cs].
    + apply Plain. destruct kids; [reflexivity|discriminate Hc].
    + cbv beta iota. rewrite Hc.
      change (map root_of ks :: map (map root_of) stack)
        with (map (map root_of) (ks :: stack)).
      rewrite IH.
      * cbn [option_map flat_map preorder]. f_equal.
        rewrite <- !app_assoc. reflexivity.
      * exact Hkids.
      * constructor; assumption.
      * rewrite stack_cost_cons. lia.
Qed.

Ltac same_list :=
  cbn [option_map yields flat_map app]; rewrite <- ?app_assoc;
  cbn [app]; rewrite <- ?app_assoc; reflexivity.

Lemma visit_T (h : Heap) (a : nat) (kids : list Tree) :
  visit h (T a kids) = a :: built_of h a ++ flat_map (visit h) kids.
Proof.
  unfold visit. cbn [preorder flat_map with_built app]. f_equal. f_equal.
  induction kids as [|k l IH]; [reflexivity|].
  cbn [flat_map]. rewrite flat_map_app, IH. reflexivity.
Qed.

Lemma iter_loop_visits (h : Heap) :
  forall (fuel : nat) (ks : list Tree) (stack : list (list Tree)),
    Forall (shaped h) ks -> Forall (Forall (shaped h)) stack ->
    2 * forest_size ks + stack_cost stack < fuel ->
    iter_loop fuel h (map root_of ks) (map (map root_of) stack)
    = Some (flat_map (visit h) ks ++ flat_map (flat_map (visit h)) stack).
Proof.
  induction fuel as [|fuel IH]; intros ks stack Hk Hs Hf; [lia|].
  destruct ks as [|[a kids] ks].
  - destruct stack as [|s stack]; [reflexivity|].
    cbn [iter_loop map flat_map app].
    inversion Hs; subst. rewrite stack_cost_cons in Hf.
    apply IH; auto. change (forest_size []) with 0 in Hf. lia.
  - inversion Hk as [|? ? Ha Hr]; subst.
    apply shaped_unfold in Ha. destruct Ha as [Hc Hkids].
    rewrite forest_size_cons, tree_size_T in Hf.
    assert (Next : kids = [] ->
      iter_loop fuel h (map root_of ks) (map (map root_of) stack)
      = Some (flat_map (visit h) ks ++ flat_map (flat_map (visit h)) stack)).
    { intros ->. rewrite IH; [reflexivity|assumption|assumption|].
      change (forest_size []) with 0 in Hf. lia. }
    cbn [iter_loop map root_of flat_map]. rewrite visit_T.
    unfold built_of. unfold children_of in Hc.
    destruct (nth_error h a) as [[| | | | |e p po x m ns ats ch|]|];
      try (rewrite Next by (destruct kids; [reflexivity|discriminate Hc]);
           destruct kids; [reflexivity|discriminate Hc]).
    destruct ch as [|c cs].
    + rewrite Next by (destruct kids; [reflexivity|discriminate Hc]).
      destruct kids; [|discriminate Hc].
      same_list.
    + cbv beta iota. rewrite Hc.
      change (map root_of ks :: map (map root_of) stack)
        with (map (map root_of) (ks :: stack)).
      rewrite IH.
      * same_list.
      * exact Hkids.
      * constructor; assumption.
      * rewrite stack_cost_cons. lia.
Qed.

Lemma forest_size_in (k : Tree) (kids : list Tree) :
  In k kids -> tree_size k <= forest_size kids.
Proof.
  induction kids as [|x l IH]; [contradiction|].
  rewrite forest_size_cons. intros [->|H]; [lia|]. specialize (IH H). lia.
Qed.

Lemma document_descendants_preorder (h : Heap) (fuel : nat) :
  forall kids : list Tree,
    Forall (shaped h) kids -> 2 * forest_size kids < fuel ->
    document_descendants fuel h (map root_of kids)
    = Some (flat_map preorder kids).
Proof.
  induction kids as [|[a kk] kids IH]; intros Hk Hf; [reflexivity|].
  inversion Hk as [|? ? Ha Hr]; subst.
  apply shaped_unfold in Ha. destruct Ha as [Hc Hkk].
  rewrite forest_size_cons, tree_size_T in Hf.
  cbn [map root_of document_descendants flat_map preorder].
  rewrite IH by (auto; lia).
  unfold children_of in Hc.
  destruct (nth_error h a) as [[| | | | |e p po x m ns ats ch|]|];
    try (destruct kk; [reflexivity|discriminate Hc]).
  rewrite Hc.
  pose proof (descendants_loop_preorder h fuel kk [] Hkk (Forall_nil _)) as L.
  cbn [map flat_map] in L. rewrite app_nil_r in L.
  rewrite L by (cbn; lia). reflexivity.
Qed.

Lemma document_iter_visits (h : Heap) (fuel : nat) :
  forall kids : list Tree,
    Forall (shaped h) kids -> 2 * forest_size kids < fuel ->
    document_iter fuel h (map root_of kids) = Some (flat_map (visit h) kids).
Proof.
  induction kids as [|[a kk] kids IH]; intros Hk Hf; [reflexivity|].
  inversion Hk as [|? ? Ha Hr]; subst.
  apply shaped_unfold in Ha. destruct Ha as [Hc Hkk].
  rewrite forest_size_cons, tree_size_T in Hf.
  cbn [map root_of document_iter flat_map]. rewrite visit_T.
  rewrite IH by (auto; lia).
  unfold children_of in Hc. unfold built_of, element_iter.
  destruct (nth_error h a) as [[| | | | |e p po x m ns ats ch|]|];
    try (destruct kk; [reflexivity|discriminate Hc]).
  rewrite Hc.
  pose proof (iter_loop_visits h fuel kk [] Hkk (Forall_nil _)) as L.
  cbn [map flat_map] in L. rewrite app_nil_r in L.
  rewrite L by (cbn; lia). same_list.
Qed.

(** The walk of [iter_descendants] below a node that holds a tree: the
    loop over the stack of iterators for an element, the loop over the
    children for a document. *)
Lemma descendants_walk (fuel : nat) (with_self : bool)
    (addr : nat) (h : Heap) (kids : list Tree) :
  holds h addr kids -> Forall (shaped h) kids ->
  2 * forest_size kids < fuel ->
  iter_descendants fuel with_self addr h
  = Done ((if with_self then [addr] else []) ++ flat_map preorder kids) h.
Proof.
  intros Hh Hk Hf. unfold iter_descendants. unfold holds in Hh.
  destruct (nth_error h addr) as [[| | | | |e p po x m ns ats ch|d po ch]|];
    try contradiction; subst ch.
  - pose proof (descendants_loop_preorder h fuel kids [] Hk (Forall_nil _)) as L.
    cbn [map flat_map] in L. rewrite app_nil_r in L.
    rewrite L by (cbn; lia). reflexivity.
  - rewrite (document_descendants_preorder h fuel kids Hk Hf). reflexivity.
Qed.

(** X14. For an element or a document node of a heap that holds a tree,
    [iter_descendants] ends and yields the nodes below it in document
    order, each one once: a node comes before its children and the
    subtree of a child before the next child; the node itself comes first
    with [with_self], and is left out without. *)
Theorem iter_descendants_document_order (fuel : nat) (with_self : bool)
    (addr : nat) (h : Heap) (kids : list Tree) :
  holds h addr kids -> Forall (shaped h) kids ->
  2 * forest_size kids < fuel ->
  iter_descendants fuel with_self addr h
  = Done ((if with_self then [addr] else []) ++ flat_map preorder kids) h.
Proof. exact (descendants_walk fuel with_self addr h kids). Qed.

(** X15. For an element or a document node of a heap that holds a tree,
    [iter] ends and yields the node and the nodes below it in document
    order, each element followed at once by the namespace and attribute
    nodes that it has built so far, and by none when it has built none. *)
Theorem iter_document_order (fuel : nat) (addr : nat) (h : Heap)
    (kids : list Tree) :
  holds h addr kids -> Forall (shaped h) kids ->
  2 * forest_size kids < fuel ->
  iter fuel addr h = Done (visit h (T addr kids)) h.
Proof.
  intros Hh Hk Hf. unfold iter. rewrite visit_T.
  unfold holds in Hh. unfold built_of, element_iter.
  destruct (nth_error h addr) as [[| | | | |e p po x m ns ats ch|d po ch]|];
    try contradiction; subst ch.
  - pose proof (iter_loop_visits h fuel kids [] Hk (Forall_nil _)) as L.
    cbn [map flat_map] in L. rewrite app_nil_r in L.
    rewrite L by (cbn; lia). same_list.
  - rewrite (document_iter_visits h fuel kids Hk Hf). reflexivity.
Qed.

Lemma family_shaped : Forall (shaped family_heap) family_tree.
Proof.
  repeat (constructor; try (apply shaped_unfold; split; [reflexivity|])).
Qed.

Lemma iter_descendants_document_order_witness :
  iter_descendants 11 true 0 family_heap = Done [0; 1; 2; 3; 4] family_heap /\
  iter_descendants 11 false 0 family_heap = Done [1; 2; 3; 4] family_heap.
Proof.
  split.
  - apply (iter_descendants_document_order 11 true 0 family_heap family_tree).
    + reflexivity.
    + exact family_shaped.
    + vm_compute. lia.
  - apply (iter_descendants_document_order 11 false 0 family_heap family_tree).
    + reflexivity.
    + exact family_shaped.
    + vm_compute. lia.
Defined.

Lemma iter_document_order_witness :
  iter 11 0 family_heap = Done [0; 1; 5; 2; 3; 4] family_heap.
Proof.
  apply (iter_document_order 11 0 family_heap family_tree).
  - reflexivity.
  - exact family_shaped.
  - vm_compute. lia.
Defined.

(** ** ElementNode.path *)

Lemma path_loop_accumulates (h : Heap) :
  forall (fuel : nat) (item : Val) (acc : list Tag),
    path_loop fuel h item acc
    = match path_loop fuel h item [] with
      | Done l h' => Done (acc ++ l) h'
      | other => other
      end.
Proof.
  induction fuel as [|fuel IH]; intros item acc; [reflexivity|].
  cbn [path_loop]. destruct item as [| | | | | | |a]; try reflexivity.
  destruct (nth_error h a) as [n|]; [|reflexivity].
  assert (Up : forall l l', l' = acc ++ l ->
    match node_parent n with
    | VNone => Done l' h
    | parent => path_loop fuel h parent l'
    end
    = match match node_parent n with
            | VNone => Done l h
            | parent => path_loop fuel h parent l
            end with
      | Done l0 h' => Done (acc ++ l0) h'
      | other => other
      end).
  { intros l l' ->. destruct (node_parent n); try reflexivity;
      rewrite (IH _ (acc ++ l)), (IH _ l);
      match goal with |- context [path_loop fuel h ?v []] =>
        destruct (path_loop fuel h v []) end;
      rewrite ?app_assoc; reflexivity. }
  destruct n as [| | | | |elem p0 po x m ns ats ch|];
    try (apply (Up [] acc); symmetry; apply app_nil_r).
  destruct elem; try reflexivity. apply Up. reflexivity.
Qed.

Lemma tag_names_app (l : list Tag) (names : list string) (t : string) :
  tag_names l = Some names ->
  tag_names (l ++ [TagName t]) = Some (names ++ [t]).
Proof.
  revert names. induction l as [|[s| |] l IH]; intros names H; cbn in *;
    try discriminate.
  - injection H as <-. reflexivity.
  - destruct (tag_names l) as [ns|]; [|discriminate].
    injection H as <-. rewrite (IH ns eq_refl). reflexivity.
Qed.

Lemma tag_names_length (l : list Tag) (names : list string) :
  tag_names l = Some names -> List.length names = List.length l.
Proof.
  revert names. induction l as [|[s| |] l IH]; intros names H; cbn in *;
    try discriminate.
  - injection H as <-. reflexivity.
  - destruct (tag_names l) as [ns|]; [|discriminate].
    injection H as <-. cbn. rewrite (IH ns eq_refl). reflexivity.
Qed.

Lemma append_assoc (a b c : string) :
  ((a ++ b) ++ c)%string = (a ++ b ++ c)%string.
Proof. induction a as [|x a IH]; cbn; [reflexivity|]. rewrite IH. reflexivity. Qed.

Lemma join_snoc (sep : string) (names : list string) (t : string) :
  names <> [] ->
  Str.join sep (names ++ [t]) = (Str.join sep names ++ sep ++ t)%string.
Proof.
  unfold Str.join. induction names as [|a l IH]; [congruence|]. intros _.
  destruct l as [|b l]; [reflexivity|].
  change (String.concat sep ((a :: b :: l) ++ [t]))
    with (a ++ sep ++ String.concat sep ((b :: l) ++ [t]))%string.
  rewrite IH by discriminate.
  change (String.concat sep (a :: b :: l))
    with (a ++ sep ++ String.concat sep (b :: l))%string.
  rewrite !append_assoc. reflexivity.
Qed.

(** X16. The path of an element node whose tag is a name: a slash and the
    tag when the node has no parent or a document node as parent, and the
    path of the parent, a slash and the tag when the parent is an element
    node. *)
Theorem path_extends_parent (fuel : nat) (h : Heap) (a : nat)
    (e : Element) (t : string) (parent position xsd_type : Val)
    (nsmap : list (option string * string)) (ns ats : option (list nat))
    (children : list nat) :
  nth_error h a
    = Some (ElementNode (VElement e) parent position xsd_type nsmap ns ats
                        children) ->
  tag e = TagName t ->
  (parent = VNone ->
   ElementNode_path (S fuel) a h = Done ("/" ++ t)%string h) /\
  (forall d, parent = VNode d -> document_at h d ->
   ElementNode_path (S (S fuel)) a h = Done ("/" ++ t)%string h) /\
  (forall p s, parent = VNode p -> element_at h p ->
   ElementNode_path fuel p h = Done s h ->
   ElementNode_path (S fuel) a h = Done (s ++ "/" ++ t)%string h).
Proof.
  intros Ha Ht. split; [|split].
  - intros ->. unfold ElementNode_path. cbn [path_loop]. rewrite Ha.
    cbn. rewrite Ht. reflexivity.
  - intros d -> (doc & pos & ch & Hd). unfold ElementNode_path.
    cbn [path_loop]. rewrite Ha. cbn [node_parent app]. rewrite Hd.
    cbn. rewrite Ht. reflexivity.
  - intros p s -> (pe & pp & ppos & px & pm & pns & pats & pch & Hp) Hs.
    unfold ElementNode_path in *.
    assert (L : path_loop (S fuel) h (VNode a) []
                = path_loop fuel h (VNode p) [tag e]).
    { cbn [path_loop]. rewrite Ha. reflexivity. }
    rewrite L, path_loop_accumulates.
    destruct (path_loop fuel h (VNode p) []) as [l h'|err h'|] eqn:E;
      try discriminate.
    destruct (tag_names (rev l)) as [names|] eqn:N; [|discriminate].
    injection Hs as Es Eh. subst s h'.
    assert (Hl : l <> []).
    { destruct fuel as [|f]; [discriminate|]. cbn [path_loop] in E.
      rewrite Hp in E. destruct pe; try discriminate.
      cbn [node_parent app] in E.
      destruct pp; [injection E as <-; discriminate|..];
        rewrite path_loop_accumulates in E;
        match type of E with context [path_loop f h ?v []] =>
          destruct (path_loop f h v [])
        end; try discriminate; injection E as <-; discriminate. }
    rewrite Ht. cbn [rev app].
    change (rev (TagName t :: l)) with (rev l ++ [TagName t]).
    rewrite (tag_names_app _ _ t N).
    rewrite join_snoc.
    + reflexivity.
    + intros ->. apply tag_names_length in N. cbn in N.
      rewrite length_rev in N. destruct l; [congruence|discriminate].
Qed.

Lemma path_extends_parent_witness :
  ElementNode_path 3 2 family_heap = Done ("/A" ++ "/" ++ "B")%string family_heap.
Proof.
  destruct (path_extends_parent 2 family_heap 2 (named "B" []) "B" (VNode 1)
              (VInt 4) VNone [] None None [3] eq_refl eq_refl)
    as (_ & _ & H).
  apply (H 1 "/A"%string).
  - reflexivity.
  - unfold element_at. repeat eexists.
  - vm_compute. reflexivity.
Defined.

(** ** The lists built on demand *)

Lemma set_nth_grown (addr : nat) (n : Node) (h more : Heap) :
  addr < List.length h ->
  nth_error (set_nth addr n (h ++ more)) addr = Some n /\
  (forall a, a < List.length h -> a <> addr ->
     nth_error (set_nth addr n (h ++ more)) a = nth_error h a).
Proof.
  intros H. split.
  - apply set_nth_same. rewrite length_app. lia.
  - intros a Ha N. rewrite set_nth_other by congruence.
    apply nth_error_app1. exact Ha.
Qed.

Lemma namespace_nodes_leaves (addr : nat) (h h' : Heap) (l : list nat) :
  namespace_nodes addr h = Done l h' ->
  exists e p pos x m ns ats ch,
    nth_error h addr = Some (ElementNode e p pos x m ns ats ch) /\
    nth_error h' addr = Some (ElementNode e p pos x m (Some l) ats ch) /\
    (forall a, a < List.length h -> a <> addr ->
       nth_error h' a = nth_error h a).
Proof.
  unfold namespace_nodes. intros H.
  destruct (nth_error h addr) as [[| | | | |e p pos x m ns ats ch|]|] eqn:E;
    try discriminate.
  exists e, p, pos, x, m, ns, ats, ch. split; [reflexivity|].
  destruct ns as [l0|].
  - injection H as <- <-. auto.
  - destruct pos; try discriminate. injection H as <- <-.
    apply set_nth_grown. exact (nth_error_length _ _ _ E).
Qed.

Lemma attributes_leaves (addr : nat) (h h' : Heap) (l : list nat) :
  attributes addr h = Done l h' ->
  exists e p pos x m ns ats ch,
    nth_error h addr = Some (ElementNode e p pos x m ns ats ch) /\
    nth_error h' addr = Some (ElementNode e p pos x m ns (Some l) ch) /\
    (forall a, a < List.length h -> a <> addr ->
       nth_error h' a = nth_error h a) /\
    List.length h <= List.length h'.
Proof.
  unfold attributes. intros H.
  destruct (nth_error h addr) as [[| | | | |e p pos x m ns ats ch|]|] eqn:E;
    try discriminate.
  exists e, p, pos, x, m, ns, ats, ch. split; [reflexivity|].
  destruct ats as [l0|].
  - injection H as <- <-. auto.
  - destruct pos; try discriminate. destruct e; try discriminate.
    injection H as <- <-. split; [|split].
    + apply set_nth_grown. exact (nth_error_length _ _ _ E).
    + apply set_nth_grown. exact (nth_error_length _ _ _ E).
    + rewrite set_nth_length, length_app. lia.
Qed.

(** X17. The namespace nodes and the attributes of an element node are
    built once: after the first access of each, a later access returns the
    same list and allocates nothing, the access of the one leaves the list
    of the other alone, and no other node of the heap is touched. *)
Theorem lazy_lists_are_kept (addr : nat) (h h1 h2 : Heap) (ln la : list nat) :
  namespace_nodes addr h = Done ln h1 ->
  attributes addr h1 = Done la h2 ->
  namespace_nodes addr h1 = Done ln h1 /\
  namespace_nodes addr h2 = Done ln h2 /\
  attributes addr h2 = Done la h2 /\
  (forall a, a < List.length h -> a <> addr ->
     nth_error h2 a = nth_error h a).
Proof.
  intros Hn Ha.
  destruct (namespace_nodes_leaves _ _ _ _ Hn)
    as (e & p & pos & x & m & ns & ats & ch & E0 & E1 & F1).
  destruct (attributes_leaves _ _ _ _ Ha)
    as (e' & p' & pos' & x' & m' & ns' & ats' & ch' & E1' & E2 & F2 & L).
  rewrite E1 in E1'. injection E1' as <- <- <- <- <- <- <- <-.
  repeat split.
  - unfold namespace_nodes. rewrite E1. reflexivity.
  - unfold namespace_nodes. rewrite E2. reflexivity.
  - unfold attributes. rewrite E2. reflexivity.
  - intros a Hlt N.
    assert (Hlen : List.length h <= List.length h1).
    { clear - Hn. unfold namespace_nodes in Hn.
      destruct (nth_error h addr) as [[| | | | |e p pos x m ns ats ch|]|];
        try discriminate.
      destruct ns; [injection Hn as _ <-; lia|].
      destruct pos; try discriminate. injection Hn as _ <-.
      rewrite set_nth_length, length_app. lia. }
    rewrite F2 by (auto; lia). apply F1; assumption.
Qed.

Lemma lazy_lists_are_kept_witness :
  let h1 := heap_of (namespace_nodes 0 one_attribute_heap) [] in
  let h2 := heap_of (attributes 0 h1) [] in
  namespace_nodes 0 h1 = Done [1] h1 /\
  namespace_nodes 0 h2 = Done [1] h2 /\
  attributes 0 h2 = Done [2] h2 /\
  (forall a, a < List.length one_attribute_heap -> a <> 0 ->
     nth_error h2 a = nth_error one_attribute_heap a).
Proof.
  intros h1 h2.
  apply (lazy_lists_are_kept 0 one_attribute_heap h1 h2 [1] [2]);
    vm_compute; reflexivity.
Defined.

End NodesWalkFacts.

(* ================================================================== *)
(** * More facts about xpath_context.py *)
(* ================================================================== *)

Module ContextFocusFacts.

Import Nodes.
Import NodesFacts.
Import NodesWalkFacts.
Import Context.
Import ContextFacts.
Local Open Scope list_scope.

(** ** inner_focus_select *)

Lemma yield_forward_focus (n : Z) (results : list Val) :
  forall (c : XPathContext) (k : Z),
    size c = n -> axis c = None ->
    map focus (fst (yield_forward c (k + 1) results))
    = map (fun kx => (snd kx, (fst kx + 1)%Z, n, None)) (numbered k results) /\
    root (snd (yield_forward c (k + 1) results)) = root c /\
    raw_parent (snd (yield_forward c (k + 1) results)) = raw_parent c.
Proof.
  induction results as [|x rest IH]; intros c k Hs Ha; cbn; [auto|].
  specialize (IH (set_item (set_position c (k + 1)) x) (k + 1)%Z Hs Ha).
  destruct (yield_forward _ (k + 1 + 1) rest) as [trace c'].
  cbn [fst snd map] in *. destruct IH as (E & R & P).
  rewrite E, R, P. unfold focus. cbn. rewrite Hs, Ha. auto.
Qed.

Lemma yield_backward_focus (n : Z) (results : list Val) :
  forall (c : XPathContext) (k : Z),
    size c = n -> axis c = None ->
    map focus (fst (yield_backward c results))
    = map (fun kx => (snd kx, (position c + k - fst kx)%Z, n, None))
          (numbered k results) /\
    root (snd (yield_backward c results)) = root c /\
    raw_parent (snd (yield_backward c results)) = raw_parent c.
Proof.
  induction results as [|x rest IH]; intros c k Hs Ha; cbn; [auto|].
  specialize (IH (set_position (set_item c x) (position (set_item c x) - 1))
                 (k + 1)%Z Hs Ha).
  destruct (yield_backward _ rest) as [trace c'].
  cbn [fst snd map] in *. destruct IH as (E & R & P).
  rewrite E, R, P. unfold focus. cbn. rewrite Hs, Ha.
  split; [|split; reflexivity]. f_equal.
  - replace (position c + k - k)%Z with (position c) by lia. reflexivity.
  - apply map_ext. intros [j y]. cbn.
    replace (position c - 1 + (k + 1) - j)%Z with (position c + k - j)%Z by lia.
    reflexivity.
Qed.

(** X18. [inner_focus_select] yields the results in order with the size
    set to their number, no axis, and the position counting up from 1,
    or down from the size on a reverse axis; run to its end it leaves the
    context as it found it. *)
Theorem inner_focus_positions (reverse_axis : bool) (results : list Val)
    (c : XPathContext) :
  let n := Z.of_nat (List.length results) in
  map focus (fst (inner_focus_select reverse_axis results c))
  = map (fun kx => (snd kx,
                    if reverse_axis then (n - fst kx)%Z else (fst kx + 1)%Z,
                    n, None))
        (numbered 0 results) /\
  snd (inner_focus_select reverse_axis results c) = c.
Proof.
  intros n. unfold inner_focus_select. fold n. destruct reverse_axis.
  - destruct (yield_backward_focus n results
                (set_position (set_size (set_axis c None) n) n) 0%Z
                eq_refl eq_refl) as (E & R & P).
    destruct (yield_backward _ results) as [trace c'].
    cbn [fst snd] in *. rewrite E. split.
    + apply map_ext. intros [j y]. cbn. rewrite Z.add_0_r. reflexivity.
    + cbn in R, P. rewrite R, P. destruct c; reflexivity.
  - destruct (yield_forward_focus n results (set_size (set_axis c None) n) 0%Z
                eq_refl eq_refl) as (E & R & P).
    change (0 + 1)%Z with 1%Z in *.
    destruct (yield_forward _ 1 results) as [trace c'].
    cbn [fst snd] in *. rewrite E. split.
    + reflexivity.
    + cbn in R, P. rewrite R, P. destruct c; reflexivity.
Qed.

(** ** _build_nodes *)

Lemma buildable_unfold (t : Tag) (a : list (string * string))
    (tx tl : option string) (m : option (list (option string * string)))
    (kids : list Element) :
  buildable (mkElement t a tx tl m kids) = true <->
  tl = None /\ (callable t = true -> kids = []) /\
  Forall (fun k => buildable k = true) kids.
Proof.
  assert (E : buildable (mkElement t a tx tl m kids)
              = match tl with Some _ => false | None => true end
                && (negb (callable t)
                    || match kids with [] => true | _ => false end)
                && forallb buildable kids) by reflexivity.
  rewrite E, !andb_true_iff, forallb_forall, Forall_forall. clear E.
  split.
  - intros [[H1 H2] H3]. split; [destruct tl; [discriminate|reflexivity]|].
    split; [|exact H3].
    intros Hc. rewrite Hc in H2. destruct kids; [reflexivity|discriminate].
  - intros (-> & H2 & H3). split; [split; [reflexivity|]|exact H3].
    destruct (callable t); [rewrite H2; reflexivity|reflexivity].
Qed.

Lemma element_size_unfold (t : Tag) (a : list (string * string))
    (tx tl : option string) (m : option (list (option string * string)))
    (kids : list Element) :
  element_size (mkElement t a tx tl m kids) = S (elements_size kids).
Proof.
  cbn [element_size]. f_equal. unfold elements_size.
  induction kids as [|k l IH]; [reflexivity|].
  change (list_sum (map element_size (k :: l)))
    with (element_size k + list_sum (map element_size l)).
  rewrite <- IH. reflexivity.
Qed.

Lemma has_children_grown (h : Heap) (a : nat) (n : Node) :
  has_children h a -> has_children (h ++ [n]) a.
Proof.
  unfold has_children. intros H.
  destruct (nth_error h a) eqn:E; [|contradiction].
  rewrite nth_error_app1 by (exact (nth_error_length _ _ _ E)).
  rewrite E. exact H.
Qed.

Lemma append_child_keeps (h : Heap) (parent child : nat) :
  has_children h parent ->
  exists h', append_child parent child h = Done tt h' /\
             List.length h' = List.length h /\
             (forall a, has_children h a -> has_children h' a).
Proof.
  unfold has_children, append_child. intros H.
  destruct (nth_error h parent) as [[| | | | |e p po x m ns ats ch|d po ch]|]
    eqn:E; try contradiction;
    (eexists; split; [reflexivity|]; split; [apply set_nth_length|];
     intros a Ha; destruct (Nat.eq_dec parent a) as [<-|N];
     [rewrite set_nth_same by (exact (nth_error_length _ _ _ E)); exact I
     |rewrite set_nth_other by exact N; exact Ha]).
Qed.


Lemma pending_cost_cons (it : list Element) (its : list (list Element)) :
  pending_cost (it :: its) = S (2 * elements_size it) + pending_cost its.
Proof. reflexivity. Qed.

Lemma pending_size_cons (it : list Element) (its : list (list Element)) :
  pending_size (it :: its) = elements_size it + pending_size its.
Proof. reflexivity. Qed.

Lemma new_child_has_children (h : Heap) (elem : Element) (parent : nat) :
  callable (tag elem) = false ->
  has_children (h ++ [new_child elem parent]) (List.length h).
Proof.
  intros H. unfold has_children.
  rewrite nth_error_app2, Nat.sub_diag by lia. cbn.
  unfold new_child. destruct (tag elem); try discriminate. exact I.
Qed.

Lemma build_loop_counts (root_node : nat) :
  forall (fuel : nat) (children : list Element) (parent : nat)
         (iterators : list (list Element)) (ancestors : list nat) (h : Heap),
    Forall (fun e => buildable e = true) children ->
    Forall (Forall (fun e => buildable e = true)) iterators ->
    has_children h parent -> Forall (has_children h) ancestors ->
    List.length iterators = List.length ancestors ->
    2 * elements_size children + pending_cost iterators < fuel ->
    exists h',
      build_loop fuel root_node children parent iterators ancestors h
      = Done root_node h' /\
      List.length h'
      = List.length h + elements_size children + pending_size iterators.
Proof.
  induction fuel as [|fuel IH];
    intros children parent iterators ancestors h Hc Hi Hp Ha Hl Hf; [lia|].
  destruct children as [|elem rest].
  - destruct iterators as [|it iterators], ancestors as [|a ancestors];
      try discriminate.
    + exists h. split; [reflexivity|]. cbn. lia.
    + cbn [build_loop]. inversion Hi; subst. inversion Ha; subst.
      destruct (IH it a iterators ancestors h) as (h' & E & L); auto.
      { rewrite pending_cost_cons in Hf. lia. }
      exists h'. split; [exact E|]. rewrite L, pending_size_cons.
      change (elements_size []) with 0. lia.
  - inversion Hc as [|? ? He Hr]; subst.
    destruct elem as [t at_ tx tl m kids].
    apply buildable_unfold in He. destruct He as (-> & Hk & Hkids).
    cbn [build_loop]. unfold alloc.
    set (node := new_child (mkElement t at_ tx None m kids) parent).
    destruct (append_child_keeps (h ++ [node]) parent (List.length h)
                (has_children_grown h parent node Hp)) as (h2 & E2 & L2 & K2).
    rewrite E2. cbn [bind tail elem_children].
    rewrite length_app in L2. cbn [List.length] in L2.
    assert (Ha2 : Forall (has_children h2) ancestors).
    { eapply Forall_impl; [|exact Ha]. intros a H.
      apply K2, has_children_grown, H. }
    assert (Hp2 : has_children h2 parent).
    { apply K2, has_children_grown, Hp. }
    assert (Hs : elements_size (mkElement t at_ tx None m kids :: rest)
                 = S (elements_size kids) + elements_size rest).
    { unfold elements_size at 1. cbn [map list_sum].
      rewrite element_size_unfold. reflexivity. }
    rewrite Hs in *.
    destruct kids as [|k kids].
    + destruct (IH rest parent iterators ancestors h2) as (h' & E & L); auto.
      { change (elements_size []) with 0 in Hf. lia. }
      exists h'. split; [exact E|]. rewrite L, L2.
      change (elements_size []) with 0. lia.
    + assert (Hcall : callable t = false).
      { destruct (callable t); [|reflexivity].
        discriminate (Hk eq_refl). }
      destruct (IH (k :: kids) (List.length h) (rest :: iterators)
                   (parent :: ancestors) h2) as (h' & E & L); auto.
      { apply K2. apply new_child_has_children. exact Hcall. }
      { cbn. congruence. }
      { rewrite pending_cost_cons. lia. }
      exists h'. split; [exact E|]. rewrite L, L2, pending_size_cons. lia.
Qed.

(** X19. On a tree whose elements below the root have no tail (and whose
    comments and processing instructions have no children), [_build_nodes]
    ends without an exception, returns the first node it allocates, and
    allocates one node for each element of the tree, and one more for the
    document when the root is given as a document. *)
Theorem build_nodes_one_node_per_element (e : Element) (h : Heap) :
  Forall (fun k => buildable k = true) (elem_children e) ->
  (exists h', _build_nodes (VElement e) h = Done (List.length h) h' /\
              List.length h' = List.length h + element_size e) /\
  (callable (tag e) = false ->
   exists h', _build_nodes (VDocument e) h = Done (List.length h) h' /\
              List.length h' = List.length h + 1 + element_size e).
Proof.
  intros Hk. destruct e as [t at_ tx tl m kids]. cbn [elem_children] in Hk.
  rewrite element_size_unfold. split.
  - cbn [_build_nodes]. unfold alloc. cbn [elem_children].
    rewrite element_size_unfold.
    set (node := new_root_element (mkElement t at_ tx tl m kids)).
    destruct (build_loop_counts (List.length h)
                (2 * S (elements_size kids) + 1) kids (List.length h) [] []
                (h ++ [node])) as (h' & E & L); auto.
    { unfold has_children. rewrite nth_error_app2, Nat.sub_diag by lia.
      exact I. }
    { cbn. lia. }
    exists h'. split; [exact E|]. rewrite L, length_app. cbn. lia.
  - cbn [tag]. intros Hc. cbn [_build_nodes tag]. unfold alloc.
    destruct t as [s| |]; try discriminate.
    set (doc := new_document (mkElement (TagName s) at_ tx tl m kids)).
    set (el := new_element (mkElement (TagName s) at_ tx tl m kids)
                           (List.length h)).
    rewrite length_app. cbn [List.length].
    assert (Hd : has_children ((h ++ [doc]) ++ [el]) (List.length h)).
    { apply has_children_grown. unfold has_children.
      rewrite nth_error_app2, Nat.sub_diag by lia. exact I. }
    destruct (append_child_keeps _ (List.length h) (List.length h + 1) Hd)
      as (h2 & E2 & L2 & K2).
    rewrite E2. cbn [bind elem_children]. rewrite element_size_unfold.
    destruct (build_loop_counts (List.length h)
                (2 * S (elements_size kids) + 1) kids (List.length h + 1) [] []
                h2) as (h' & E & L); auto.
    { apply K2. unfold has_children.
      rewrite nth_error_app2 by (rewrite length_app; cbn; lia).
      rewrite length_app. cbn [List.length].
      replace (List.length h + 1 - (List.length h + 1)) with 0 by lia.
      exact I. }
    { cbn. lia. }
    exists h'. split; [exact E|]. rewrite L, L2, !length_app. cbn. lia.
Qed.

Lemma build_nodes_one_node_per_element_witness :
  (exists h', _build_nodes (VElement tree_A) [] = Done 0 h' /\
              List.length h' = 0 + element_size tree_A) /\
  (callable (tag tree_A) = false ->
   exists h', _build_nodes (VDocument tree_A) [] = Done 0 h' /\
              List.length h' = 0 + 1 + element_size tree_A).
Proof.
  apply (build_nodes_one_node_per_element tree_A []).
  repeat constructor.
Defined.

(** ** The child axis on a backing element *)

Lemma yield_children_without_tail (kids : list Element) :
  forall (c : XPathContext) (trace : list XPathContext),
    Forall (fun k => tail k = None) kids ->
    exists c',
      yield_children c kids trace
      = (trace ++ map (fun k => set_item c (VElement k)) kids, c', None) /\
      (root c', position c', size c', axis c', raw_parent c')
      = (root c, position c, size c, axis c, raw_parent c).
Proof.
  induction kids as [|k kids IH]; intros c trace H; cbn [yield_children map].
  - exists c. rewrite app_nil_r. auto.
  - inversion H as [|? ? Hk Hr]; subst. rewrite Hk.
    destruct (IH (set_item c (VElement k)) (trace ++ [set_item c (VElement k)])
                 Hr) as (c' & E & F).
    exists c'. rewrite E, <- app_assoc. split; [|exact F]. reflexivity.
Qed.

(** X20. On a context whose item is a backing element with a name as tag
    and children without tails, with no axis active, the child axis
    yields the text of the element as a new text node, when it has a text,
    and then the children in order, with the axis set to [child] at every
    yield; run to its end it leaves the context as it found it. *)
Theorem child_axis_of_element (c : XPathContext) (h : Heap) (e : Element) :
  item c = VElement e -> callable (tag e) = false -> axis c = None ->
  Forall (fun k => tail k = None) (elem_children e) ->
  exists trace,
    iter_children_or_self c h
    = Exhausted trace c
        (match text e with Some t => h ++ [new_text t e] | None => h end) /\
    map item trace
    = match text e with Some _ => [VNode (List.length h)] | None => [] end
      ++ map VElement (elem_children e) /\
    Forall (fun c' => (position c', size c', axis c')
                      = (position c, size c, Some "child"%string)) trace.
Proof.
  intros Hi Hc Ha Hk. unfold iter_children_or_self. rewrite Ha.
  cbn [item set_axis]. rewrite Hi. cbn [node_at]. rewrite Hc.
  set (c1 := set_axis c (Some "child"%string)).
  destruct (text e) as [t|].
  - unfold alloc.
    destruct (yield_children_without_tail (elem_children e)
                (set_item c1 (VNode (List.length h)))
                [set_item c1 (VNode (List.length h))] Hk) as (c' & E & F).
    rewrite E. eexists. split; [|split].
    + f_equal. cbn in F. injection F as F1 F2 F3 F4 F5.
      destruct c, c'; cbn in *. subst. reflexivity.
    + cbn [map app item set_item]. f_equal. rewrite map_map. reflexivity.
    + constructor; [reflexivity|]. apply Forall_map, Forall_forall.
      intros k _. reflexivity.
  - destruct (yield_children_without_tail (elem_children e) c1 [] Hk)
      as (c' & E & F).
    rewrite E. eexists. split; [|split].
    + f_equal. cbn in F. injection F as F1 F2 F3 F4 F5.
      destruct c, c'; cbn in *. subst. reflexivity.
    + cbn [map app]. rewrite map_map. reflexivity.
    + apply Forall_map, Forall_forall. intros k _. reflexivity.
Qed.

Lemma child_axis_of_element_witness :
  exists trace,
    iter_children_or_self on_A []
    = Exhausted trace on_A
        (match text tree_A with
         | Some t => [] ++ [new_text t tree_A]
         | None => []
         end) /\
    map item trace
    = match text tree_A with Some _ => [VNode (List.length (@nil Node))] | None => [] end
      ++ map VElement (elem_children tree_A) /\
    Forall (fun c' => (position c', size c', axis c')
                      = (position on_A, size on_A, Some "child"%string)) trace.
Proof.
  apply (child_axis_of_element on_A [] tree_A).
  - reflexivity.
  - reflexivity.
  - reflexivity.
  - repeat constructor.
Defined.

(** ** The descendant axis *)

Lemma yield_each_trace (items : list Val) :
  forall (acc : list XPathContext) (c : XPathContext),
    let r := fold_left (fun acc v => (fst acc ++ [set_item (snd acc) v],
                                      set_item (snd acc) v))
                       items (acc, c) in
    map focus (fst r)
    = map focus acc
      ++ map (fun v => (v, position c, size c, axis c)) items /\
    root (snd r) = root c /\ raw_parent (snd r) = raw_parent c /\
    position (snd r) = position c /\ size (snd r) = size c /\
    axis (snd r) = axis c.
Proof.
  induction items as [|v items IH]; intros acc c; cbn [fold_left fst snd].
  - rewrite app_nil_r. repeat split.
  - destruct (IH (acc ++ [set_item c v]) (set_item c v))
      as (H1 & H2 & H3 & H4 & H5 & H6).
    cbv zeta in *. rewrite H1, H2, H3, H4, H5, H6, map_app, <- app_assoc.
    repeat split.
Qed.

Lemma yield_forward_axis (n : Z) (ax : option string) (results : list Val) :
  forall (c : XPathContext) (k : Z),
    size c = n -> axis c = ax ->
    map focus (fst (yield_forward c (k + 1) results))
    = map (fun kx => (snd kx, (fst kx + 1)%Z, n, ax)) (numbered k results) /\
    root (snd (yield_forward c (k + 1) results)) = root c /\
    raw_parent (snd (yield_forward c (k + 1) results)) = raw_parent c.
Proof.
  induction results as [|x rest IH]; intros c k Hs Ha; cbn; [auto|].
  specialize (IH (set_item (set_position c (k + 1)) x) (k + 1)%Z Hs Ha).
  destruct (yield_forward _ (k + 1 + 1) rest) as [trace c'].
  cbn [fst snd map] in *. destruct IH as (E & R & P).
  rewrite E, R, P. unfold focus. cbn. rewrite Hs, Ha. auto.
Qed.

(** X24. On a context whose item is an element or a document node of a
    heap that holds a tree, the descendant axis ends, yields the nodes
    below the item in document order, after the item itself unless the
    axis is [descendant], with the axis set as given at every yield, and
    leaves the context as it found it; with an inner focus the size is
    the number of the nodes and the position counts them from 1,
    otherwise position and size stay as they are. *)
Theorem descendant_axis_document_order (unwrapped : Val -> bool)
    (fuel : nat) (axis_ : option string) (inner_focus : bool)
    (c : XPathContext) (h : Heap) (addr : nat) (kids : list Tree) :
  item c = VNode addr ->
  holds h addr kids -> Forall (shaped h) kids ->
  2 * forest_size kids < fuel ->
  let nodes :=
    map VNode
      ((if match axis_ with
           | Some a => String.eqb a "descendant"
           | None => false
           end then [] else [addr])
       ++ flat_map preorder kids) in
  exists trace,
    iter_descendants unwrapped fuel axis_ inner_focus c h
    = Exhausted trace c h /\
    map focus trace
    = if inner_focus then
        map (fun kx => (snd kx, (fst kx + 1)%Z,
                        Z.of_nat (List.length nodes), axis_))
            (numbered 0 nodes)
      else map (fun v => (v, position c, size c, axis_)) nodes.
Proof.
  intros Hi Hh Hk Hf. cbv zeta. unfold iter_descendants. rewrite Hi.
  assert (N : (if match axis_ with
                  | Some a => String.eqb a "descendant"
                  | None => false
                  end then [] else [addr])
              = (if negb match axis_ with
                         | Some a => String.eqb a "descendant"
                         | None => false
                         end then [addr] else [])).
  { destruct axis_ as [a|]; [|reflexivity].
    destruct (String.eqb a "descendant"); reflexivity. }
  rewrite N. clear N.
  set (with_self := negb match axis_ with
                         | Some a => String.eqb a "descendant"
                         | None => false
                         end).
  pose proof (NodesWalkFacts.descendants_walk fuel with_self addr h kids
                Hh Hk Hf) as D.
  set (nodes := map VNode ((if with_self then [addr] else [])
                           ++ flat_map preorder kids)) in *.
  clearbody with_self.
  unfold holds in Hh.
  assert (E : forall l, l = nodes ->
    exists trace,
      (if inner_focus
       then
         let c1 := set_size (set_axis c axis_) (Z.of_nat (List.length l)) in
         let (trace, c2) := yield_forward c1 1 l in
         Exhausted trace
           (mkContext (root c2) (item c) (position c) (size c) (axis c)
                      (raw_parent c2)) h
       else
         let (trace, c2) := yield_each (set_axis c axis_) l in
         Exhausted trace (set_axis (set_item c2 (item c)) (axis c)) h)
      = Exhausted trace c h /\
      map focus trace
      = (if inner_focus
         then map (fun kx => (snd kx, (fst kx + 1)%Z,
                              Z.of_nat (List.length nodes), axis_))
                  (numbered 0 nodes)
         else map (fun v => (v, position c, size c, axis_)) nodes)).
  { intros l ->. destruct inner_focus.
    - cbv zeta.
      destruct (yield_forward_axis (Z.of_nat (List.length nodes)) axis_ nodes
                  (set_size (set_axis c axis_) (Z.of_nat (List.length nodes)))
                  0%Z eq_refl eq_refl) as (F & R & P).
      change (0 + 1)%Z with 1%Z in *.
      destruct (yield_forward _ 1 nodes) as [trace c2]. cbn [fst snd] in *.
      exists trace. split; [|exact F]. f_equal. cbn in R, P. rewrite R, P.
      destruct c; reflexivity.
    - pose proof (yield_each_trace nodes [] (set_axis c axis_))
        as (F & R & P & Q1 & Q2 & Q3).
      cbv zeta in *. fold (yield_each (set_axis c axis_) nodes) in *.
      destruct (yield_each (set_axis c axis_) nodes) as [trace c2].
      cbn [fst snd map app] in *. exists trace. split; [|exact F].
      f_equal. destruct c, c2; cbn in *. subst. reflexivity. }
  destruct (nth_error h addr) as [[| | | | |e p po x m ns ats ch|d po ch]|];
    try contradiction; rewrite D; rewrite <- Hi; apply E; reflexivity.
Qed.

Lemma descendant_axis_document_order_witness :
  let nodes :=
    map VNode
      ((if match Some "descendant"%string with
           | Some a => String.eqb a "descendant"
           | None => false
           end then [] else [0])
       ++ flat_map preorder family_tree) in
  exists trace,
    iter_descendants (fun _ => false) 11 (Some "descendant"%string) true
                     on_family family_heap
    = Exhausted trace on_family family_heap /\
    map focus trace
    = if true then
        map (fun kx => (snd kx, (fst kx + 1)%Z,
                        Z.of_nat (List.length nodes),
                        Some "descendant"%string))
            (numbered 0 nodes)
      else map (fun v => (v, position on_family, size on_family,
                          Some "descendant"%string)) nodes.
Proof.
  apply (descendant_axis_document_order (fun _ => false) 11
           (Some "descendant"%string) true on_family family_heap 0
           family_tree).
  - reflexivity.
  - reflexivity.
  - exact family_shaped.
  - vm_compute. lia.
Defined.

End ContextFocusFacts.

(* ================================================================== *)
(** * More facts about xpath_token.py *)
(* ================================================================== *)

Module OrdinalFacts.

Import XToken.
Local Open Scope Z_scope.

(** X21. Of the positive integers, only 11, 12 and 13 themselves are
    given [th] against their last digit: a greater one that ends in 11, 12
    or 13, such as 111, gets the suffix of its last digit. *)
Theorem ordinal_of_other_teens (k : Z) :
  0 < k ->
  ordinal (100 * k + 11) = (Str.of_Z (100 * k + 11) ++ "st")%string /\
  ordinal (100 * k + 12) = (Str.of_Z (100 * k + 12) ++ "nd")%string /\
  ordinal (100 * k + 13) = (Str.of_Z (100 * k + 13) ++ "rd")%string.
Proof.
  intros Hk. unfold ordinal.
  assert (M : forall d, 0 <= d < 10 -> (100 * k + (10 + d)) mod 10 = d).
  { intros d Hd. replace (100 * k + (10 + d)) with (d + (10 * k + 1) * 10) by lia.
    rewrite Z.mod_add by lia. apply Z.mod_small. exact Hd. }
  repeat split.
  - destruct (Z.eqb_spec (100 * k + 11) 11); [lia|].
    destruct (Z.eqb_spec (100 * k + 11) 12); [lia|].
    destruct (Z.eqb_spec (100 * k + 11) 13); [lia|].
    cbn [orb]. change 11 with (10 + 1). rewrite (M 1) by lia. reflexivity.
  - destruct (Z.eqb_spec (100 * k + 12) 11); [lia|].
    destruct (Z.eqb_spec (100 * k + 12) 12); [lia|].
    destruct (Z.eqb_spec (100 * k + 12) 13); [lia|].
    cbn [orb]. change 12 with (10 + 2). rewrite (M 2) by lia. reflexivity.
  - destruct (Z.eqb_spec (100 * k + 13) 11); [lia|].
    destruct (Z.eqb_spec (100 * k + 13) 12); [lia|].
    destruct (Z.eqb_spec (100 * k + 13) 13); [lia|].
    cbn [orb]. change 13 with (10 + 3). rewrite (M 3) by lia. reflexivity.
Qed.

Lemma ordinal_of_other_teens_witness :
  ordinal 111 = "111st"%string /\ ordinal 112 = "112nd"%string /\
  ordinal 113 = "113rd"%string.
Proof. exact (ordinal_of_other_teens 1 ltac:(reflexivity)). Defined.

End OrdinalFacts.
